(** * The JARVIS session controller (web_gui/src/components)

    A shallow embedding of the [JarvisInterface] component and of the
    [useAudioAnalyzer] hook it consumes: the hook cells and refs of the
    component, the browser objects it drives (WebSocket objects, timers,
    the console, the microphone), and its callbacks [sendWebSocketMessage],
    [addToConversation], [handleJarvisMessage], [connectToJarvis] with the
    four socket handlers it installs, [sendTextMessage], [toggleMicrophone]
    and [clearConversation].

    Conventions of the embedding:
    - a JavaScript string is the list of its UTF-16 code units;
    - a JavaScript number that carries a quantity (intensity, level, delay)
      is an exact rational; clock readings and counters are integers;
    - every callback runs to completion on the single event queue, so a
      callback is a state transformer; the component is assumed re-rendered
      between two callbacks, so that a callback reads the latest cells;
    - what the browser decides (the clock, whether the microphone is
      granted, whether the WebSocket constructor throws) is read from an
      [Oracle] that accompanies each callback; the clock is read once per
      callback, and the promise of [startListening] settles within the
      callback that calls it.
    The per-frame sampling loop of the audio hook and the unmount cleanup
    are outside the embedding. *)

From Stdlib Require Import ZArith QArith Qminmax Qpower Qabs String Ascii List Lia Lqa.
From stdpp Require Import base option list gmap.
Import ListNotations.

Close Scope Q_scope.
Local Open Scope Z_scope.

(** ** JavaScript strings *)

Definition jsstring := list N.

(** An ASCII literal as a JavaScript string. *)
Definition js (s : string) : jsstring :=
  map N_of_ascii (list_ascii_of_string s).

(** ECMAScript WhiteSpace and LineTerminator code units, the ones
    [String.prototype.trim] strips. *)
Definition isWhiteSpace (c : N) : bool :=
  ((c =? 0x0009) || (c =? 0x000A) || (c =? 0x000B) || (c =? 0x000C) ||
   (c =? 0x000D) || (c =? 0x0020) || (c =? 0x00A0) || (c =? 0x1680) ||
   ((0x2000 <=? c) && (c <=? 0x200A)) ||
   (c =? 0x2028) || (c =? 0x2029) || (c =? 0x202F) || (c =? 0x205F) ||
   (c =? 0x3000) || (c =? 0xFEFF))%N.

Fixpoint trimStart (s : jsstring) : jsstring :=
  match s with
  | c :: s' => if isWhiteSpace c then trimStart s' else s
  | [] => []
  end.

Definition trimEnd (s : jsstring) : jsstring := rev (trimStart (rev s)).

Definition trim (s : jsstring) : jsstring := trimEnd (trimStart s).

(** Truthiness of a string: the empty string is the only falsy one. *)
Definition truthy (s : jsstring) : bool :=
  match s with [] => false | _ => true end.

(** ** Data model *)

Inductive Role := user | assistant.

(** An entry of [conversationHistory].  [timestamp] is the clock reading
    that [toLocaleTimeString] renders; [id] keeps the three parts of the
    template [`${role}-${text}-${Date.now()}`]. *)
Record ConversationMessage := {
  role : Role;
  text : jsstring;
  timestamp : Z;
  id : Role * jsstring * Z
}.

(** Messages the component sends. *)
Inductive Outbound :=
| enable_mic
| disable_mic
| text_input (text : jsstring).

(** A frame on the wire: the JSON text of an outbound message. *)
Inductive Frame := JSON_stringify (message : Outbound).

(** Parsed inbound messages, by their [type] field.  [mode_change] carries
    [mode] and an optional [intensity]; [audio_level] carries [mode] and
    [level]. *)
Inductive Inbound :=
| user_text (text : jsstring)
| assistant_stream (text : jsstring)
| assistant_final (text : jsstring)
| mode_change (mode : jsstring) (intensity : option Q)
| audio_level (mode : jsstring) (level : Q)
| unknown_type (type : jsstring).

Inductive ReadyState := CONNECTING | OPEN | CLOSING | CLOSED.

(** A WebSocket object of the browser: its ready state and the frames
    handed to its [send]. *)
Record WebSocket := {
  readyState : ReadyState;
  sent : list Frame
}.

(** What a pending timer runs: [connectToJarvis], or the delayed
    announcement of the microphone state installed by [onopen]. *)
Inductive TimerCallback := run_connectToJarvis | run_announceMic.

Record Timer := {
  delay : Q;
  callback : TimerCallback
}.

(** The object held by [reconnectTimeoutRef]: [{ attempt, timeout }],
    where [onopen] stores [{ attempt: 0 }] without a timeout. *)
Record Reconnect := {
  attempt : nat;
  timeout : option nat
}.

(** The object held by [lastTextInputRef]. *)
Record LastTextInput := {
  last_text : jsstring;
  last_timestamp : Z
}.

(** Console output.  The constructors name the messages of the source;
    the lines [onclose] and [onerror] print about one event are merged
    into [log_disconnected] and [error_websocket]. *)
Inductive ConsoleLine :=
| warn_not_ready (message : Outbound)
| log_unknown_type (type : jsstring)
| log_in_progress
| log_already_connected
| error_max_attempts
| log_attempting
| log_connected
| log_disconnected (wasClean : bool)
| log_reconnect_scheduled (reconnectDelay : Q) (attempt : nat)
| log_reconnect_scheduled_error (reconnectDelay : Q) (attempt : nat)
| error_websocket (state : option ReadyState)
| error_failed_to_connect
| error_parse
| error_accessing_microphone
| error_enable_microphone.

(** Calls received by the microphone monitor. *)
Inductive MonitorCall := call_startListening | call_stopListening.

Inductive Completion := fulfilled | rejected.

(** ** State *)

(** The [useState] cells of [JarvisInterface]. *)
Record Cells := {
  mode : jsstring;
  intensity : Q;
  userText : jsstring;
  assistantText : jsstring;
  isConnected : bool;
  conversationHistory : list ConversationMessage;
  currentResponse : jsstring;
  micEnabled : bool;
  isWaitingForResponse : bool
}.

(** Its [useRef] cells.  [wsRef] names a WebSocket object of the browser.
    [micEnabledRef] is the cell that an effect keeps equal to
    [micEnabled]. *)
Record Refs := {
  micEnabledRef : bool;
  wsRef : option nat;
  responseRef : jsstring;
  lastTextInputRef : option LastTextInput;
  reconnectTimeoutRef : option Reconnect;
  isConnectingRef : bool
}.

(** The cells of [useAudioAnalyzer]. *)
Record Monitor := {
  isListening : bool;
  audioLevel : Q
}.

(** The browser: the WebSocket objects constructed so far, the pending
    timers, the console, and the calls the microphone monitor received. *)
Record Browser := {
  sockets : gmap nat WebSocket;
  nextSocket : nat;
  timers : gmap nat Timer;
  nextTimer : nat;
  console : list ConsoleLine;
  monitorCalls : list MonitorCall
}.

Record State := {
  cells : Cells;
  refs : Refs;
  monitor : Monitor;
  browser : Browser
}.

(** What the browser decides during one callback. *)
Record Oracle := {
  now : Z;
  micGranted : bool;
  constructorThrows : bool
}.

(** The component as mounted: initial cell values, no socket, no timer. *)
Definition mounted : State := {|
  cells := {| mode := js "idle"; intensity := 0.5%Q; userText := [];
              assistantText := []; isConnected := false;
              conversationHistory := []; currentResponse := [];
              micEnabled := false; isWaitingForResponse := false |};
  refs := {| micEnabledRef := false; wsRef := None; responseRef := [];
             lastTextInputRef := None; reconnectTimeoutRef := None;
             isConnectingRef := false |};
  monitor := {| isListening := false; audioLevel := 0%Q |};
  browser := {| sockets := ∅; nextSocket := 0%nat; timers := ∅;
                nextTimer := 0%nat; console := []; monitorCalls := [] |}
|}.

(** ** Callbacks as state transformers *)

Definition M (A : Type) : Type := Oracle -> State -> A * State.

Definition ret {A} (a : A) : M A := fun _ st => (a, st).

Definition bind {A B} (m : M A) (k : A -> M B) : M B :=
  fun o st => match m o st with (a, st') => k a o st' end.

Declare Scope callback_scope.
Delimit Scope callback_scope with callback.
Notation "x <- c1 ;; c2" := (bind c1 (fun x => c2))
  (at level 100, c1 at next level, right associativity) : callback_scope.
Notation "c1 ;; c2" := (bind c1 (fun _ => c2))
  (at level 100, right associativity) : callback_scope.
Bind Scope callback_scope with M.
Local Open Scope callback_scope.

Definition exec {A} (m : M A) (o : Oracle) (st : State) : State := snd (m o st).
Definition eval {A} (m : M A) (o : Oracle) (st : State) : A := fst (m o st).

Definition read {A} (f : State -> A) : M A := fun _ st => (f st, st).
Definition ask {A} (f : Oracle -> A) : M A := fun o st => (f o, st).

Definition on_cells (f : Cells -> Cells) : M unit := fun _ st =>
  (tt, {| cells := f (cells st); refs := refs st;
          monitor := monitor st; browser := browser st |}).
Definition on_refs (f : Refs -> Refs) : M unit := fun _ st =>
  (tt, {| cells := cells st; refs := f (refs st);
          monitor := monitor st; browser := browser st |}).
Definition on_monitor (f : Monitor -> Monitor) : M unit := fun _ st =>
  (tt, {| cells := cells st; refs := refs st;
          monitor := f (monitor st); browser := browser st |}).
Definition on_browser (f : Browser -> Browser) : M unit := fun _ st =>
  (tt, {| cells := cells st; refs := refs st;
          monitor := monitor st; browser := f (browser st) |}).

(** *** The state setters of the component *)

Definition setMode (v : jsstring) : M unit := on_cells (fun c =>
  {| mode := v; intensity := intensity c; userText := userText c;
     assistantText := assistantText c; isConnected := isConnected c;
     conversationHistory := conversationHistory c;
     currentResponse := currentResponse c; micEnabled := micEnabled c;
     isWaitingForResponse := isWaitingForResponse c |}).

Definition setIntensity (v : Q) : M unit := on_cells (fun c =>
  {| mode := mode c; intensity := v; userText := userText c;
     assistantText := assistantText c; isConnected := isConnected c;
     conversationHistory := conversationHistory c;
     currentResponse := currentResponse c; micEnabled := micEnabled c;
     isWaitingForResponse := isWaitingForResponse c |}).

Definition setUserText (v : jsstring) : M unit := on_cells (fun c =>
  {| mode := mode c; intensity := intensity c; userText := v;
     assistantText := assistantText c; isConnected := isConnected c;
     conversationHistory := conversationHistory c;
     currentResponse := currentResponse c; micEnabled := micEnabled c;
     isWaitingForResponse := isWaitingForResponse c |}).

Definition setAssistantText (v : jsstring) : M unit := on_cells (fun c =>
  {| mode := mode c; intensity := intensity c; userText := userText c;
     assistantText := v; isConnected := isConnected c;
     conversationHistory := conversationHistory c;
     currentResponse := currentResponse c; micEnabled := micEnabled c;
     isWaitingForResponse := isWaitingForResponse c |}).

Definition setIsConnected (v : bool) : M unit := on_cells (fun c =>
  {| mode := mode c; intensity := intensity c; userText := userText c;
     assistantText := assistantText c; isConnected := v;
     conversationHistory := conversationHistory c;
     currentResponse := currentResponse c; micEnabled := micEnabled c;
     isWaitingForResponse := isWaitingForResponse c |}).

(** [setConversationHistory] takes an updater, as the source calls it. *)
Definition setConversationHistory
    (f : list ConversationMessage -> list ConversationMessage) : M unit :=
  on_cells (fun c =>
  {| mode := mode c; intensity := intensity c; userText := userText c;
     assistantText := assistantText c; isConnected := isConnected c;
     conversationHistory := f (conversationHistory c);
     currentResponse := currentResponse c; micEnabled := micEnabled c;
     isWaitingForResponse := isWaitingForResponse c |}).

Definition setCurrentResponse (v : jsstring) : M unit := on_cells (fun c =>
  {| mode := mode c; intensity := intensity c; userText := userText c;
     assistantText := assistantText c; isConnected := isConnected c;
     conversationHistory := conversationHistory c;
     currentResponse := v; micEnabled := micEnabled c;
     isWaitingForResponse := isWaitingForResponse c |}).

(** [setMicEnabled] together with the effect that copies the new value
    into [micEnabledRef]. *)
Definition setMicEnabled (v : bool) : M unit :=
  on_cells (fun c =>
  {| mode := mode c; intensity := intensity c; userText := userText c;
     assistantText := assistantText c; isConnected := isConnected c;
     conversationHistory := conversationHistory c;
     currentResponse := currentResponse c; micEnabled := v;
     isWaitingForResponse := isWaitingForResponse c |}) ;;
  on_refs (fun r =>
  {| micEnabledRef := v; wsRef := wsRef r; responseRef := responseRef r;
     lastTextInputRef := lastTextInputRef r;
     reconnectTimeoutRef := reconnectTimeoutRef r;
     isConnectingRef := isConnectingRef r |}).

Definition setIsWaitingForResponse (v : bool) : M unit := on_cells (fun c =>
  {| mode := mode c; intensity := intensity c; userText := userText c;
     assistantText := assistantText c; isConnected := isConnected c;
     conversationHistory := conversationHistory c;
     currentResponse := currentResponse c; micEnabled := micEnabled c;
     isWaitingForResponse := v |}).

(** *** Assignments to the refs *)

Definition set_wsRef (v : option nat) : M unit := on_refs (fun r =>
  {| micEnabledRef := micEnabledRef r; wsRef := v;
     responseRef := responseRef r; lastTextInputRef := lastTextInputRef r;
     reconnectTimeoutRef := reconnectTimeoutRef r;
     isConnectingRef := isConnectingRef r |}).

Definition set_responseRef (v : jsstring) : M unit := on_refs (fun r =>
  {| micEnabledRef := micEnabledRef r; wsRef := wsRef r;
     responseRef := v; lastTextInputRef := lastTextInputRef r;
     reconnectTimeoutRef := reconnectTimeoutRef r;
     isConnectingRef := isConnectingRef r |}).

Definition set_lastTextInputRef (v : option LastTextInput) : M unit :=
  on_refs (fun r =>
  {| micEnabledRef := micEnabledRef r; wsRef := wsRef r;
     responseRef := responseRef r; lastTextInputRef := v;
     reconnectTimeoutRef := reconnectTimeoutRef r;
     isConnectingRef := isConnectingRef r |}).

Definition set_reconnectTimeoutRef (v : option Reconnect) : M unit :=
  on_refs (fun r =>
  {| micEnabledRef := micEnabledRef r; wsRef := wsRef r;
     responseRef := responseRef r; lastTextInputRef := lastTextInputRef r;
     reconnectTimeoutRef := v;
     isConnectingRef := isConnectingRef r |}).

Definition set_isConnectingRef (v : bool) : M unit := on_refs (fun r =>
  {| micEnabledRef := micEnabledRef r; wsRef := wsRef r;
     responseRef := responseRef r; lastTextInputRef := lastTextInputRef r;
     reconnectTimeoutRef := reconnectTimeoutRef r;
     isConnectingRef := v |}).

(** *** The browser *)

Definition console_write (line : ConsoleLine) : M unit := on_browser (fun b =>
  {| sockets := sockets b; nextSocket := nextSocket b; timers := timers b;
     nextTimer := nextTimer b; console := console b ++ [line];
     monitorCalls := monitorCalls b |}).

Definition monitor_called (c : MonitorCall) : M unit := on_browser (fun b =>
  {| sockets := sockets b; nextSocket := nextSocket b; timers := timers b;
     nextTimer := nextTimer b; console := console b;
     monitorCalls := monitorCalls b ++ [c] |}).

(** [ws && ws.readyState]: the ready state of the socket a ref names. *)
Definition socket_readyState (ws : option nat) : M (option ReadyState) :=
  read (fun st =>
    match ws with
    | Some s => match sockets (browser st) !! s with
                | Some sock => Some (readyState sock)
                | None => None
                end
    | None => None
    end).

Definition is_state (r : ReadyState) (o : option ReadyState) : bool :=
  match o, r with
  | Some CONNECTING, CONNECTING | Some OPEN, OPEN
  | Some CLOSING, CLOSING | Some CLOSED, CLOSED => true
  | _, _ => false
  end.

(** [ws.send(frame)]. *)
Definition socket_send (s : nat) (frame : Frame) : M unit :=
  on_browser (fun b =>
  {| sockets := alter (fun sock => {| readyState := readyState sock;
                                      sent := sent sock ++ [frame] |})
                      s (sockets b);
     nextSocket := nextSocket b; timers := timers b;
     nextTimer := nextTimer b; console := console b;
     monitorCalls := monitorCalls b |}).

(** The browser moves a socket to another ready state. *)
Definition socket_becomes (s : nat) (r : ReadyState) : M unit :=
  on_browser (fun b =>
  {| sockets := alter (fun sock => {| readyState := r; sent := sent sock |})
                      s (sockets b);
     nextSocket := nextSocket b; timers := timers b;
     nextTimer := nextTimer b; console := console b;
     monitorCalls := monitorCalls b |}).

(** [new WebSocket('ws://localhost:8765')]: a fresh object in state
    CONNECTING, or [None] when the constructor throws. *)
Definition new_WebSocket : M (option nat) :=
  throws <- ask constructorThrows ;;
  if throws then ret None
  else
    s <- read (fun st => nextSocket (browser st)) ;;
    on_browser (fun b =>
      {| sockets := <[s := {| readyState := CONNECTING; sent := [] |}]>
                      (sockets b);
         nextSocket := S (nextSocket b); timers := timers b;
         nextTimer := nextTimer b; console := console b;
         monitorCalls := monitorCalls b |}) ;;
    ret (Some s).

(** [setTimeout(callback, delay)], returning the timer's handle. *)
Definition setTimeout (cb : TimerCallback) (d : Q) : M nat :=
  t <- read (fun st => nextTimer (browser st)) ;;
  on_browser (fun b =>
    {| sockets := sockets b; nextSocket := nextSocket b;
       timers := <[t := {| delay := d; callback := cb |}]> (timers b);
       nextTimer := S (nextTimer b); console := console b;
       monitorCalls := monitorCalls b |}) ;;
  ret t.

(** [clearTimeout(handle)]; an undefined handle clears nothing. *)
Definition clearTimeout (handle : option nat) : M unit :=
  match handle with
  | Some t => on_browser (fun b =>
      {| sockets := sockets b; nextSocket := nextSocket b;
         timers := delete t (timers b);
         nextTimer := nextTimer b; console := console b;
         monitorCalls := monitorCalls b |})
  | None => ret tt
  end.

(** ** useAudioAnalyzer *)

(** [startListening]: everything from resuming the audio context to
    [getUserMedia] sits in one [try]; the [catch] logs the error, so the
    promise is fulfilled on both paths.  The oracle says whether the
    microphone is obtained. *)
Definition startListening : M Completion :=
  monitor_called call_startListening ;;
  granted <- ask micGranted ;;
  if granted then
    on_monitor (fun m => {| isListening := true; audioLevel := audioLevel m |}) ;;
    ret fulfilled
  else
    console_write error_accessing_microphone ;;
    ret fulfilled.

Definition stopListening : M unit :=
  monitor_called call_stopListening ;;
  on_monitor (fun _ => {| isListening := false; audioLevel := 0%Q |}).

(** ** JarvisInterface *)

Definition sendWebSocketMessage (message : Outbound) : M bool :=
  ws <- read (fun st => wsRef (refs st)) ;;
  rs <- socket_readyState ws ;;
  match ws with
  | Some s =>
      if is_state OPEN rs then
        socket_send s (JSON_stringify message) ;;
        ret true
      else
        console_write (warn_not_ready message) ;;
        ret false
  | None =>
      console_write (warn_not_ready message) ;;
      ret false
  end.

Definition addToConversation (r : Role) (t : jsstring) : M unit :=
  messageId <- ask (fun o => (r, t, now o)) ;;
  stamp <- ask now ;;
  set_lastTextInputRef (Some {| last_text := t; last_timestamp := stamp |}) ;;
  setConversationHistory (fun prev =>
    prev ++ [ {| role := r; text := t; timestamp := stamp; id := messageId |} ]).

(** The test of the [user_text] case:
    [last && last.text === data.text && Date.now() - last.timestamp < 2000]. *)
Definition isDuplicate (last : option LastTextInput) (t : jsstring) (clock : Z)
    : bool :=
  match last with
  | Some l => bool_decide (last_text l = t) &&
              (clock - last_timestamp l <? 2000)
  | None => false
  end.

(** [data.intensity || 0.8]: zero is falsy, like a missing field. *)
Definition intensity_or_default (i : option Q) : Q :=
  match i with
  | Some q => if Qeq_bool q 0 then 0.8%Q else q
  | None => 0.8%Q
  end.

Definition handleJarvisMessage (data : Inbound) : M unit :=
  match data with
  | user_text t =>
      last <- read (fun st => lastTextInputRef (refs st)) ;;
      clock <- ask now ;;
      (if isDuplicate last t clock then ret tt
       else addToConversation user t) ;;
      setIsWaitingForResponse true
  | assistant_stream t =>
      setIsWaitingForResponse false ;;
      r <- read (fun st => responseRef (refs st)) ;;
      set_responseRef (r ++ t) ;;
      r' <- read (fun st => responseRef (refs st)) ;;
      setCurrentResponse r'
  | assistant_final t =>
      setAssistantText t ;;
      addToConversation assistant t ;;
      set_responseRef [] ;;
      setCurrentResponse [] ;;
      setIsWaitingForResponse false ;;
      setMode (js "idle") ;;
      setIntensity 0.5%Q
  | mode_change m i =>
      setMode m ;;
      enabled <- read (fun st => micEnabled (cells st)) ;;
      if bool_decide (m = js "listening") then
        setIntensity 0.3%Q ;;
        if enabled then _ <- startListening ;; ret tt else ret tt
      else if bool_decide (m = js "speaking") then
        setIntensity (intensity_or_default i) ;;
        stopListening
      else if bool_decide (m = js "idle") then
        setIntensity 0.5%Q ;;
        if enabled then _ <- startListening ;; ret tt else ret tt
      else
        setIntensity 0.5%Q ;;
        stopListening
  | audio_level m l =>
      if bool_decide (m = js "speaking") then
        setIntensity (Qmax 0.3 (l * 1.2))%Q
      else ret tt
  | unknown_type t =>
      console_write (log_unknown_type t)
  end.

Definition maxReconnectAttempts : nat := 20.

(** [reconnectTimeoutRef.current?.attempt || 0]. *)
Definition attempt_or_0 (r : option Reconnect) : nat :=
  match r with
  | Some rc => attempt rc
  | None => 0%nat
  end.

(** [Math.min(base * Math.pow(1.5, attempt), cap)]. *)
Definition backoff (base cap : Q) (a : nat) : Q :=
  Qmin (base * 1.5 ^ Z.of_nat a) cap.

(** The body shared by the unclean-close branch of [onclose] and by the
    [catch] of [connectToJarvis]: compute the delay from the current
    attempt, arm the timer, store [{ attempt + 1, timeout }], log. *)
Definition scheduleReconnect (base cap : Q)
    (line : Q -> nat -> ConsoleLine) : M unit :=
  r <- read (fun st => reconnectTimeoutRef (refs st)) ;;
  let reconnectDelay := backoff base cap (attempt_or_0 r) in
  t <- setTimeout run_connectToJarvis reconnectDelay ;;
  set_reconnectTimeoutRef
    (Some {| attempt := attempt_or_0 r + 1; timeout := Some t |}) ;;
  console_write (line reconnectDelay (attempt_or_0 r + 1)%nat).

Definition connectToJarvis : M unit :=
  (* Clear any existing reconnection timeout *)
  r <- read (fun st => reconnectTimeoutRef (refs st)) ;;
  match r with
  | Some rc => clearTimeout (timeout rc) ;; set_reconnectTimeoutRef None
  | None => ret tt
  end ;;
  (* Prevent multiple simultaneous connection attempts *)
  connecting <- read (fun st => isConnectingRef (refs st)) ;;
  ws <- read (fun st => wsRef (refs st)) ;;
  rs <- socket_readyState ws ;;
  if connecting || is_state CONNECTING rs then
    console_write log_in_progress
  else if is_state OPEN rs then
    (* Check if we're already connected *)
    console_write log_already_connected ;;
    setIsConnected true
  else
    (* Limit reconnection attempts *)
    r <- read (fun st => reconnectTimeoutRef (refs st)) ;;
    if match r with
       | Some rc => (maxReconnectAttempts <=? attempt rc)%nat
       | None => false
       end
    then console_write error_max_attempts
    else
      set_isConnectingRef true ;;
      console_write log_attempting ;;
      created <- new_WebSocket ;;
      match created with
      | Some s =>
          (* the four handlers below are installed on the new socket *)
          set_wsRef (Some s)
      | None =>
          set_isConnectingRef false ;;
          console_write error_failed_to_connect ;;
          setIsConnected false ;;
          r <- read (fun st => reconnectTimeoutRef (refs st)) ;;
          if match r with
             | Some rc => (attempt rc <? maxReconnectAttempts)%nat
             | None => true
             end
          then scheduleReconnect 5000 60000 log_reconnect_scheduled_error
          else console_write error_max_attempts
      end.

(** The callback [onopen] arms with a 100 ms delay. *)
Definition announceMic : M unit :=
  ws <- read (fun st => wsRef (refs st)) ;;
  rs <- socket_readyState ws ;;
  match ws with
  | Some s =>
      if is_state OPEN rs then
        enabled <- read (fun st => micEnabledRef (refs st)) ;;
        socket_send s
          (JSON_stringify (if enabled then enable_mic else disable_mic))
      else ret tt
  | None => ret tt
  end.

Definition onopen : M unit :=
  set_isConnectingRef false ;;
  console_write log_connected ;;
  setIsConnected true ;;
  (* Reset reconnection attempt counter on successful connection *)
  set_reconnectTimeoutRef (Some {| attempt := 0; timeout := None |}) ;;
  _ <- setTimeout run_announceMic 100 ;;
  ret tt.

(** [onmessage]: [None] is an event whose data does not parse to a
    message; the [catch] logs it. *)
Definition onmessage (data : option Inbound) : M unit :=
  match data with
  | Some d => handleJarvisMessage d
  | None => console_write error_parse
  end.

Definition onclose (wasClean : bool) : M unit :=
  set_isConnectingRef false ;;
  console_write (log_disconnected wasClean) ;;
  setIsConnected false ;;
  (* Only attempt reconnection if not explicitly closed by the component *)
  if negb wasClean then
    scheduleReconnect 10000 120000 log_reconnect_scheduled
  else ret tt.

Definition onerror : M unit :=
  set_isConnectingRef false ;;
  ws <- read (fun st => wsRef (refs st)) ;;
  rs <- socket_readyState ws ;;
  console_write (error_websocket rs) ;;
  setIsConnected false.

Definition sendTextMessage : M unit :=
  u <- read (fun st => userText (cells st)) ;;
  connected <- read (fun st => isConnected (cells st)) ;;
  if truthy (trim u) && connected then
    let message := trim u in
    addToConversation user message ;;
    setIsWaitingForResponse true ;;
    _ <- sendWebSocketMessage (text_input message) ;;
    setUserText []
  else ret tt.

(** [toggleMicrophone] awaits [startListening] inside a [try]; the [catch]
    is the [rejected] branch. *)
Definition toggleMicrophone : M unit :=
  enabled <- read (fun st => micEnabled (cells st)) ;;
  if negb enabled then
    started <- startListening ;;
    match started with
    | fulfilled =>
        setMicEnabled true ;;
        _ <- sendWebSocketMessage enable_mic ;;
        ret tt
    | rejected =>
        console_write error_enable_microphone
    end
  else
    stopListening ;;
    setMicEnabled false ;;
    _ <- sendWebSocketMessage disable_mic ;;
    ret tt.

Definition clearConversation : M unit :=
  setConversationHistory (fun _ => []) ;;
  setCurrentResponse [] ;;
  set_responseRef [].

(** ** Executions *)

(** What can happen to a mounted component.  [Connect] is a call of
    [connectToJarvis] (the mount effect makes the first one). *)
Inductive Event :=
| Connect
| TimerFires (t : nat)
| SocketOpens (s : nat)
| SocketReceives (s : nat) (data : option Inbound)
| SocketStartsClosing (s : nat)
| SocketCloses (s : nat) (wasClean failed : bool)
| Types (t : jsstring)
| Sends
| TogglesMic
| Clears.

Definition run_callback (cb : TimerCallback) : M unit :=
  match cb with
  | run_connectToJarvis => connectToJarvis
  | run_announceMic => announceMic
  end.

Definition ready (st : State) (s : nat) : option ReadyState :=
  match sockets (browser st) !! s with
  | Some sock => Some (readyState sock)
  | None => None
  end.

(** One event.  The browser fires a socket event only in a ready state
    that allows it, and a timer only while it is pending; the result is
    [None] for an event the browser cannot produce.  When a connection
    ends the browser first sets the state to CLOSED, then fires [error] (if
    the connection failed) and [close]. *)
Definition step (o : Oracle) (e : Event) (st : State) : option State :=
  match e with
  | Connect => Some (exec connectToJarvis o st)
  | TimerFires t =>
      match timers (browser st) !! t with
      | Some tm =>
          Some (exec (clearTimeout (Some t) ;; run_callback (callback tm)) o st)
      | None => None
      end
  | SocketOpens s =>
      if is_state CONNECTING (ready st s)
      then Some (exec (socket_becomes s OPEN ;; onopen) o st)
      else None
  | SocketReceives s data =>
      if is_state OPEN (ready st s)
      then Some (exec (onmessage data) o st)
      else None
  | SocketStartsClosing s =>
      if is_state OPEN (ready st s)
      then Some (exec (socket_becomes s CLOSING) o st)
      else None
  | SocketCloses s wasClean failed =>
      match ready st s with
      | Some CLOSED | None => None
      | Some _ =>
          Some (exec (socket_becomes s CLOSED ;;
                      (if failed then onerror else ret tt) ;;
                      onclose wasClean) o st)
      end
  | Types t => Some (exec (setUserText t) o st)
  | Sends => Some (exec sendTextMessage o st)
  | TogglesMic => Some (exec toggleMicrophone o st)
  | Clears => Some (exec clearConversation o st)
  end.

Fixpoint run (trace : list (Oracle * Event)) (st : State) : option State :=
  match trace with
  | [] => Some st
  | (o, e) :: rest =>
      match step o e st with
      | Some st' => run rest st'
      | None => None
      end
  end.

Definition reachable (st : State) : Prop :=
  exists trace, run trace mounted = Some st.

(** ** Observations used in the statements *)

(** The connection is open: [wsRef] names a socket in state OPEN. *)
Definition connection_open (st : State) : bool :=
  match wsRef (refs st) with
  | Some s => is_state OPEN (ready st s)
  | None => false
  end.

(** The frames handed so far to socket [s]. *)
Definition sent_on (st : State) (s : nat) : list Frame :=
  default [] (sent <$> sockets (browser st) !! s).

(** A socket is live while it is connecting or open. *)
Definition live (st : State) (s : nat) : bool :=
  is_state CONNECTING (ready st s) || is_state OPEN (ready st s).

(** The inbound messages of a list, handled in order. *)
Fixpoint receive (msgs : list (Oracle * Inbound)) (st : State) : State :=
  match msgs with
  | [] => st
  | (o, d) :: rest => receive rest (exec (handleJarvisMessage d) o st)
  end.

(** A list of text chunks as the [assistant_stream] events carrying them. *)
Definition streams (chunks : list (Oracle * jsstring))
    : list (Oracle * Inbound) :=
  map (fun c => (fst c, assistant_stream (snd c))) chunks.

(** The intensity read after each event of a sequence of [mode_change]
    events. *)
Fixpoint intensities_after (evs : list (Oracle * jsstring * option Q))
    (st : State) : list Q :=
  match evs with
  | [] => []
  | (o, m, i) :: rest =>
      let st' := exec (handleJarvisMessage (mode_change m i)) o st in
      intensity (cells st') :: intensities_after rest st'
  end.

(** The default intensity of a mode as the specification lists it: the
    payload intensity for speaking whenever the payload has one. *)
Definition listed_default (m : jsstring) (i : option Q) : Q :=
  if bool_decide (m = js "idle") then 0.5%Q
  else if bool_decide (m = js "listening") then 0.3%Q
  else if bool_decide (m = js "speaking") then
    match i with Some q => q | None => 0.8%Q end
  else 0.5%Q.

(** The default intensity the component applies: for speaking, a payload
    intensity of zero counts as absent. *)
Definition applied_default (m : jsstring) (i : option Q) : Q :=
  if bool_decide (m = js "idle") then 0.5%Q
  else if bool_decide (m = js "listening") then 0.3%Q
  else if bool_decide (m = js "speaking") then
    match i with
    | Some q => if Qeq_bool q 0 then 0.8%Q else q
    | None => 0.8%Q
    end
  else 0.5%Q.

(** The calls the monitor receives on a [mode_change] to [m]. *)
Definition monitor_policy (m : jsstring) (enabled : bool) : list MonitorCall :=
  if bool_decide (m = js "listening") || bool_decide (m = js "idle")
  then (if enabled then [call_startListening] else [])
  else [call_stopListening].

(** The most recent entry of a conversation with role user. *)
Fixpoint last_user_message (h : list ConversationMessage)
    : option ConversationMessage :=
  match h with
  | [] => None
  | m :: h' =>
      match last_user_message h' with
      | Some m' => Some m'
      | None => match role m with user => Some m | assistant => None end
      end
  end.

(** The suppression test as the specification words it: against the
    preceding user message of the conversation. *)
Definition duplicates_preceding_user_message
    (st : State) (t : jsstring) (clock : Z) : bool :=
  match last_user_message (conversationHistory (cells st)) with
  | Some m => bool_decide (text m = t) && (clock - timestamp m <? 2000)
  | None => false
  end.

(** The entry [addToConversation] appends. *)
Definition entry (r : Role) (t : jsstring) (clock : Z) : ConversationMessage :=
  {| role := r; text := t; timestamp := clock; id := (r, t, clock) |}.

(** An oracle that only fixes the clock. *)
Definition at_time (clock : Z) : Oracle :=
  {| now := clock; micGranted := true; constructorThrows := false |}.

(** The backend is down: the mount call of [connectToJarvis], then [n]
    rounds in which the connection under way fails and the reconnect
    timer it armed fires.  Round [k] concerns socket [k] and timer [k]. *)
Fixpoint failed_rounds (n k : nat) : list (Oracle * Event) :=
  match n with
  | O => []
  | S n' =>
      (at_time 0, SocketCloses k false true) ::
      (at_time 0, TimerFires k) :: failed_rounds n' (S k)
  end.

Definition server_down (n : nat) : list (Oracle * Event) :=
  (at_time 0, Connect) :: failed_rounds n 0.

(** The WebSocket constructor throws at every call of [connectToJarvis]:
    the mount call, then [n] rounds in which the timer armed by the
    [catch] fires.  Round [k] concerns timer [k]. *)
Definition throwing : Oracle :=
  {| now := 0; micGranted := true; constructorThrows := true |}.

Fixpoint thrown_rounds (n k : nat) : list (Oracle * Event) :=
  match n with
  | O => []
  | S n' => (throwing, TimerFires k) :: thrown_rounds n' (S k)
  end.

Definition constructor_throws (n : nat) : list (Oracle * Event) :=
  (throwing, Connect) :: thrown_rounds n 0.

(** The reconnections the console reports as scheduled after an unclean
    close, in order: delay and attempt number. *)
Fixpoint scheduled (lines : list ConsoleLine) : list (Q * nat) :=
  match lines with
  | [] => []
  | log_reconnect_scheduled d a :: rest => (d, a) :: scheduled rest
  | _ :: rest => scheduled rest
  end.

(** The state a trace leads to from the mounted component ([mounted]
    itself for a trace the browser cannot produce). *)
Definition after (trace : list (Oracle * Event)) : State :=
  default mounted (run trace mounted).

(** The connection opens. *)
Definition connection_opened : list (Oracle * Event) :=
  [ (at_time 0, Connect); (at_time 0, SocketOpens 0) ].

(** The connection opens and the backend reports the user text "hi". *)
Definition chat_with_one_user_entry : list (Oracle * Event) :=
  connection_opened ++
  [ (at_time 0, SocketReceives 0 (Some (user_text (js "hi")))) ].

(** The connection opens and the user types "  hi " in the input field. *)
Definition typed_hi : list (Oracle * Event) :=
  connection_opened ++ [ (at_time 0, Types (js "  hi ")) ].

(** The console reports that reconnection was given up. *)
Definition gave_up (lines : list ConsoleLine) : bool :=
  existsb (fun l => match l with error_max_attempts => true | _ => false end)
          lines.

(** The state in which round [k] of [server_down] starts: connection [k]
    is under way, no reconnection is recorded, and the console reports one
    reconnection per earlier round, each after 10000 ms as attempt 1. *)
Definition awaiting_round (k : nat) (st : State) : Prop :=
  wsRef (refs st) = Some k /\
  ready st k = Some CONNECTING /\
  reconnectTimeoutRef (refs st) = None /\
  nextSocket (browser st) = S k /\
  nextTimer (browser st) = k /\
  scheduled (console (browser st)) = repeat (10000%Q, 1%nat) k /\
  gave_up (console (browser st)) = false.

(** The state in which round [k] of [constructor_throws] starts: no
    socket was constructed, and timer [k] is armed for the reconnection
    recorded as attempt 1, after 5000 ms. *)
Definition awaiting_retry (k : nat) (st : State) : Prop :=
  wsRef (refs st) = None /\
  isConnectingRef (refs st) = false /\
  reconnectTimeoutRef (refs st) = Some {| attempt := 1; timeout := Some k |} /\
  timers (browser st) !! k
    = Some {| delay := 5000; callback := run_connectToJarvis |} /\
  nextSocket (browser st) = 0%nat /\
  nextTimer (browser st) = S k /\
  gave_up (console (browser st)) = false.

(** A connection attempt is in flight: the first guard of
    [connectToJarvis]. *)
Definition in_flight (st : State) : bool :=
  isConnectingRef (refs st) ||
  match wsRef (refs st) with
  | Some s => is_state CONNECTING (ready st s)
  | None => false
  end.

(** The pending timers once the timer of the recorded reconnection, if
    any, is cleared. *)
Definition timers_without_reconnect (st : State) : gmap nat Timer :=
  match reconnectTimeoutRef (refs st) with
  | Some {| timeout := Some t |} => delete t (timers (browser st))
  | _ => timers (browser st)
  end.

(** Only the socket [wsRef] names can be live, and socket handles are
    below the next handle. *)
Definition single_session (st : State) : Prop :=
  (forall s, live st s = true -> wsRef (refs st) = Some s) /\
  (forall s, is_Some (sockets (browser st) !! s) ->
             (s < nextSocket (browser st))%nat).

(** [lastTextInputRef] describes the latest entry of the conversation. *)
Definition tracks_latest_entry (st : State) : Prop :=
  match last (conversationHistory (cells st)) with
  | Some m =>
      lastTextInputRef (refs st)
        = Some {| last_text := text m; last_timestamp := timestamp m |}
  | None => True
  end.

(** A callback keeps an invariant of the state. *)
Definition preserves (Inv : State -> Prop) {A} (m : M A) : Prop :=
  forall o st, Inv st -> Inv (snd (m o st)).

(** ** The rest of the component *)

(** The callback [JarvisInterface] hands to [useAudioAnalyzer].  It is a
    closure of one render: [m] is the [mode] of that render, while the
    updater passed to [setIntensity] reads the current intensity. *)
Definition onAudioLevel (m : jsstring) (level : Q) : M unit :=
  if bool_decide (m = js "listening") || bool_decide (m = js "idle") then
    prevIntensity <- read (fun st => intensity (cells st)) ;;
    let newIntensity := Qmax 0.1 (level * 1.5)%Q in
    (* Only update if the change is significant *)
    if negb (Qle_bool (Qabs (newIntensity - prevIntensity)) 0.01)
    then setIntensity newIntensity
    else setIntensity prevIntensity
  else ret tt.

(** A frame the component may put on the wire: a microphone announcement,
    or a text that is neither empty nor padded with white space. *)
Definition proper_frame (f : Frame) : bool :=
  match f with
  | JSON_stringify (text_input t) => truthy t && bool_decide (trim t = t)
  | JSON_stringify _ => true
  end.

Definition proper_frames (st : State) : Prop :=
  forall s sock, sockets (browser st) !! s = Some sock ->
                 forallb proper_frame (sent sock) = true.

(** A socket the browser has not closed yet. *)
Definition not_closed (st : State) (s : nat) : bool :=
  match ready st s with
  | Some CLOSED | None => false
  | Some _ => true
  end.

(** Timer [t] is pending and will call [connectToJarvis]. *)
Definition pending_reconnect (st : State) (t : nat) : bool :=
  match timers (browser st) !! t with
  | Some {| callback := run_connectToJarvis |} => true
  | _ => false
  end.

(** Events that neither call [connectToJarvis] nor end a connection
    uncleanly. *)
Definition quiet (e : Event) : bool :=
  match e with
  | Connect => false
  | SocketCloses _ wasClean _ => wasClean
  | _ => true
  end.

(** No reconnection is pending, over a given set of sockets. *)
Definition at_rest (n : nat) (st : State) : Prop :=
  nextSocket (browser st) = n /\
  forall t, pending_reconnect st t = false.

(** The connection opened and was then closed cleanly. *)
Definition closed_cleanly : list (Oracle * Event) :=
  connection_opened ++ [ (at_time 1, SocketCloses 0 true false) ].

(** After the clean close the announcement timer fires, and the user
    types, sends and presses the microphone button. *)
Definition busy_while_closed : list (Oracle * Event) :=
  [ (at_time 200, TimerFires 0); (at_time 300, Types (js "hello"));
    (at_time 400, Sends); (at_time 500, TogglesMic) ].

(** *** Executions in which only the component calls [connectToJarvis] *)

(** The ready state of the socket [wsRef] names. *)
Definition current_ready (st : State) : option ReadyState :=
  match wsRef (refs st) with
  | Some s => ready st s
  | None => None
  end.

(** A socket that exists and is not closed. *)
Definition unfinished (r : option ReadyState) : bool :=
  match r with
  | Some CLOSED | None => false
  | Some _ => true
  end.

(** The connection state is orderly: the only socket not yet closed is the
    current one; a pending reconnection timer is the recorded one, counted
    as attempt 1, and none is pending while the current socket is not
    closed, when the recorded attempt is 0; the connected flag is up only
    while the current socket is open or closing, the in-flight flag only
    while it is connecting.  Stated on what the state shows: ready states
    [rd], [wsRef], pending reconnection timers [pend], the record and the
    two flags. *)
Definition orderly_obs (rd : nat -> option ReadyState) (ws : option nat)
    (pend : nat -> bool) (rec : option Reconnect) (conn cing : bool) : Prop :=
  let cur := match ws with Some s => rd s | None => None end in
  (forall s, unfinished (rd s) = true -> ws = Some s) /\
  (forall t, pend t = true ->
             rec = Some {| attempt := 1; timeout := Some t |}) /\
  (unfinished cur = true ->
   attempt_or_0 rec = 0%nat /\ forall t, pend t = false) /\
  (attempt_or_0 rec <= 1)%nat /\
  (conn = true -> is_state OPEN cur || is_state CLOSING cur = true) /\
  (cing = true -> is_state CONNECTING cur = true).

Definition orderly (st : State) : Prop :=
  orderly_obs (ready st) (wsRef (refs st)) (pending_reconnect st)
    (reconnectTimeoutRef (refs st)) (isConnected (cells st))
    (isConnectingRef (refs st)).

(** The state shows the same connection as [st0]. *)
Definition same_connection (st0 st : State) : Prop :=
  (forall s, ready st s = ready st0 s) /\
  wsRef (refs st) = wsRef (refs st0) /\
  timers (browser st) = timers (browser st0) /\
  reconnectTimeoutRef (refs st) = reconnectTimeoutRef (refs st0) /\
  isConnected (cells st) = isConnected (cells st0) /\
  isConnectingRef (refs st) = isConnectingRef (refs st0).

(** A call of [connectToJarvis] from outside the component's own timers. *)
Definition external_call (e : Event) : bool :=
  match e with
  | Connect => true
  | _ => false
  end.

Definition own_reconnections (trace : list (Oracle * Event)) : bool :=
  forallb (fun oe => negb (external_call (snd oe))) trace.

(** After the mount call: the connection opens, is lost, and the
    reconnection timer (timer 1; timer 0 announces the microphone) fires. *)
Definition lost_and_retried : list (Oracle * Event) :=
  [ (at_time 0, SocketOpens 0); (at_time 1, SocketCloses 0 false true);
    (at_time 2, TimerFires 1) ].

(** After the mount call the connection opens. *)
Definition then_opened : list (Oracle * Event) :=
  [ (at_time 0, SocketOpens 0) ].

(** *** Unmounting *)

(** [ws.close(1000, reason)]: a socket that is connecting or open starts
    closing; on a socket that is closing or closed the call does nothing.
    With this code and reason the call does not throw. *)
Definition socket_close (s : nat) : M unit :=
  on_browser (fun b =>
  {| sockets := alter (fun sock =>
                  {| readyState := match readyState sock with
                                   | CONNECTING | OPEN => CLOSING
                                   | r => r
                                   end;
                     sent := sent sock |}) s (sockets b);
     nextSocket := nextSocket b; timers := timers b;
     nextTimer := nextTimer b; console := console b;
     monitorCalls := monitorCalls b |}).

(** The cleanup the mount effect returns.  It also sets the [onclose]
    handler of the current socket to [null]; handlers are not part of the
    state, the socket concerned is the one [wsRef] held when the cleanup
    started (see [step_unmounted]). *)
Definition unmount : M unit :=
  (* Clear reconnection timeout *)
  r <- read (fun st => reconnectTimeoutRef (refs st)) ;;
  match r with
  | Some rc => clearTimeout (timeout rc) ;; set_reconnectTimeoutRef None
  | None => ret tt
  end ;;
  (* Close WebSocket connection cleanly *)
  ws <- read (fun st => wsRef (refs st)) ;;
  match ws with
  | Some s => socket_close s ;; set_wsRef None
  | None => ret tt
  end ;;
  stopListening ;;
  set_isConnectingRef false.

(** One event after the cleanup, [detached] being the socket whose
    [onclose] was removed.  The user interface is gone, so only timers and
    sockets produce events; when the detached socket closes, [onerror] may
    still run but [onclose] does not.  Every other socket keeps its
    handlers. *)
Definition step_unmounted (detached : option nat) (o : Oracle) (e : Event)
    (st : State) : option State :=
  match e with
  | SocketCloses s wasClean failed =>
      if bool_decide (detached = Some s) then
        match ready st s with
        | Some CLOSED | None => None
        | Some _ =>
            Some (exec (socket_becomes s CLOSED ;;
                        (if failed then onerror else ret tt)) o st)
        end
      else step o e st
  | TimerFires _ | SocketOpens _ | SocketReceives _ _
  | SocketStartsClosing _ => step o e st
  | Connect | Types _ | Sends | TogglesMic | Clears => None
  end.

Fixpoint run_unmounted (detached : option nat)
    (trace : list (Oracle * Event)) (st : State) : option State :=
  match trace with
  | [] => Some st
  | (o, e) :: rest =>
      match step_unmounted detached o e st with
      | Some st' => run_unmounted detached rest st'
      | None => None
      end
  end.

(** The component is torn down: no reconnection is pending, no socket is
    referenced, connecting or open, only the detached socket may still be
    closing, and sockets and frames sent are those of [st0]. *)
Definition torn_down (detached : option nat) (st0 st : State) : Prop :=
  nextSocket (browser st) = nextSocket (browser st0) /\
  (forall t, pending_reconnect st t = false) /\
  wsRef (refs st) = None /\
  (forall s, live st s = false) /\
  (forall s, unfinished (ready st s) = true -> detached = Some s) /\
  (forall s, sent_on st s = sent_on st0 s).

(** After the mount call the connection opens and the announcement timer
    fires; then, after the cleanup, the detached socket closes. *)
Definition opened_and_announced : list (Oracle * Event) :=
  [ (at_time 0, SocketOpens 0); (at_time 100, TimerFires 0) ].

Definition closes_after_unmount : list (Oracle * Event) :=
  [ (at_time 300, SocketCloses 0 true false) ].

(** *** useAudioAnalyzer: one animation frame *)

(** [dataArray.reduce((sum, value) => sum + value, 0) / dataArray.length]. *)
Definition average (data : list Z) : Q :=
  (inject_Z (fold_left (fun sum value => (sum + value)%Z) data 0%Z)
   / inject_Z (Z.of_nat (length data)))%Q.

(** [Math.min(average / 128, 1)]. *)
Definition normalizedLevel (data : list Z) : Q :=
  Qmin (average data / 128) 1.

(** [analyzeAudio] once the analyser exists (without it the function
    returns at once): [data] is what [getByteFrequencyData] wrote, [m] the
    mode of the render whose callback the hook holds.  The request for the
    next animation frame is outside the state modelled here. *)
Definition analyzeAudio (m : jsstring) (data : list Z) : M unit :=
  let level := normalizedLevel data in
  on_monitor (fun mo =>
    {| isListening := isListening mo; audioLevel := level |}) ;;
  onAudioLevel m level.

(** *** ChatPanel *)

(** What the messages area shows below the history. *)
Inductive Bubble :=
| message_item (message : ConversationMessage)
| loading_dots
| streaming_bubble (text : jsstring).

(** The messages area: [None] is the placeholder shown while the history
    is empty. *)
Definition messages_area (st : State) : option (list Bubble) :=
  match conversationHistory (cells st) with
  | [] => None
  | history =>
      Some (map message_item history ++
            (if isWaitingForResponse (cells st)
                && negb (truthy (currentResponse (cells st)))
             then [loading_dots] else []) ++
            (if truthy (currentResponse (cells st))
             then [streaming_bubble (currentResponse (cells st))] else []))
  end.

(** [disabled={!userText.trim() || !isConnected}] of the send button. *)
Definition send_disabled (st : State) : bool :=
  negb (truthy (trim (userText (cells st)))) || negb (isConnected (cells st)).

(** [onKeyPress] of the text area. *)
Definition onKeyPress (key : jsstring) (shiftKey : bool) : M unit :=
  if bool_decide (key = js "Enter") && negb shiftKey
  then sendTextMessage
  else ret tt.

(** [onClick] of the send button: a disabled button gets no click. *)
Definition onClick_send : M unit :=
  disabled <- read send_disabled ;;
  if disabled then ret tt else sendTextMessage.

(** *** GlassyBlob *)

Definition dynamicSpeed (mode : jsstring) (speed : option Q) : Q :=
  match speed with
  | Some v => v
  | None => if bool_decide (mode = js "speaking") then 0.055
            else if bool_decide (mode = js "listening") then 0.008
            else 0.012
  end%Q.

Definition dynamicAmpBase (mode : jsstring) (ampBase : option Q) : Q :=
  match ampBase with
  | Some v => v
  | None => if bool_decide (mode = js "listening") then 0.22
            else if bool_decide (mode = js "speaking") then 0.18
            else 0.12
  end%Q.

Definition dynamicAmpVar (mode : jsstring) (ampVar : option Q) : Q :=
  match ampVar with
  | Some v => v
  | None => if bool_decide (mode = js "listening") then 0.32
            else if bool_decide (mode = js "speaking") then 0.28
            else 0.18
  end%Q.

(** The distance from the centre [useFrame] gives a vertex:
    [1.2 * (1 + (ampBase + ampVar * noise) * intensity)]. *)
Definition radius (ampBase ampVar noise intensity : Q) : Q :=
  (1.2 * (1 + (ampBase + ampVar * noise) * intensity))%Q.

(** The radius [GlassyBlob] draws in a mode, without overrides. *)
Definition blob_radius (mode : jsstring) (noise intensity : Q) : Q :=
  radius (dynamicAmpBase mode None) (dynamicAmpVar mode None) noise intensity.

(** The user types "hi" while an answer is being streamed. *)
Definition typed_during_stream : list (Oracle * Event) :=
  connection_opened ++
  [ (at_time 1, SocketReceives 0 (Some (assistant_stream (js "Hel"))));
    (at_time 2, Types (js "hi")) ].

(** *** The duplicate test over executions *)

(** The entry a step from [st] to [st'] appended, if any: the conversation
    grew by one entry, the new last one. *)
Definition appended (st st' : State) : option ConversationMessage :=
  if (length (conversationHistory (cells st'))
      =? S (length (conversationHistory (cells st))))%nat
  then last (conversationHistory (cells st'))
  else None.

(** The entry appended most recently in an execution from [st], [acc]
    being the one appended most recently before it. *)
Fixpoint latest_append_from (st : State) (trace : list (Oracle * Event))
    (acc : option ConversationMessage) : option ConversationMessage :=
  match trace with
  | [] => acc
  | (o, e) :: rest =>
      match step o e st with
      | Some st' =>
          latest_append_from st' rest
            (match appended st st' with Some m => Some m | None => acc end)
      | None => acc
      end
  end.

(** The entry appended most recently since the mount. *)
Definition latest_append (trace : list (Oracle * Event))
    : option ConversationMessage :=
  latest_append_from mounted trace None.

(** Nothing is appended in an execution from [st]. *)
Definition nothing_appended (st : State) (trace : list (Oracle * Event))
    : Prop :=
  latest_append_from st trace None = None.

(** The suppression test worded on the entry appended most recently: the
    same text, less than 2000 ms after the append; with no append so far
    nothing is a duplicate. *)
Definition duplicates_latest_append (latest : option ConversationMessage)
    (t : jsstring) (clock : Z) : bool :=
  match latest with
  | Some m => bool_decide (text m = t) && (clock - timestamp m <? 2000)
  | None => false
  end.

(** What [lastTextInputRef] keeps of an entry. *)
Definition stamp_of (m : ConversationMessage) : LastTextInput :=
  {| last_text := text m; last_timestamp := timestamp m |}.

(** [lastTextInputRef] describes the entry [acc] appended most recently,
    which is the latest entry of the conversation unless that is empty. *)
Definition logged (acc : option ConversationMessage) (st : State) : Prop :=
  lastTextInputRef (refs st) = stamp_of <$> acc /\
  (forall m, last (conversationHistory (cells st)) = Some m -> acc = Some m).

(** The conversation and [lastTextInputRef] are those of [st0]. *)
Definition same_log (st0 st : State) : Prop :=
  conversationHistory (cells st) = conversationHistory (cells st0) /\
  lastTextInputRef (refs st) = lastTextInputRef (refs st0).

(** The user text "hi" arrives and the conversation is cleared. *)
Definition cleared_after_hi : list (Oracle * Event) :=
  chat_with_one_user_entry ++ [ (at_time 100, Clears) ].

(** Events that append nothing: the microphone button, an unknown
    message. *)
Definition idle_chatter : list (Oracle * Event) :=
  [ (at_time 20, TogglesMic);
    (at_time 30, SocketReceives 0 (Some (unknown_type (js "ping")))) ].

(** *** The reconnection record while a socket is connecting or open *)

(** While the current socket is connecting no reconnection is recorded;
    while it is open the connected flag is up and the record is the one
    [onopen] wrote. *)
Definition settled (st : State) : Prop :=
  (current_ready st = Some CONNECTING ->
   reconnectTimeoutRef (refs st) = None) /\
  (current_ready st = Some OPEN ->
   isConnected (cells st) = true /\
   reconnectTimeoutRef (refs st) = Some {| attempt := 0; timeout := None |}).

(** ** Proof support *)

Ltac unfold_callbacks :=
  unfold exec, eval, handleJarvisMessage, addToConversation,
    sendWebSocketMessage, sendTextMessage, toggleMicrophone,
    clearConversation, onopen, onclose, onerror, onmessage, announceMic,
    connectToJarvis, scheduleReconnect, startListening, stopListening,
    run_callback,
    setMode, setIntensity, setUserText, setAssistantText, setIsConnected,
    setConversationHistory, setCurrentResponse, setMicEnabled,
    setIsWaitingForResponse, set_wsRef, set_responseRef,
    set_lastTextInputRef, set_reconnectTimeoutRef, set_isConnectingRef,
    new_WebSocket, setTimeout, clearTimeout, socket_send, socket_becomes,
    socket_readyState, console_write, monitor_called,
    on_browser, on_cells, on_refs, on_monitor, read, ask, ret, bind.

(** Split on the first test that blocks evaluation. *)
Ltac split_test :=
  match goal with
  | |- context [match (if ?b then _ else _) with _ => _ end] =>
      destruct b eqn:?
  | |- context [if ?b then _ else _] =>
      lazymatch b with
      | context [if _ then _ else _] => fail
      | _ => destruct b eqn:?
      end
  end.

Ltac by_cases := unfold_callbacks; cbn; repeat (split_test; cbn).

(** Evaluate callbacks on a state whose fields are named, leaving map and
    list operations on those fields as they are. *)
Ltac evaluate :=
  cbv [exec eval bind ret read ask on_cells on_refs on_monitor on_browser
       step run_callback ready is_state attempt_or_0 maxReconnectAttempts
       connectToJarvis scheduleReconnect announceMic onopen onmessage
       onclose onerror handleJarvisMessage addToConversation
       sendWebSocketMessage sendTextMessage toggleMicrophone
       clearConversation startListening stopListening
       setMode setIntensity setUserText setAssistantText setIsConnected
       setConversationHistory setCurrentResponse setMicEnabled
       setIsWaitingForResponse set_wsRef set_responseRef
       set_lastTextInputRef set_reconnectTimeoutRef set_isConnectingRef
       new_WebSocket setTimeout clearTimeout socket_send socket_becomes
       socket_readyState console_write monitor_called
       cells refs monitor browser
       mode intensity userText assistantText isConnected
       conversationHistory currentResponse micEnabled isWaitingForResponse
       micEnabledRef wsRef responseRef lastTextInputRef reconnectTimeoutRef
       isConnectingRef isListening audioLevel
       sockets nextSocket timers nextTimer console monitorCalls
       readyState sent delay callback attempt timeout
       now micGranted constructorThrows at_time throwing
       negb orb andb fst snd Nat.leb Nat.ltb] in *.

Ltac name_fields st :=
  destruct st as [[] [] [] []];
  cbn [cells refs monitor browser
       mode intensity userText assistantText isConnected
       conversationHistory currentResponse micEnabled isWaitingForResponse
       micEnabledRef wsRef responseRef lastTextInputRef reconnectTimeoutRef
       isConnectingRef isListening audioLevel
       sockets nextSocket timers nextTimer console monitorCalls] in *.

(** ** The definitions on sample inputs *)

Example trim_sample : trim (js "  hi there ") = js "hi there".
Proof. reflexivity. Qed.

Example trim_blank : truthy (trim (js "   ")) = false.
Proof. reflexivity. Qed.

Example backoff_samples :
  (backoff 10000 120000 0 == 10000 /\ backoff 10000 120000 1 == 15000 /\
   backoff 10000 120000 6 == 113906.25 /\ backoff 10000 120000 7 == 120000 /\
   backoff 5000 60000 0 == 5000 /\ backoff 5000 60000 7 == 60000)%Q.
Proof. repeat apply conj; vm_compute; reflexivity. Qed.

Example mount_then_open :
  (fun st => (isConnected (cells st), wsRef (refs st), ready st 0,
              reconnectTimeoutRef (refs st)))
    <$> run connection_opened mounted
  = Some (true, Some 0%nat, Some OPEN,
          Some {| attempt := 0; timeout := None |}).
Proof. vm_compute. reflexivity. Qed.

(** ** Sending *)

Section Sending.
Variables (o : Oracle) (st : State) (message : Outbound).

Local Abbreviation st' := (exec (sendWebSocketMessage message) o st).

Lemma send_refused_result :
  connection_open st = false ->
  eval (sendWebSocketMessage message) o st = false /\
  st' = exec (console_write (warn_not_ready message)) o st.
Proof.
  unfold connection_open, ready. unfold_callbacks.
  destruct (wsRef (refs st)) as [s|]; cbn; [|tauto].
  destruct (sockets (browser st) !! s) as [sock|]; cbn; [|tauto].
  destruct (readyState sock); cbn; intros; try discriminate; tauto.
Qed.

Lemma send_accepted_result :
  connection_open st = true ->
  exists s, wsRef (refs st) = Some s /\
    eval (sendWebSocketMessage message) o st = true /\
    st' = exec (socket_send s (JSON_stringify message)) o st.
Proof.
  unfold connection_open, ready. unfold_callbacks.
  destruct (wsRef (refs st)) as [s|]; cbn; [|discriminate].
  destruct (sockets (browser st) !! s) as [sock|]; cbn; [|discriminate].
  destruct (readyState sock); cbn; intros; try discriminate.
  exists s. tauto.
Qed.

(** C9.  [sendWebSocketMessage] is a total function to a boolean, so no
    call of it raises.  While the connection is not open it returns
    [false], writes one warning to the console, and hands no frame to any
    socket: apart from the console the state is the one before.  While
    the connection is open it returns [true] and hands the serialized
    message to the current socket, and to no other. *)
Theorem send_only_while_open :
  if connection_open st then
    eval (sendWebSocketMessage message) o st = true /\
    (forall s, sent_on st' s =
       if bool_decide (wsRef (refs st) = Some s)
       then sent_on st s ++ [JSON_stringify message]
       else sent_on st s) /\
    console (browser st') = console (browser st)
  else
    eval (sendWebSocketMessage message) o st = false /\
    console (browser st') = console (browser st) ++ [warn_not_ready message] /\
    sockets (browser st') = sockets (browser st) /\
    timers (browser st') = timers (browser st) /\
    cells st' = cells st /\ refs st' = refs st /\ monitor st' = monitor st.
Proof.
  destruct (connection_open st) eqn:Hopen.
  - destruct (send_accepted_result Hopen) as (s & Hws & Hret & Hst).
    split; [exact Hret|]. rewrite Hst. split; [|reflexivity].
    intros s'. unfold sent_on. unfold_callbacks. cbn. rewrite Hws.
    rewrite lookup_alter. case_bool_decide as Heq.
    + inversion Heq; subst s'. rewrite decide_True by reflexivity.
      unfold connection_open, ready in Hopen. rewrite Hws in Hopen.
      destruct (sockets (browser st) !! s); [reflexivity|discriminate].
    + rewrite decide_False by congruence. reflexivity.
  - destruct (send_refused_result Hopen) as (Hret & Hst).
    rewrite Hst. repeat split; assumption || reflexivity.
Qed.
End Sending.

(** ** Inbound dispatch: audio_level and mode_change *)

(** C3, as amended.  The gate of an [audio_level] event is the [mode]
    field of its own payload: when that field is speaking the intensity
    becomes max(0.3, level * 1.2), whatever the mode of the controller;
    otherwise the intensity keeps its value.  The controller's mode is
    never changed by the event. *)
Theorem audio_level_gated_by_payload_mode o st m l :
  let st' := exec (handleJarvisMessage (audio_level m l)) o st in
  intensity (cells st') =
    (if bool_decide (m = js "speaking")
     then Qmax 0.3 (l * 1.2)%Q
     else intensity (cells st)) /\
  mode (cells st') = mode (cells st).
Proof.
  by_cases; split; reflexivity.
Qed.

(** C3, counterexample.  The connection opens, a [mode_change] puts the
    controller in listening mode with intensity 0.3, and an [audio_level]
    event whose payload says speaking then moves the intensity to 1.08. *)
Lemma audio_level_honoured_while_listening :
  let before :=
    [ (at_time 0, Connect); (at_time 0, SocketOpens 0);
      (at_time 0, SocketReceives 0 (Some (mode_change (js "listening") None))) ] in
  let event :=
    (at_time 0, SocketReceives 0 (Some (audio_level (js "speaking") 0.9%Q))) in
  (fun st => (mode (cells st), intensity (cells st))) <$> run before mounted
    = Some (js "listening", 0.3%Q) /\
  (fun st => (mode (cells st), intensity (cells st)))
    <$> run (before ++ [event]) mounted
    = Some (js "listening", 1.08%Q) /\
  ~ (1.08 == 0.3)%Q.
Proof.
  repeat apply conj; try (vm_compute; reflexivity).
  intros H. vm_compute in H. discriminate.
Qed.

Lemma mode_change_intensity o st m i :
  intensity (cells (exec (handleJarvisMessage (mode_change m i)) o st))
    = applied_default m i.
Proof.
  unfold applied_default, intensity_or_default. unfold_callbacks. cbn.
  repeat case_bool_decide; subst; try discriminate;
    destruct (micEnabled (cells st)), (micGranted o); reflexivity.
Qed.

(** C6, as amended.  Along any sequence of [mode_change] events the
    intensity read after each event is the default of that event's mode:
    0.5 for idle, 0.3 for listening, for speaking the payload intensity
    when the payload has a non-zero one and 0.8 when it has none or a zero
    one, and 0.5 for any other mode.  Each event stores its mode; on
    listening or idle the monitor is started exactly when the microphone
    is enabled by the user, on speaking or any other mode it is
    stopped. *)
Theorem mode_change_defaults :
  (forall evs st,
     intensities_after evs st
       = map (fun e => applied_default (snd (fst e)) (snd e)) evs) /\
  (forall o st m i,
     let st' := exec (handleJarvisMessage (mode_change m i)) o st in
     mode (cells st') = m /\
     monitorCalls (browser st')
       = monitorCalls (browser st) ++ monitor_policy m (micEnabled (cells st))).
Proof.
  split.
  - induction evs as [|[[o m] i] evs IH]; intros st; cbn [intensities_after map].
    + reflexivity.
    + rewrite mode_change_intensity, IH. reflexivity.
  - intros o st m i. unfold monitor_policy.
    unfold_callbacks. cbn.
    repeat case_bool_decide; subst; try discriminate;
      destruct (micEnabled (cells st)), (micGranted o); cbn;
      rewrite ?app_nil_r; split; reflexivity.
Qed.

(** C6, counterexample.  A [mode_change] to speaking whose payload carries
    the intensity 0 leaves the intensity at 0.8, where the listed default
    is the payload's 0. *)
Lemma mode_change_speaking_zero_intensity :
  let st' := exec (handleJarvisMessage (mode_change (js "speaking") (Some 0%Q)))
                  (at_time 0) mounted in
  intensity (cells st') = 0.8%Q /\
  listed_default (js "speaking") (Some 0%Q) = 0%Q /\
  ~ (intensity (cells st') == listed_default (js "speaking") (Some 0%Q))%Q.
Proof.
  repeat apply conj; try (vm_compute; reflexivity).
  intros H. vm_compute in H. discriminate.
Qed.

(** ** Inbound dispatch: streamed responses *)

Section Streaming.

Lemma stream_buffer chunks : forall st,
  responseRef (refs (receive (streams chunks) st))
    = responseRef (refs st) ++ concat (map snd chunks) /\
  conversationHistory (cells (receive (streams chunks) st))
    = conversationHistory (cells st).
Proof.
  induction chunks as [|[o t] chunks IH]; intros st.
  - cbn. rewrite app_nil_r. tauto.
  - change (receive (streams ((o, t) :: chunks)) st)
      with (receive (streams chunks)
              (exec (handleJarvisMessage (assistant_stream t)) o st)).
    destruct (IH (exec (handleJarvisMessage (assistant_stream t)) o st))
      as [Hbuf Hconv].
    rewrite Hbuf, Hconv. cbn. rewrite <- app_assoc. tauto.
Qed.

Lemma stream_shown chunks : forall st o t,
  let st' := receive (streams ((o, t) :: chunks)) st in
  currentResponse (cells st') = responseRef (refs st') /\
  isWaitingForResponse (cells st') = false.
Proof.
  induction chunks as [|[o' t'] chunks IH]; intros st o t.
  - cbn. tauto.
  - exact (IH (exec (handleJarvisMessage (assistant_stream t)) o st) o' t').
Qed.

(** C7, as amended.  [assistant_stream] events append their text to the
    streaming buffer in arrival order, show the buffer, and clear the
    awaiting-response flag, without touching the conversation.  A
    following [assistant_final] appends exactly one assistant entry, whose
    text is the text of the [assistant_final] payload itself (the buffer
    is not consulted), empties the buffer, clears the flag, and resets
    the mode to idle with intensity 0.5. *)
Theorem stream_then_final st o t chunks o' final :
  let streamed := receive (streams ((o, t) :: chunks)) st in
  let done := exec (handleJarvisMessage (assistant_final final)) o' streamed in
  responseRef (refs streamed)
    = responseRef (refs st) ++ concat (map snd ((o, t) :: chunks)) /\
  currentResponse (cells streamed) = responseRef (refs streamed) /\
  isWaitingForResponse (cells streamed) = false /\
  conversationHistory (cells streamed) = conversationHistory (cells st) /\
  conversationHistory (cells done)
    = conversationHistory (cells st) ++ [entry assistant final (now o')] /\
  responseRef (refs done) = [] /\
  currentResponse (cells done) = [] /\
  isWaitingForResponse (cells done) = false /\
  mode (cells done) = js "idle" /\
  intensity (cells done) = 0.5%Q.
Proof.
  intros streamed done.
  destruct (stream_buffer ((o, t) :: chunks) st) as [Hbuf Hconv].
  destruct (stream_shown chunks st o t) as [Hshown Hwait].
  fold streamed in Hbuf, Hconv, Hshown, Hwait.
  repeat split; try assumption; try reflexivity.
  subst done.
  change (conversationHistory
            (cells (exec (handleJarvisMessage (assistant_final final)) o' streamed)))
    with (conversationHistory (cells streamed) ++ [entry assistant final (now o')]).
  rewrite Hconv. reflexivity.
Qed.

End Streaming.

(** C7, counterexample.  After the chunks "Hel" and "lo" the buffer holds
    "Hello"; an [assistant_final] carrying "Bye" then adds the one entry
    "Bye" to the conversation, not the buffered "Hello". *)
Lemma final_entry_is_not_the_buffer :
  let streamed :=
    receive [ (at_time 0, assistant_stream (js "Hel"));
              (at_time 1, assistant_stream (js "lo")) ] mounted in
  let done := exec (handleJarvisMessage (assistant_final (js "Bye")))
                   (at_time 2) streamed in
  responseRef (refs streamed) = js "Hello" /\
  currentResponse (cells streamed) = js "Hello" /\
  map text (conversationHistory (cells done)) = [js "Bye"] /\
  map text (conversationHistory (cells done))
    <> [responseRef (refs streamed)].
Proof.
  repeat apply conj; try (vm_compute; reflexivity).
  vm_compute. discriminate.
Qed.

(** ** Invariants of executions *)

Section Preservation.
Variable Inv : State -> Prop.

Lemma preserves_ret {A} (a : A) : preserves Inv (ret a).
Proof. intros o st H. exact H. Qed.

Lemma preserves_read {A} (f : State -> A) : preserves Inv (read f).
Proof. intros o st H. exact H. Qed.

Lemma preserves_ask {A} (f : Oracle -> A) : preserves Inv (ask f).
Proof. intros o st H. exact H. Qed.

Lemma preserves_bind {A B} (m : M A) (k : A -> M B) :
  preserves Inv m -> (forall a, preserves Inv (k a)) -> preserves Inv (bind m k).
Proof.
  intros Hm Hk o st H. unfold bind.
  specialize (Hm o st H). destruct (m o st) as [a st1]. exact (Hk a o st1 Hm).
Qed.

Lemma preserves_exec {A} (m : M A) o st :
  preserves Inv m -> Inv st -> Inv (exec m o st).
Proof. intros Hm H. exact (Hm o st H). Qed.

(** An invariant kept by every event holds along every trace. *)
Lemma run_invariant :
  (forall o e st st', step o e st = Some st' -> Inv st -> Inv st') ->
  forall trace st st', run trace st = Some st' -> Inv st -> Inv st'.
Proof.
  intros Hstep. induction trace as [|[o e] trace IH]; intros st st' Hrun H.
  - inversion Hrun; subst. exact H.
  - cbn in Hrun. destruct (step o e st) as [st1|] eqn:E; [|discriminate].
    exact (IH st1 st' Hrun (Hstep o e st st1 E H)).
Qed.
End Preservation.

(** Steps of a proof that a callback keeps an invariant: follow the
    callback's structure, splitting on its tests. *)
Ltac preserve_step :=
  lazymatch goal with
  | |- preserves _ (bind _ _) => apply preserves_bind; [|intros ?]
  | |- preserves _ (ret _) => apply preserves_ret
  | |- preserves _ (read _) => apply preserves_read
  | |- preserves _ (ask _) => apply preserves_ask
  | |- preserves _ (if ?b then _ else _) => destruct b
  | |- preserves _ (match ?x with _ => _ end) => destruct x
  end.

Create HintDb tracks.

Section LatestEntry.

Lemma browser_tracks f : preserves tracks_latest_entry (on_browser f).
Proof. intros o st H. exact H. Qed.

Lemma monitor_tracks f : preserves tracks_latest_entry (on_monitor f).
Proof. intros o st H. exact H. Qed.

Lemma cells_tracks f :
  (forall c, conversationHistory (f c) = conversationHistory c) ->
  preserves tracks_latest_entry (on_cells f).
Proof.
  intros Hf o st H. unfold tracks_latest_entry in *. cbn. rewrite Hf. exact H.
Qed.

Lemma refs_tracks f :
  (forall r, lastTextInputRef (f r) = lastTextInputRef r) ->
  preserves tracks_latest_entry (on_refs f).
Proof.
  intros Hf o st H. unfold tracks_latest_entry in *. cbn. rewrite Hf. exact H.
Qed.

Lemma addToConversation_tracks r t :
  preserves tracks_latest_entry (addToConversation r t).
Proof.
  intros o st _. unfold tracks_latest_entry. cbn.
  rewrite last_snoc. reflexivity.
Qed.

Lemma clearConversation_tracks :
  preserves tracks_latest_entry clearConversation.
Proof. intros o st _. exact I. Qed.

Hint Resolve browser_tracks monitor_tracks addToConversation_tracks
  clearConversation_tracks : tracks.

Ltac tracks_leaf :=
  lazymatch goal with
  | |- preserves _ (on_cells _) => apply cells_tracks; intros ?; reflexivity
  | |- preserves _ (on_refs _) => apply refs_tracks; intros ?; reflexivity
  | |- _ => solve [auto with tracks]
  end.

Ltac tracks := repeat first [preserve_step | tracks_leaf].

Lemma startListening_tracks : preserves tracks_latest_entry startListening.
Proof. unfold startListening, monitor_called, console_write. tracks. Qed.

Lemma stopListening_tracks : preserves tracks_latest_entry stopListening.
Proof. unfold stopListening, monitor_called. tracks. Qed.

Lemma sendWebSocketMessage_tracks m :
  preserves tracks_latest_entry (sendWebSocketMessage m).
Proof.
  unfold sendWebSocketMessage, socket_readyState, socket_send, console_write.
  tracks.
Qed.

Hint Resolve startListening_tracks stopListening_tracks
  sendWebSocketMessage_tracks : tracks.

Lemma handleJarvisMessage_tracks d :
  preserves tracks_latest_entry (handleJarvisMessage d).
Proof.
  destruct d; unfold handleJarvisMessage, console_write,
    setIsWaitingForResponse, setCurrentResponse, setAssistantText, setMode,
    setIntensity, set_responseRef; tracks.
Qed.

Lemma connectToJarvis_tracks : preserves tracks_latest_entry connectToJarvis.
Proof.
  unfold connectToJarvis, scheduleReconnect, new_WebSocket, setTimeout,
    clearTimeout, socket_readyState, console_write, setIsConnected,
    set_wsRef, set_reconnectTimeoutRef, set_isConnectingRef.
  tracks.
Qed.

Lemma step_tracks o e st st' :
  step o e st = Some st' -> tracks_latest_entry st -> tracks_latest_entry st'.
Proof.
  destruct e; cbn [step]; intros Hstep;
    repeat match type of Hstep with
           | (if ?b then _ else _) = _ => destruct b
           | match ?x with _ => _ end = _ => destruct x
           end;
    try discriminate; injection Hstep as <-; apply preserves_exec.
  all: try apply connectToJarvis_tracks.
  all: unfold run_callback, announceMic, onopen, onmessage, onerror, onclose,
    sendTextMessage, toggleMicrophone, scheduleReconnect, setTimeout,
    clearTimeout, socket_becomes, socket_send, socket_readyState,
    console_write, setIsConnected, setUserText, setMicEnabled,
    setIsWaitingForResponse, set_reconnectTimeoutRef, set_isConnectingRef.
  all: repeat first
    [ apply connectToJarvis_tracks | apply handleJarvisMessage_tracks
    | preserve_step | tracks_leaf ].
Qed.

Lemma reachable_tracks st : reachable st -> tracks_latest_entry st.
Proof.
  intros [trace Hrun].
  refine (run_invariant tracks_latest_entry step_tracks trace mounted st Hrun _).
  exact I.
Qed.

End LatestEntry.

(** ** Inbound dispatch: user_text *)

Lemma user_text_result o st t :
  let st' := exec (handleJarvisMessage (user_text t)) o st in
  isWaitingForResponse (cells st') = true /\
  conversationHistory (cells st') =
    if isDuplicate (lastTextInputRef (refs st)) t (now o)
    then conversationHistory (cells st)
    else conversationHistory (cells st) ++ [entry user t (now o)].
Proof.
  unfold_callbacks. cbn.
  destruct (isDuplicate (lastTextInputRef (refs st)) t (now o));
    split; reflexivity.
Qed.

(** C5, counterexample.  First execution: the only entry is an assistant
    message "hello" at time 0; a [user_text] "hello" at time 100 duplicates
    no preceding user message, yet nothing is appended.  Second execution:
    the user message "hi" of time 0 is followed by an assistant message at
    time 500; a [user_text] "hi" at time 1000 duplicates the preceding user
    message within 2000 ms, yet a second "hi" entry is appended. *)
Lemma user_text_not_compared_with_user_messages :
  let first :=
    [ (at_time 0, Connect); (at_time 0, SocketOpens 0);
      (at_time 0, SocketReceives 0 (Some (assistant_final (js "hello")))) ] in
  let second :=
    [ (at_time 0, Connect); (at_time 0, SocketOpens 0);
      (at_time 0, SocketReceives 0 (Some (user_text (js "hi"))));
      (at_time 500, SocketReceives 0 (Some (assistant_final (js "hello")))) ] in
  let roles_and_texts st :=
    map (fun m => (role m, text m)) (conversationHistory (cells st)) in
  ((fun st => duplicates_preceding_user_message st (js "hello") 100)
     <$> run first mounted = Some false /\
   roles_and_texts
     <$> run (first ++ [(at_time 100, SocketReceives 0 (Some (user_text (js "hello"))))])
             mounted
     = Some [(assistant, js "hello")]) /\
  ((fun st => duplicates_preceding_user_message st (js "hi") 1000)
     <$> run second mounted = Some true /\
   roles_and_texts
     <$> run (second ++ [(at_time 1000, SocketReceives 0 (Some (user_text (js "hi"))))])
             mounted
     = Some [(user, js "hi"); (assistant, js "hello"); (user, js "hi")]).
Proof.
  repeat apply conj; vm_compute; reflexivity.
Qed.

(** ** Toggling the microphone *)

Lemma startListening_fulfilled o st : eval startListening o st = fulfilled.
Proof. unfold_callbacks. cbn. destruct (micGranted o); reflexivity. Qed.

(** C4, the code at the failing input.  With the microphone disabled and
    its acquisition refused, the promise of [startListening] is fulfilled
    all the same, and [toggleMicrophone] marks the microphone enabled and,
    on an open connection, sends [enable_mic]; the monitor does not start
    listening, and the [catch] of [toggleMicrophone] is not entered: the
    only error on the console is the one of [startListening]. *)
Theorem toggle_enables_without_microphone st o :
  micEnabled (cells st) = false ->
  micGranted o = false ->
  let st' := exec toggleMicrophone o st in
  eval startListening o st = fulfilled /\
  micEnabled (cells st') = true /\
  micEnabledRef (refs st') = true /\
  isListening (monitor st') = isListening (monitor st) /\
  (if connection_open st then
     forall s, wsRef (refs st) = Some s ->
       sent_on st' s = sent_on st s ++ [JSON_stringify enable_mic]
   else
     console (browser st')
       = console (browser st) ++
         [error_accessing_microphone; warn_not_ready enable_mic]).
Proof.
  intros Hoff Hrefused. split; [apply startListening_fulfilled|].
  unfold connection_open, ready, sent_on.
  destruct o as [clock granted throws]. cbn in Hrefused. subst granted.
  unfold_callbacks. cbn. rewrite Hoff. cbn.
  destruct (wsRef (refs st)) as [s|]; cbn.
  - destruct (sockets (browser st) !! s) as [sock|] eqn:Hsock; cbn.
    + destruct (readyState sock); cbn; repeat split;
        rewrite <- ?app_assoc; try reflexivity.
      intros s' [= <-].
      rewrite lookup_alter, decide_True by reflexivity.
      rewrite Hsock. reflexivity.
    + repeat split. rewrite <- app_assoc. reflexivity.
  - repeat split. rewrite <- app_assoc. reflexivity.
Qed.

Lemma toggle_enables_without_microphone_witness :
  let st := after connection_opened in
  let o := {| now := 5; micGranted := false; constructorThrows := false |} in
  let st' := exec toggleMicrophone o st in
  micEnabled (cells st) = false /\
  micGranted o = false /\
  connection_open st = true /\
  micEnabled (cells st') = true /\
  isListening (monitor st') = isListening (monitor st) /\
  sent_on st' 0 = sent_on st 0 ++ [JSON_stringify enable_mic].
Proof.
  pose (o := {| now := 5; micGranted := false; constructorThrows := false |}).
  assert (H1 : micEnabled (cells (after connection_opened)) = false)
    by (vm_compute; reflexivity).
  assert (H2 : micGranted o = false) by reflexivity.
  assert (H3 : connection_open (after connection_opened) = true)
    by (vm_compute; reflexivity).
  assert (H4 : wsRef (refs (after connection_opened)) = Some 0%nat)
    by (vm_compute; reflexivity).
  destruct (toggle_enables_without_microphone (after connection_opened) o H1 H2)
    as (_ & Hon & _ & Hmon & Hsent).
  rewrite H3 in Hsent.
  split; [exact H1|]. split; [exact H2|]. split; [exact H3|].
  split; [exact Hon|]. split; [exact Hmon|]. exact (Hsent 0%nat H4).
Defined.

(** ** Reconnection *)

Lemma scheduled_app l1 l2 : scheduled (l1 ++ l2) = scheduled l1 ++ scheduled l2.
Proof.
  induction l1 as [|l l1 IH]; [reflexivity|].
  destruct l; cbn; rewrite ?IH; reflexivity.
Qed.

Lemma gave_up_app l1 l2 : gave_up (l1 ++ l2) = gave_up l1 || gave_up l2.
Proof. apply existsb_app. Qed.

Lemma repeat_snoc {A} (x : A) n : repeat x n ++ [x] = x :: repeat x n.
Proof. induction n as [|n IH]; cbn; [reflexivity|]. f_equal. exact IH. Qed.

Lemma backoff_first : backoff 10000 120000 0 = 10000%Q.
Proof. reflexivity. Qed.

(** The connection under way fails: [onerror] runs, then [onclose] arms
    timer [k] with the delay of attempt 0 and records attempt 1. *)
Lemma failed_round_close k st :
  awaiting_round k st ->
  exists st1,
    step (at_time 0) (SocketCloses k false true) st = Some st1 /\
    wsRef (refs st1) = Some k /\
    ready st1 k = Some CLOSED /\
    isConnectingRef (refs st1) = false /\
    reconnectTimeoutRef (refs st1) = Some {| attempt := 1; timeout := Some k |} /\
    timers (browser st1) !! k
      = Some {| delay := 10000; callback := run_connectToJarvis |} /\
    nextSocket (browser st1) = S k /\
    nextTimer (browser st1) = S k /\
    scheduled (console (browser st1)) = repeat (10000%Q, 1%nat) (S k) /\
    gave_up (console (browser st1)) = false.
Proof.
  intros (Hws & Hready & Hrec & Hsock & Htimer & Hsched & Hgave).
  unfold ready in *. name_fields st. subst.
  destruct (sockets0 !! k) as [[rs frames]|] eqn:Hlook; [|discriminate].
  injection Hready as ->.
  eexists. split.
  - evaluate. rewrite Hlook. reflexivity.
  - evaluate.
    rewrite lookup_alter, decide_True, Hlook by reflexivity.
    rewrite lookup_insert_eq, backoff_first.
    rewrite !scheduled_app, !gave_up_app, Hsched, Hgave.
    cbn. rewrite !app_nil_r, repeat_snoc.
    repeat split; reflexivity.
Qed.

(** Timer [k] fires: [connectToJarvis] forgets the recorded attempt before
    it tests the cap, and constructs connection [k + 1]. *)
Lemma failed_round_retry k st1 :
  wsRef (refs st1) = Some k ->
  ready st1 k = Some CLOSED ->
  isConnectingRef (refs st1) = false ->
  reconnectTimeoutRef (refs st1) = Some {| attempt := 1; timeout := Some k |} ->
  timers (browser st1) !! k
    = Some {| delay := 10000; callback := run_connectToJarvis |} ->
  nextSocket (browser st1) = S k ->
  nextTimer (browser st1) = S k ->
  scheduled (console (browser st1)) = repeat (10000%Q, 1%nat) (S k) ->
  gave_up (console (browser st1)) = false ->
  exists st2,
    step (at_time 0) (TimerFires k) st1 = Some st2 /\ awaiting_round (S k) st2.
Proof.
  intros Hws Hready Hconn Hrec Htimer Hsock Hnext Hsched Hgave.
  unfold awaiting_round, ready in *. name_fields st1. subst.
  destruct (sockets0 !! k) as [[rs frames]|] eqn:Hlook; [|discriminate].
  injection Hready as ->.
  eexists. split.
  - evaluate. rewrite Htimer. reflexivity.
  - evaluate. rewrite Hlook. evaluate.
    rewrite lookup_insert_eq.
    rewrite !scheduled_app, !gave_up_app, Hsched, Hgave.
    cbn. rewrite ?app_nil_r.
    repeat split; reflexivity.
Qed.

Lemma failed_rounds_shape n : forall k st,
  awaiting_round k st ->
  exists st', run (failed_rounds n k) st = Some st' /\
              awaiting_round (n + k) st'.
Proof.
  induction n as [|n IH]; intros k st Hshape.
  - exists st. split; [reflexivity|exact Hshape].
  - destruct (failed_round_close k st Hshape)
      as (st1 & Hstep1 & H1 & H2 & H3 & H4 & H5 & H6 & H7 & H8 & H9).
    destruct (failed_round_retry k st1 H1 H2 H3 H4 H5 H6 H7 H8 H9)
      as (st2 & Hstep2 & Hshape2).
    destruct (IH (S k) st2 Hshape2) as (st' & Hrun & Hshape').
    exists st'. split.
    + cbn [failed_rounds run]. rewrite Hstep1, Hstep2. exact Hrun.
    + replace (S n + k)%nat with (n + S k)%nat by lia. exact Hshape'.
Qed.

Lemma server_down_shape n :
  exists st, run (server_down n) mounted = Some st /\ awaiting_round n st.
Proof.
  assert (H0 : awaiting_round 0 (exec connectToJarvis (at_time 0) mounted)).
  { unfold awaiting_round. vm_compute. repeat split; reflexivity. }
  destruct (failed_rounds_shape n 0%nat _ H0) as (st & Hrun & Hshape).
  exists st. split.
  - unfold server_down. cbn [run step]. exact Hrun.
  - replace n with (n + 0)%nat by lia. exact Hshape.
Qed.

Lemma backoff_first_throw : backoff 5000 60000 0 = 5000%Q.
Proof. reflexivity. Qed.

(** Timer [k] fires and the constructor throws again: the [catch] finds no
    record, since the entry of [connectToJarvis] erased it, and arms timer
    [k + 1] with the delay of attempt 0. *)
Lemma thrown_round k st :
  awaiting_retry k st ->
  exists st',
    step throwing (TimerFires k) st = Some st' /\ awaiting_retry (S k) st'.
Proof.
  intros (Hws & Hconn & Hrec & Htimer & Hsock & Hnext & Hgave).
  unfold awaiting_retry in *. name_fields st. subst.
  eexists. split.
  - evaluate. rewrite Htimer. reflexivity.
  - evaluate. rewrite lookup_insert_eq, backoff_first_throw.
    rewrite !gave_up_app, Hgave.
    repeat split; reflexivity.
Qed.

Lemma thrown_rounds_shape n : forall k st,
  awaiting_retry k st ->
  exists st', run (thrown_rounds n k) st = Some st' /\
              awaiting_retry (n + k) st'.
Proof.
  induction n as [|n IH]; intros k st Hshape.
  - exists st. split; [reflexivity|exact Hshape].
  - destruct (thrown_round k st Hshape) as (st1 & Hstep & Hshape1).
    destruct (IH (S k) st1 Hshape1) as (st' & Hrun & Hshape').
    exists st'. split.
    + cbn [thrown_rounds run]. rewrite Hstep. exact Hrun.
    + replace (S n + k)%nat with (n + S k)%nat by lia. exact Hshape'.
Qed.

Lemma constructor_throws_shape n :
  exists st, run (constructor_throws n) mounted = Some st /\
             awaiting_retry n st.
Proof.
  assert (H0 : awaiting_retry 0 (exec connectToJarvis throwing mounted)).
  { unfold awaiting_retry. vm_compute. repeat apply conj; reflexivity. }
  destruct (thrown_rounds_shape n 0%nat _ H0) as (st & Hrun & Hshape).
  exists st. split.
  - unfold constructor_throws. cbn [run step]. exact Hrun.
  - replace n with (n + 0)%nat by lia. exact Hshape.
Qed.

(** The delay of [backoff] never decreases with the attempt and never
    exceeds the cap. *)
Lemma backoff_monotone base cap a b :
  (0 <= base)%Q -> (a <= b)%nat ->
  (backoff base cap a <= backoff base cap b)%Q.
Proof.
  intros Hbase Hab. unfold backoff. apply Q.min_le_compat_r.
  rewrite (Qmult_comm base), (Qmult_comm base).
  apply Qmult_le_compat_r; [|exact Hbase].
  apply Qpower_le_compat_l; [lia|]. discriminate.
Qed.

Lemma backoff_capped base cap a : (backoff base cap a <= cap)%Q.
Proof. unfold backoff. apply Q.le_min_r. Qed.

(** The test of the attempt cap in [connectToJarvis] reads
    [reconnectTimeoutRef] after the entry of the function has emptied it:
    whatever the state, no call reports that reconnection is given up. *)
Lemma connectToJarvis_never_gives_up o st :
  gave_up (console (browser (exec connectToJarvis o st)))
    = gave_up (console (browser st)).
Proof.
  name_fields st. destruct o as [clock granted throws].
  destruct reconnectTimeoutRef0 as [[a [t|]]|], isConnectingRef0;
    evaluate; rewrite ?gave_up_app, ?orb_false_r; try reflexivity.
  all: destruct wsRef0 as [s|]; evaluate.
  all: try destruct (sockets0 !! s) as [[[] frames]|]; evaluate.
  all: try destruct throws; evaluate.
  all: rewrite ?gave_up_app; cbn; rewrite ?orb_false_r; reflexivity.
Qed.

(** Whatever the state, the attempt recorded after a call of
    [connectToJarvis] is 0 or 1: the call erases the record, and only the
    [catch] writes a new one, counted from 0. *)
Lemma connectToJarvis_resets_attempt o st :
  (attempt_or_0 (reconnectTimeoutRef (refs (exec connectToJarvis o st))) <= 1)%nat.
Proof.
  name_fields st. destruct o as [clock granted throws].
  destruct reconnectTimeoutRef0 as [[a [t|]]|], isConnectingRef0;
    evaluate; try lia.
  all: destruct wsRef0 as [s|]; evaluate.
  all: try destruct (sockets0 !! s) as [[[] frames]|]; evaluate.
  all: try destruct throws; evaluate; lia.
Qed.

(** C1, the code at the failing input.  With the backend down, every
    failed connection is followed by another one: after [n] failed rounds,
    for any [n] (21, for instance), connection [n + 1] is under way, and
    the console has never reported that the maximum of reconnection
    attempts was reached.  Likewise, when the WebSocket constructor throws
    at every call, after [n] rounds, for any [n], the next reconnection is
    armed, recorded as attempt 1.  No call of [connectToJarvis], from any
    state, reports the maximum: the recorded attempt is erased at the
    entry of the function, before it is compared with the maximum of 20, so
    that the attempt recorded after a call is at most 1. *)
Theorem reconnection_never_given_up :
  (forall n, exists st,
     run (server_down n) mounted = Some st /\
     nextSocket (browser st) = S n /\
     wsRef (refs st) = Some n /\
     ready st n = Some CONNECTING /\
     gave_up (console (browser st)) = false) /\
  (forall n, exists st,
     run (constructor_throws n) mounted = Some st /\
     reconnectTimeoutRef (refs st) = Some {| attempt := 1; timeout := Some n |} /\
     timers (browser st) !! n
       = Some {| delay := 5000; callback := run_connectToJarvis |} /\
     gave_up (console (browser st)) = false) /\
  (forall o st,
     gave_up (console (browser (exec connectToJarvis o st)))
       = gave_up (console (browser st)) /\
     (attempt_or_0 (reconnectTimeoutRef (refs (exec connectToJarvis o st)))
        <= 1)%nat).
Proof.
  split; [|split].
  - intros n. destruct (server_down_shape n)
      as (st & Hrun & Hws & Hready & _ & Hsock & _ & _ & Hgave).
    exists st. repeat split; assumption.
  - intros n. destruct (constructor_throws_shape n)
      as (st & Hrun & _ & _ & Hrec & Htimer & _ & _ & Hgave).
    exists st. repeat split; assumption.
  - intros o st. split.
    + apply connectToJarvis_never_gives_up.
    + apply connectToJarvis_resets_attempt.
Qed.

Lemma run_app l1 l2 st :
  run (l1 ++ l2) st
    = match run l1 st with Some st1 => run l2 st1 | None => None end.
Proof.
  revert st. induction l1 as [|[o e] l1 IH]; intros st; cbn [app run].
  - reflexivity.
  - destruct (step o e st) as [st1|]; [apply IH|reflexivity].
Qed.

(** C2, the code at the failing input.  With the backend down, the
    reconnections scheduled after the successive unclean closes all have
    the delay 10000 ms and the attempt number 1, however many there are:
    after [n] failed rounds the console lists [n] of them, and the close
    of connection [n + 1] arms its timer with 10000 ms again and records
    attempt 1.  So the second one is not delayed by
    min(10000 * 1.5, 120000) = 15000. *)
Theorem unclean_close_delay_never_grows :
  (forall n, exists st,
     run (server_down n) mounted = Some st /\
     scheduled (console (browser st)) = repeat (10000%Q, 1%nat) n) /\
  (forall n, exists st,
     run (server_down n ++ [(at_time 0, SocketCloses n false true)]) mounted
       = Some st /\
     timers (browser st) !! n
       = Some {| delay := 10000; callback := run_connectToJarvis |} /\
     reconnectTimeoutRef (refs st)
       = Some {| attempt := 1; timeout := Some n |}) /\
  (backoff 10000 120000 (2 - 1) == 15000)%Q.
Proof.
  split; [|split].
  - intros n. destruct (server_down_shape n)
      as (st & Hrun & _ & _ & _ & _ & _ & Hsched & _).
    exists st. split; assumption.
  - intros n. destruct (server_down_shape n) as (st & Hrun & Hshape).
    destruct (failed_round_close n st Hshape)
      as (st1 & Hstep & _ & _ & _ & Hrec & Htimer & _).
    exists st1. split; [|split; assumption].
    rewrite run_app, Hrun. cbn [run]. rewrite Hstep. reflexivity.
  - vm_compute. reflexivity.
Qed.

(** What [onclose] does on an unclean close, whatever the state: the
    delay is min(10000 * 1.5^attempt, 120000) for the recorded attempt
    (0 without a record), the timer armed is the next handle, and the
    record becomes attempt + 1 with that handle. *)
Lemma onclose_unclean_schedules o st :
  let a := attempt_or_0 (reconnectTimeoutRef (refs st)) in
  let t := nextTimer (browser st) in
  let st' := exec (onclose false) o st in
  timers (browser st')
    = <[t := {| delay := backoff 10000 120000 a;
                callback := run_connectToJarvis |}]> (timers (browser st)) /\
  reconnectTimeoutRef (refs st')
    = Some {| attempt := a + 1; timeout := Some t |}.
Proof.
  name_fields st. evaluate. split; reflexivity.
Qed.

(** ** One session at a time *)

Lemma exec_then {A} (m : M unit) (k : M A) o st :
  exec (m ;; k) o st = exec k o (exec m o st).
Proof. unfold exec, bind. destruct (m o st) as [[] st1]. reflexivity. Qed.

Section SingleSession.

Lemma cells_single f : preserves single_session (on_cells f).
Proof. intros o st H. exact H. Qed.

Lemma monitor_single f : preserves single_session (on_monitor f).
Proof. intros o st H. exact H. Qed.

Lemma refs_single f :
  (forall r, wsRef (f r) = wsRef r) ->
  preserves single_session (on_refs f).
Proof.
  intros Hf o st [Hlive Hfresh]. split; [|exact Hfresh].
  intros s Hs. cbn. rewrite Hf. exact (Hlive s Hs).
Qed.

Lemma browser_single f :
  (forall b, sockets (f b) = sockets b) ->
  (forall b, nextSocket (f b) = nextSocket b) ->
  preserves single_session (on_browser f).
Proof.
  intros Hs Hn o st [Hlive Hfresh].
  unfold single_session, live, ready in *. cbn. rewrite Hs, Hn.
  split; assumption.
Qed.

Lemma socket_send_single s frame :
  preserves single_session (socket_send s frame).
Proof.
  intros o st [Hlive Hfresh].
  unfold single_session, live, ready in *. cbn. split; intros s'.
  - rewrite lookup_alter. specialize (Hlive s').
    destruct (decide (s = s')) as [<-|]; [|exact Hlive].
    destruct (sockets (browser st) !! s); exact Hlive.
  - rewrite lookup_alter. intros Hs. apply Hfresh.
    destruct (decide (s = s')) as [<-|]; [|exact Hs].
    destruct (sockets (browser st) !! s); [eauto|].
    destruct Hs as [? Hs]. discriminate Hs.
Qed.

(** The browser may move a socket to any state in which it is no more
    live than before. *)
Lemma socket_becomes_single s r o st :
  (is_state CONNECTING (Some r) || is_state OPEN (Some r) = true ->
   live st s = true) ->
  single_session st ->
  single_session (exec (socket_becomes s r) o st).
Proof.
  intros Hr [Hlive Hfresh].
  unfold single_session, live, ready in *. cbn. split; intros s'.
  - rewrite lookup_alter. specialize (Hlive s').
    destruct (decide (s = s')) as [<-|]; [|exact Hlive].
    destruct (sockets (browser st) !! s); cbn; [|discriminate].
    intros Hs. apply Hlive, Hr, Hs.
  - rewrite lookup_alter. intros Hs. apply Hfresh.
    destruct (decide (s = s')) as [<-|]; [|exact Hs].
    destruct (sockets (browser st) !! s); [eauto|].
    destruct Hs as [? Hs]. discriminate Hs.
Qed.

End SingleSession.

Lemma connectToJarvis_single : preserves single_session connectToJarvis.
Proof.
  intros o st [Hlive Hfresh].
  change (snd (connectToJarvis o st)) with (exec connectToJarvis o st).
  unfold single_session, live in *.
  name_fields st. destruct o as [clock granted throws].
  destruct reconnectTimeoutRef0 as [[a [t|]]|], isConnectingRef0;
    evaluate; try (split; assumption).
  all: destruct wsRef0 as [s0|]; evaluate.
  all: try destruct (sockets0 !! s0) as [[[] frames]|] eqn:Hcur; evaluate.
  all: try (split; assumption).
  all: destruct throws; evaluate; try (split; assumption).
  all: split; intros s;
    (destruct (decide (nextSocket0 = s)) as [<-|Hne];
     [ first [reflexivity | lia]
     | rewrite lookup_insert_ne by exact Hne; intros Hs;
       first [ specialize (Hfresh s Hs); lia
             | specialize (Hlive s Hs); try discriminate Hlive;
               injection Hlive as <-; rewrite Hcur in Hs; discriminate Hs ] ]).
Qed.

Create HintDb single.

Section SingleSessionSteps.

Hint Resolve cells_single monitor_single socket_send_single
  connectToJarvis_single : single.

Ltac single_leaf :=
  lazymatch goal with
  | |- preserves _ (on_refs _) => apply refs_single; intros ?; reflexivity
  | |- preserves _ (on_browser _) => apply browser_single; intros ?; reflexivity
  | |- _ => solve [auto with single]
  end.

Ltac single := repeat first [preserve_step | single_leaf].

Lemma handleJarvisMessage_single d :
  preserves single_session (handleJarvisMessage d).
Proof.
  destruct d; unfold handleJarvisMessage, addToConversation, startListening,
    stopListening, monitor_called, console_write, setIsWaitingForResponse,
    setCurrentResponse, setAssistantText, setMode, setIntensity,
    setConversationHistory, set_responseRef, set_lastTextInputRef; single.
Qed.

Lemma step_single o e st st' :
  step o e st = Some st' -> single_session st -> single_session st'.
Proof.
  destruct e; cbn [step]; intros Hstep Hinv.
  - injection Hstep as <-. exact (connectToJarvis_single o st Hinv).
  - destruct (timers (browser st) !! t) as [tm|]; [|discriminate].
    injection Hstep as <-. apply preserves_exec; [|exact Hinv].
    destruct tm as [d []]; unfold run_callback, clearTimeout, announceMic,
      socket_readyState; single.
  - destruct (is_state CONNECTING (ready st s)) eqn:Hs; [|discriminate].
    injection Hstep as <-. rewrite exec_then. apply preserves_exec.
    + unfold onopen, setTimeout, console_write, setIsConnected,
        set_reconnectTimeoutRef, set_isConnectingRef. single.
    + apply socket_becomes_single; [|exact Hinv].
      intros _. unfold live. rewrite Hs. reflexivity.
  - destruct (is_state OPEN (ready st s)); [|discriminate].
    injection Hstep as <-. apply preserves_exec; [|exact Hinv].
    destruct data; unfold onmessage, console_write;
      [apply handleJarvisMessage_single|single].
  - destruct (is_state OPEN (ready st s)); [|discriminate].
    injection Hstep as <-.
    apply socket_becomes_single; [discriminate|exact Hinv].
  - destruct (ready st s) as [[]|]; try discriminate;
      injection Hstep as <-; rewrite exec_then; (apply preserves_exec;
      [ unfold onclose, onerror, scheduleReconnect, setTimeout,
          socket_readyState, console_write, setIsConnected,
          set_reconnectTimeoutRef, set_isConnectingRef; single
      | apply socket_becomes_single; [discriminate|exact Hinv] ]).
  - injection Hstep as <-. apply preserves_exec; [|exact Hinv].
    unfold setUserText. single.
  - injection Hstep as <-. apply preserves_exec; [|exact Hinv].
    unfold sendTextMessage, addToConversation, sendWebSocketMessage,
      socket_readyState, console_write, setIsWaitingForResponse,
      setUserText, setConversationHistory, set_lastTextInputRef. single.
  - injection Hstep as <-. apply preserves_exec; [|exact Hinv].
    unfold toggleMicrophone, startListening, stopListening,
      sendWebSocketMessage, socket_readyState, monitor_called,
      console_write, setMicEnabled. single.
  - injection Hstep as <-. apply preserves_exec; [|exact Hinv].
    unfold clearConversation, setConversationHistory, setCurrentResponse,
      set_responseRef. single.
Qed.

Lemma reachable_single st : reachable st -> single_session st.
Proof.
  intros [trace Hrun].
  refine (run_invariant single_session step_single trace mounted st Hrun _).
  split.
  - intros s Hs. discriminate Hs.
  - intros s [sock Hs]. discriminate Hs.
Qed.

End SingleSessionSteps.

(** A call of [connectToJarvis] while a connection attempt is in flight
    or the connection is open, from any state: what it leaves and what it
    changes. *)
Lemma busy_call_result st o :
  in_flight st || connection_open st = true ->
  let st' := exec connectToJarvis o st in
  (sockets (browser st') = sockets (browser st) /\
   nextSocket (browser st') = nextSocket (browser st) /\
   wsRef (refs st') = wsRef (refs st) /\
   isConnectingRef (refs st') = isConnectingRef (refs st)) /\
  (reconnectTimeoutRef (refs st') = None /\
   timers (browser st') = timers_without_reconnect st /\
   console (browser st')
     = console (browser st) ++
       [if in_flight st then log_in_progress else log_already_connected] /\
   cells st'
     = if in_flight st then cells st
       else cells (exec (setIsConnected true) o st)) /\
  (nextTimer (browser st') = nextTimer (browser st) /\
   monitorCalls (browser st') = monitorCalls (browser st) /\
   monitor st' = monitor st /\
   micEnabledRef (refs st') = micEnabledRef (refs st) /\
   responseRef (refs st') = responseRef (refs st) /\
   lastTextInputRef (refs st') = lastTextInputRef (refs st)).
Proof.
  intros Hbusy st'. subst st'. revert Hbusy.
  unfold in_flight, connection_open, timers_without_reconnect.
  name_fields st. destruct o as [clock granted throws].
  destruct reconnectTimeoutRef0 as [[a [t|]]|], isConnectingRef0;
    evaluate; intros Hbusy.
  all: try (repeat split; reflexivity).
  all: destruct wsRef0 as [s0|]; evaluate; try discriminate Hbusy.
  all: destruct (sockets0 !! s0) as [[[] frames]|]; evaluate;
    try discriminate Hbusy.
  all: repeat split; reflexivity.
Qed.

(** * The rest of the component *)

Ltac evaluate_more :=
  cbv [exec eval bind ret read ask on_cells on_refs on_monitor on_browser
       step run_callback ready is_state attempt_or_0 maxReconnectAttempts
       connectToJarvis scheduleReconnect announceMic onopen onmessage
       onclose onerror handleJarvisMessage addToConversation
       sendWebSocketMessage sendTextMessage toggleMicrophone
       clearConversation startListening stopListening onAudioLevel
       setMode setIntensity setUserText setAssistantText setIsConnected
       setConversationHistory setCurrentResponse setMicEnabled
       setIsWaitingForResponse set_wsRef set_responseRef
       set_lastTextInputRef set_reconnectTimeoutRef set_isConnectingRef
       new_WebSocket setTimeout clearTimeout socket_send socket_becomes
       socket_readyState console_write monitor_called
       connection_open sent_on in_flight not_closed pending_reconnect
       cells refs monitor browser
       mode intensity userText assistantText isConnected
       conversationHistory currentResponse micEnabled isWaitingForResponse
       micEnabledRef wsRef responseRef lastTextInputRef reconnectTimeoutRef
       isConnectingRef isListening audioLevel
       sockets nextSocket timers nextTimer console monitorCalls
       readyState sent delay callback attempt timeout
       now micGranted constructorThrows at_time throwing
       negb orb andb fst snd Nat.leb Nat.ltb] in *.

(** Name the fields of a state. *)
Ltac open_state st :=
  destruct st as
    [[c_mode c_intensity c_userText c_assistantText c_isConnected c_history
      c_response c_micEnabled c_waiting]
     [r_micEnabled r_ws r_response r_last r_reconnect r_connecting]
     [m_listening m_level]
     [b_sockets b_nextSocket b_timers b_nextTimer b_console b_calls]];
  cbn [cells refs monitor browser
       mode intensity userText assistantText isConnected
       conversationHistory currentResponse micEnabled isWaitingForResponse
       micEnabledRef wsRef responseRef lastTextInputRef reconnectTimeoutRef
       isConnectingRef isListening audioLevel
       sockets nextSocket timers nextTimer console monitorCalls] in *.

(** ** Sending text *)

(** X1.  [sendTextMessage] does nothing at all when the input is empty or
    only white space, or when the connected flag is down: the state is the
    one before, nothing is appended, sent or logged. *)
Theorem sendTextMessage_refused o st :
  truthy (trim (userText (cells st))) && isConnected (cells st) = false ->
  exec sendTextMessage o st = st.
Proof.
  intros Hguard. unfold exec, sendTextMessage, bind, read. cbn.
  rewrite Hguard. reflexivity.
Qed.

Lemma sendTextMessage_refused_witness :
  let st := after (connection_opened ++ [(at_time 0, Types (js "   "))]) in
  truthy (trim (userText (cells st))) && isConnected (cells st) = false /\
  exec sendTextMessage (at_time 1) st = st.
Proof.
  assert (H : truthy (trim (userText (cells
                (after (connection_opened ++ [(at_time 0, Types (js "   "))])))))
              && isConnected (cells
                (after (connection_opened ++ [(at_time 0, Types (js "   "))])))
              = false) by (vm_compute; reflexivity).
  split; [exact H|]. exact (sendTextMessage_refused (at_time 1) _ H).
Defined.

(** X2.  When the input has text and the connected flag is up,
    [sendTextMessage] always appends the trimmed text as a user entry,
    raises the awaiting-response flag and empties the input field; the
    text goes on the wire only if the current socket is open, as one
    [text_input] frame; otherwise a warning is logged and the entry stays
    in the conversation although nothing was sent. *)
Theorem sendTextMessage_accepted o st :
  truthy (trim (userText (cells st))) && isConnected (cells st) = true ->
  let T := trim (userText (cells st)) in
  let st' := exec sendTextMessage o st in
  conversationHistory (cells st')
    = conversationHistory (cells st) ++ [entry user T (now o)] /\
  isWaitingForResponse (cells st') = true /\
  userText (cells st') = [] /\
  (if connection_open st then
     (forall s, sent_on st' s =
        if bool_decide (wsRef (refs st) = Some s)
        then sent_on st s ++ [JSON_stringify (text_input T)]
        else sent_on st s) /\
     console (browser st') = console (browser st)
   else
     sockets (browser st') = sockets (browser st) /\
     console (browser st')
       = console (browser st) ++ [warn_not_ready (text_input T)]).
Proof.
  intros Hguard. open_state st. evaluate_more. rewrite Hguard.
  destruct r_ws as [s0|]; [|repeat split; reflexivity].
  destruct (b_sockets !! s0) as [[[] frames]|] eqn:Hcur;
    try (repeat split; reflexivity).
  split; [reflexivity|]. split; [reflexivity|]. split; [reflexivity|].
  split; [|reflexivity].
  intros s. rewrite lookup_alter. case_bool_decide as Hs.
  - injection Hs as <-. rewrite decide_True, Hcur by reflexivity. reflexivity.
  - rewrite decide_False by congruence. reflexivity.
Qed.

Lemma sendTextMessage_accepted_witness :
  let st := after typed_hi in
  let o := at_time 10 in
  let st' := exec sendTextMessage o st in
  truthy (trim (userText (cells st))) && isConnected (cells st) = true /\
  connection_open st = true /\
  conversationHistory (cells st')
    = conversationHistory (cells st)
      ++ [entry user (trim (userText (cells st))) (now o)] /\
  userText (cells st') = [] /\
  sent_on st' 0 = sent_on st 0
    ++ [JSON_stringify (text_input (trim (userText (cells st))))].
Proof.
  assert (H : truthy (trim (userText (cells (after typed_hi))))
              && isConnected (cells (after typed_hi)) = true)
    by (vm_compute; reflexivity).
  assert (Hopen : connection_open (after typed_hi) = true)
    by (vm_compute; reflexivity).
  assert (Hws : bool_decide (wsRef (refs (after typed_hi)) = Some 0%nat) = true)
    by (vm_compute; reflexivity).
  destruct (sendTextMessage_accepted (at_time 10) (after typed_hi) H)
    as (Hconv & _ & Htext & Hwire).
  rewrite Hopen in Hwire. destruct Hwire as [Hwire _].
  specialize (Hwire 0%nat). rewrite Hws in Hwire.
  split; [exact H|]. split; [exact Hopen|]. split; [exact Hconv|].
  split; [exact Htext|exact Hwire].
Defined.

(** ** Inbound messages *)

(** X3.  No inbound message, whatever its type, and no unparsable
    payload touches the connection or the user's input: [onmessage]
    leaves the sockets and the frames sent on them, the timers, the
    socket reference, the recorded reconnection, the in-flight flag, the
    connected flag, the input field and the microphone preference as they
    are. *)
Theorem onmessage_leaves_connection o st data :
  let st' := exec (onmessage data) o st in
  sockets (browser st') = sockets (browser st) /\
  nextSocket (browser st') = nextSocket (browser st) /\
  timers (browser st') = timers (browser st) /\
  wsRef (refs st') = wsRef (refs st) /\
  reconnectTimeoutRef (refs st') = reconnectTimeoutRef (refs st) /\
  isConnectingRef (refs st') = isConnectingRef (refs st) /\
  isConnected (cells st') = isConnected (cells st) /\
  userText (cells st') = userText (cells st) /\
  micEnabled (cells st') = micEnabled (cells st).
Proof.
  open_state st. destruct o as [clock granted throws].
  destruct data as [[t|t|t|m i|m l|t]|]; evaluate_more;
    try (repeat split; reflexivity).
  - destruct (isDuplicate r_last t clock); repeat split; reflexivity.
  - repeat case_bool_decide; destruct c_micEnabled, granted;
      repeat split; reflexivity.
  - case_bool_decide; repeat split; reflexivity.
Qed.

(** ** Clearing the conversation *)

(** X4.  [clearConversation] empties the history and the streaming
    buffer, sends nothing and keeps the input field; it does not forget
    the text appended last.  So when an entry [t] of either role was
    appended and the conversation is then cleared, an inbound [user_text]
    repeating [t] less than 2000 ms after the append is still dropped and
    the history stays empty. *)
Theorem clear_keeps_duplicate_memory st r t o o1 o2 :
  now o2 - now o < 2000 ->
  let cleared :=
    exec clearConversation o1 (exec (addToConversation r t) o st) in
  (conversationHistory (cells cleared) = [] /\
   currentResponse (cells cleared) = [] /\
   responseRef (refs cleared) = [] /\
   userText (cells cleared) = userText (cells st) /\
   sockets (browser cleared) = sockets (browser st)) /\
  lastTextInputRef (refs cleared)
    = Some {| last_text := t; last_timestamp := now o |} /\
  conversationHistory
    (cells (exec (handleJarvisMessage (user_text t)) o2 cleared)) = [].
Proof.
  intros Hwindow cleared.
  assert (Hlast : lastTextInputRef (refs cleared)
                  = Some {| last_text := t; last_timestamp := now o |})
    by reflexivity.
  split; [repeat split; reflexivity|]. split; [exact Hlast|].
  destruct (user_text_result o2 cleared t) as [_ Hres]. cbv zeta in Hres.
  rewrite Hres, Hlast. unfold isDuplicate. cbn [last_text last_timestamp].
  rewrite bool_decide_eq_true_2 by reflexivity.
  replace (now o2 - now o <? 2000) with true
    by (symmetry; apply Z.ltb_lt; exact Hwindow).
  reflexivity.
Qed.

Lemma clear_keeps_duplicate_memory_witness :
  let st := after connection_opened in
  let cleared :=
    exec clearConversation (at_time 500)
         (exec (addToConversation user (js "hi")) (at_time 0) st) in
  now (at_time 1999) - now (at_time 0) < 2000 /\
  conversationHistory (cells cleared) = [] /\
  conversationHistory
    (cells (exec (handleJarvisMessage (user_text (js "hi"))) (at_time 1999)
                 cleared)) = [].
Proof.
  assert (H : now (at_time 1999) - now (at_time 0) < 2000)
    by (vm_compute; reflexivity).
  destruct (clear_keeps_duplicate_memory (after connection_opened) user
              (js "hi") (at_time 0) (at_time 500) (at_time 1999) H)
    as ((Hconv & _) & _ & Hdrop).
  split; [exact H|]. split; [exact Hconv|exact Hdrop].
Defined.

(** ** Opening and closing *)

(** X5.  When a connecting socket opens, [onopen] lowers the in-flight
    flag, raises the connected flag, records attempt 0 and arms exactly
    one timer, of 100 ms.  When that timer's callback runs while the
    current socket is open, it sends exactly one frame, announcing the
    microphone preference of that moment; when the current socket is no
    longer open it changes nothing at all: no frame, no warning. *)
Theorem open_then_announce o st s :
  is_state CONNECTING (ready st s) = true ->
  (exists st',
     step o (SocketOpens s) st = Some st' /\
     ready st' s = Some OPEN /\
     isConnectingRef (refs st') = false /\
     isConnected (cells st') = true /\
     reconnectTimeoutRef (refs st') = Some {| attempt := 0; timeout := None |} /\
     timers (browser st')
       = <[nextTimer (browser st) :=
             {| delay := 100; callback := run_announceMic |}]>
           (timers (browser st))) /\
  (forall o' st1,
     let st2 := exec announceMic o' st1 in
     if connection_open st1 then
       (forall s', sent_on st2 s' =
          if bool_decide (wsRef (refs st1) = Some s')
          then sent_on st1 s' ++
               [JSON_stringify (if micEnabledRef (refs st1)
                                then enable_mic else disable_mic)]
          else sent_on st1 s') /\
       console (browser st2) = console (browser st1)
     else st2 = st1).
Proof.
  intros Hconnecting. split.
  - open_state st. evaluate_more.
    destruct (b_sockets !! s) as [[[] frames]|] eqn:Hs; try discriminate.
    eexists. split; [reflexivity|]. evaluate_more.
    rewrite lookup_alter, decide_True, Hs by reflexivity.
    repeat split; reflexivity.
  - intros o' st1. open_state st1. evaluate_more.
    destruct r_ws as [s0|]; [|reflexivity].
    destruct (b_sockets !! s0) as [[[] frames]|] eqn:Hcur; try reflexivity.
    split; [|reflexivity].
    intros s'. rewrite lookup_alter. case_bool_decide as Hs'.
    + injection Hs' as <-. rewrite decide_True, Hcur by reflexivity. reflexivity.
    + rewrite decide_False by congruence. reflexivity.
Qed.

Lemma open_then_announce_witness :
  let st := after [ (at_time 0, Connect) ] in
  is_state CONNECTING (ready st 0) = true /\
  exists st',
    step (at_time 1) (SocketOpens 0) st = Some st' /\
    ready st' 0 = Some OPEN /\
    isConnected (cells st') = true.
Proof.
  assert (H : is_state CONNECTING (ready (after [ (at_time 0, Connect) ]) 0) = true)
    by (vm_compute; reflexivity).
  destruct (open_then_announce (at_time 1) (after [ (at_time 0, Connect) ])
              0%nat H) as [(st' & Hstep & Hready & _ & Hconn & _) _].
  split; [exact H|]. exists st'.
  split; [exact Hstep|]. split; [exact Hready|exact Hconn].
Defined.

(** X6.  When the browser ends a connection, the socket is closed and
    both flags are lowered.  A clean close arms no timer and leaves the
    recorded reconnection as it is.  An unclean close arms exactly one
    timer, whether or not the error handler ran first: its delay is
    min(10000 * 1.5^attempt, 120000) for the recorded attempt, and the
    record becomes attempt + 1 with the new timer. *)
Theorem close_schedules_at_most_once o st s wasClean failed :
  not_closed st s = true ->
  exists st',
    step o (SocketCloses s wasClean failed) st = Some st' /\
    ready st' s = Some CLOSED /\
    isConnected (cells st') = false /\
    isConnectingRef (refs st') = false /\
    nextSocket (browser st') = nextSocket (browser st) /\
    timers (browser st') =
      (if wasClean then timers (browser st)
       else <[nextTimer (browser st) :=
                {| delay := backoff 10000 120000
                              (attempt_or_0 (reconnectTimeoutRef (refs st)));
                   callback := run_connectToJarvis |}]>
              (timers (browser st))) /\
    reconnectTimeoutRef (refs st') =
      (if wasClean then reconnectTimeoutRef (refs st)
       else Some {| attempt := attempt_or_0 (reconnectTimeoutRef (refs st)) + 1;
                    timeout := Some (nextTimer (browser st)) |}).
Proof.
  intros Hopen. open_state st. evaluate_more.
  destruct (b_sockets !! s) as [[rs frames]|] eqn:Hs; [|discriminate].
  destruct rs; try discriminate;
    (eexists; split; [reflexivity|]);
    destruct wasClean, failed; evaluate_more;
    rewrite lookup_alter, decide_True, Hs by reflexivity;
    repeat split; reflexivity.
Qed.

Lemma close_schedules_at_most_once_witness :
  let st := after connection_opened in
  not_closed st 0 = true /\
  exists st',
    step (at_time 1) (SocketCloses 0 false true) st = Some st' /\
    ready st' 0 = Some CLOSED /\
    isConnected (cells st') = false.
Proof.
  assert (H : not_closed (after connection_opened) 0 = true)
    by (vm_compute; reflexivity).
  destruct (close_schedules_at_most_once (at_time 1) (after connection_opened)
              0%nat false true H) as (st' & Hstep & Hready & Hconn & _).
  split; [exact H|]. exists st'.
  split; [exact Hstep|]. split; [exact Hready|exact Hconn].
Defined.

(** ** The reconnection delay *)

Lemma power_at_least_one a : (1 <= 1.5 ^ Z.of_nat a)%Q.
Proof.
  change 1%Q with (1.5 ^ 0)%Q at 1.
  apply Qpower_le_compat_l; [lia|discriminate].
Qed.

Lemma backoff_at_least base cap a :
  (0 <= base)%Q -> (base <= cap)%Q -> (base <= backoff base cap a)%Q.
Proof.
  intros Hbase Hcap. unfold backoff. apply Q.min_glb; [|exact Hcap].
  rewrite <- (Qmult_1_r base) at 1.
  rewrite (Qmult_comm base 1), (Qmult_comm base).
  apply Qmult_le_compat_r; [apply power_at_least_one|exact Hbase].
Qed.

Lemma backoff_saturated base cap a0 a :
  (0 <= base)%Q -> (cap <= base * 1.5 ^ Z.of_nat a0)%Q ->
  (backoff base cap (a0 + a) == cap)%Q.
Proof.
  intros Hbase Hcap. unfold backoff. apply Q.min_r.
  eapply Qle_trans; [exact Hcap|].
  rewrite (Qmult_comm base), (Qmult_comm base).
  apply Qmult_le_compat_r; [|exact Hbase].
  apply Qpower_le_compat_l; [lia|discriminate].
Qed.

(** X7.  The delay computed on the unclean-close path lies between 10000
    and 120000 ms, never decreases when the attempt grows, and is exactly
    120000 from attempt 7 on; the delay computed on the connect-failure
    path lies between 5000 and 60000 ms, never decreases, and is exactly
    60000 from attempt 7 on. *)
Theorem reconnect_delay_bounds a d :
  ((10000 <= backoff 10000 120000 a <= 120000) /\
   backoff 10000 120000 a <= backoff 10000 120000 (a + d) /\
   backoff 10000 120000 (7 + a) == 120000 /\
   backoff 10000 120000 6 < 120000)%Q /\
  ((5000 <= backoff 5000 60000 a <= 60000) /\
   backoff 5000 60000 a <= backoff 5000 60000 (a + d) /\
   backoff 5000 60000 (7 + a) == 60000 /\
   backoff 5000 60000 6 < 60000)%Q.
Proof.
  split.
  - split; [split|split; [|split]].
    + apply backoff_at_least; discriminate.
    + apply backoff_capped.
    + apply backoff_monotone; [discriminate|lia].
    + apply backoff_saturated; [discriminate|]. vm_compute. discriminate.
    + vm_compute. reflexivity.
  - split; [split|split; [|split]].
    + apply backoff_at_least; discriminate.
    + apply backoff_capped.
    + apply backoff_monotone; [discriminate|lia].
    + apply backoff_saturated; [discriminate|]. vm_compute. discriminate.
    + vm_compute. reflexivity.
Qed.

(** ** The microphone button *)

Lemma toggle_on_result st o :
  micEnabled (cells st) = false ->
  micGranted o = true ->
  let st' := exec toggleMicrophone o st in
  (micEnabled (cells st') = true /\ micEnabledRef (refs st') = true /\
   isListening (monitor st') = true) /\
  monitorCalls (browser st') = monitorCalls (browser st) ++ [call_startListening] /\
  wsRef (refs st') = wsRef (refs st) /\
  connection_open st' = connection_open st /\
  (if connection_open st then
     forall s, wsRef (refs st) = Some s ->
       sent_on st' s = sent_on st s ++ [JSON_stringify enable_mic]
   else
     sockets (browser st') = sockets (browser st) /\
     console (browser st') = console (browser st) ++ [warn_not_ready enable_mic]).
Proof.
  intros Hoff Hgranted. open_state st.
  destruct o as [clock granted throws]. cbn in Hgranted. subst.
  evaluate_more.
  destruct r_ws as [s0|]; [|repeat split; reflexivity].
  destruct (b_sockets !! s0) as [[[] frames]|] eqn:Hcur; evaluate_more;
    rewrite ?lookup_alter, ?decide_True, ?Hcur by reflexivity;
    repeat split; try reflexivity.
  intros s [= <-].
  rewrite lookup_alter, decide_True, Hcur by reflexivity. reflexivity.
Qed.

Lemma toggle_off_result st o :
  micEnabled (cells st) = true ->
  let st' := exec toggleMicrophone o st in
  (micEnabled (cells st') = false /\ micEnabledRef (refs st') = false /\
   isListening (monitor st') = false /\ audioLevel (monitor st') = 0%Q) /\
  monitorCalls (browser st') = monitorCalls (browser st) ++ [call_stopListening] /\
  (if connection_open st then
     forall s, wsRef (refs st) = Some s ->
       sent_on st' s = sent_on st s ++ [JSON_stringify disable_mic]
   else
     sockets (browser st') = sockets (browser st) /\
     console (browser st') = console (browser st) ++ [warn_not_ready disable_mic]).
Proof.
  intros Hon. open_state st. subst. evaluate_more.
  destruct r_ws as [s0|]; [|repeat split; reflexivity].
  destruct (b_sockets !! s0) as [[[] frames]|] eqn:Hcur; evaluate_more;
    repeat split; try reflexivity.
  intros s [= <-].
  rewrite lookup_alter, decide_True, Hcur by reflexivity. reflexivity.
Qed.

(** X8.  With the microphone granted, pressing the button while it is off
    starts the monitor, marks the microphone enabled and sends
    [enable_mic] when the connection is open; pressing it again stops the
    monitor, resets the level to 0, marks it disabled and sends
    [disable_mic].  After the two presses the preference and its ref are
    off again and the two frames were sent in that order. *)
Theorem toggle_twice st o1 o2 :
  micEnabled (cells st) = false ->
  micGranted o1 = true ->
  let on := exec toggleMicrophone o1 st in
  let off := exec toggleMicrophone o2 on in
  (micEnabled (cells on) = true /\ micEnabledRef (refs on) = true /\
   isListening (monitor on) = true) /\
  (micEnabled (cells off) = false /\ micEnabledRef (refs off) = false /\
   isListening (monitor off) = false /\ audioLevel (monitor off) = 0%Q) /\
  monitorCalls (browser off)
    = monitorCalls (browser st) ++ [call_startListening; call_stopListening] /\
  (if connection_open st then
     forall s, wsRef (refs st) = Some s ->
       sent_on off s = sent_on st s
         ++ [JSON_stringify enable_mic; JSON_stringify disable_mic]
   else
     sockets (browser off) = sockets (browser st) /\
     console (browser off) = console (browser st)
       ++ [warn_not_ready enable_mic; warn_not_ready disable_mic]).
Proof.
  intros Hoff Hgranted on off.
  destruct (toggle_on_result st o1 Hoff Hgranted)
    as (Hon & Hcalls1 & Hws & Hopen & Hwire1).
  fold on in Hon, Hcalls1, Hws, Hopen, Hwire1.
  destruct (toggle_off_result on o2 (proj1 Hon)) as (Hoff2 & Hcalls2 & Hwire2).
  fold off in Hoff2, Hcalls2, Hwire2.
  split; [exact Hon|]. split; [exact Hoff2|]. split.
  - rewrite Hcalls2, Hcalls1, <- app_assoc. reflexivity.
  - rewrite Hopen in Hwire2. destruct (connection_open st).
    + intros s Hs. rewrite (Hwire2 s) by congruence.
      rewrite (Hwire1 s Hs), <- app_assoc. reflexivity.
    + destruct Hwire1 as [Hs1 Hc1], Hwire2 as [Hs2 Hc2]. split.
      * congruence.
      * rewrite Hc2, Hc1, <- app_assoc. reflexivity.
Qed.

Lemma toggle_twice_witness :
  let st := after connection_opened in
  let on := exec toggleMicrophone (at_time 1) st in
  let off := exec toggleMicrophone (at_time 2) on in
  micEnabled (cells st) = false /\
  micGranted (at_time 1) = true /\
  micEnabled (cells on) = true /\
  micEnabled (cells off) = false /\
  sent_on off 0 = sent_on st 0
    ++ [JSON_stringify enable_mic; JSON_stringify disable_mic].
Proof.
  assert (H1 : micEnabled (cells (after connection_opened)) = false)
    by (vm_compute; reflexivity).
  assert (H2 : micGranted (at_time 1) = true) by reflexivity.
  assert (Hopen : connection_open (after connection_opened) = true)
    by (vm_compute; reflexivity).
  assert (Hws : wsRef (refs (after connection_opened)) = Some 0%nat)
    by (vm_compute; reflexivity).
  destruct (toggle_twice (after connection_opened) (at_time 1) (at_time 2) H1 H2)
    as ((Hon & _) & (Hoff & _) & _ & Hsent).
  rewrite Hopen in Hsent.
  split; [exact H1|]. split; [exact H2|]. split; [exact Hon|].
  split; [exact Hoff|exact (Hsent 0%nat Hws)].
Defined.

(** ** The local audio feedback *)

(** X9.  A loudness sample changes the intensity only in a closure whose
    mode is listening or idle; there the intensity either jumps to
    max(0.1, level * 1.5) or keeps its value, and in both cases ends
    within 0.01 of that target, which is at least 0.1 and, for a level
    between 0 and 1, at most 1.5.  In a closure of any other mode the
    sample changes nothing.  The sample never changes anything but the
    intensity. *)
Theorem onAudioLevel_follows_level m level o st :
  let target := Qmax 0.1 (level * 1.5)%Q in
  let st' := exec (onAudioLevel m level) o st in
  (if bool_decide (m = js "listening") || bool_decide (m = js "idle") then
     (intensity (cells st') = target \/
      intensity (cells st') = intensity (cells st)) /\
     (Qabs (target - intensity (cells st')) <= 0.01)%Q
   else st' = st) /\
  (0.1 <= target)%Q /\
  ((0 <= level)%Q -> (level <= 1)%Q -> (target <= 1.5)%Q) /\
  (mode (cells st') = mode (cells st) /\
   conversationHistory (cells st') = conversationHistory (cells st) /\
   refs st' = refs st /\ monitor st' = monitor st /\ browser st' = browser st).
Proof.
  intros target st'. subst st'.
  assert (Hlow : (0.1 <= target)%Q) by apply Q.le_max_l.
  assert (Hhigh : (0 <= level)%Q -> (level <= 1)%Q -> (target <= 1.5)%Q).
  { intros _ H1. apply Q.max_lub; [discriminate|].
    change 1.5%Q with (1 * 1.5)%Q at 2.
    apply Qmult_le_compat_r; [exact H1|discriminate]. }
  split; [|split; [exact Hlow|split; [exact Hhigh|]]].
  - unfold onAudioLevel.
    destruct (bool_decide (m = js "listening") || bool_decide (m = js "idle"));
      [|reflexivity].
    fold target. open_state st. evaluate_more.
    destruct (Qle_bool (Qabs (target - c_intensity)) 0.01) eqn:Hsmall;
      evaluate_more.
    + split; [right; reflexivity|]. apply Qle_bool_iff. exact Hsmall.
    + split; [left; reflexivity|].
      assert (Hzero : (target - target == 0)%Q) by ring.
      rewrite Hzero. discriminate.
  - unfold onAudioLevel.
    destruct (bool_decide (m = js "listening") || bool_decide (m = js "idle"));
      [|repeat split; reflexivity].
    fold target. open_state st. evaluate_more.
    destruct (Qle_bool (Qabs (target - c_intensity)) 0.01);
      repeat split; reflexivity.
Qed.

(** ** What goes on the wire *)

Lemma trimStart_clean s :
  match trimStart s with c :: _ => isWhiteSpace c = false | [] => True end.
Proof.
  induction s as [|c s IH]; cbn [trimStart]; [exact I|].
  destruct (isWhiteSpace c) eqn:Hc; [exact IH|exact Hc].
Qed.

Lemma trimStart_fixed s :
  match s with c :: _ => isWhiteSpace c = false | [] => True end ->
  trimStart s = s.
Proof.
  destruct s as [|c s]; [reflexivity|]. cbn [trimStart]. intros ->. reflexivity.
Qed.

Lemma trimStart_suffix s :
  exists ws, s = ws ++ trimStart s /\ forallb isWhiteSpace ws = true.
Proof.
  induction s as [|c s (ws & Hs & Hws)]; [exists []; split; reflexivity|].
  cbn [trimStart]. destruct (isWhiteSpace c) eqn:Hc.
  - exists (c :: ws). split; [cbn; f_equal; exact Hs|].
    cbn. rewrite Hc, Hws. reflexivity.
  - exists []. split; reflexivity.
Qed.

Lemma trimEnd_clean s :
  match s with c :: _ => isWhiteSpace c = false | [] => True end ->
  match trimEnd s with c :: _ => isWhiteSpace c = false | [] => True end.
Proof.
  intros Hs. unfold trimEnd.
  destruct (trimStart_suffix (rev s)) as (ws & Hrev & Hws).
  apply (f_equal (@rev N)) in Hrev. rewrite rev_involutive, rev_app_distr in Hrev.
  destruct (rev (trimStart (rev s))) as [|c r]; [exact I|].
  rewrite Hrev in Hs. exact Hs.
Qed.

Lemma trimEnd_idempotent s : trimEnd (trimEnd s) = trimEnd s.
Proof.
  unfold trimEnd. rewrite rev_involutive.
  rewrite (trimStart_fixed (trimStart (rev s))); [reflexivity|].
  apply trimStart_clean.
Qed.

Lemma trim_idempotent s : trim (trim s) = trim s.
Proof.
  unfold trim.
  rewrite (trimStart_fixed (trimEnd (trimStart s))).
  - apply trimEnd_idempotent.
  - apply trimEnd_clean, trimStart_clean.
Qed.

Create HintDb frames.

Section ProperFrames.

Lemma cells_frames f : preserves proper_frames (on_cells f).
Proof. intros o st H. exact H. Qed.

Lemma refs_frames f : preserves proper_frames (on_refs f).
Proof. intros o st H. exact H. Qed.

Lemma monitor_frames f : preserves proper_frames (on_monitor f).
Proof. intros o st H. exact H. Qed.

Lemma browser_frames f :
  (forall b, sockets (f b) = sockets b) ->
  preserves proper_frames (on_browser f).
Proof.
  intros Hf o st H. unfold proper_frames in *. cbn. rewrite Hf. exact H.
Qed.

Lemma socket_send_frames s frame :
  proper_frame frame = true ->
  preserves proper_frames (socket_send s frame).
Proof.
  intros Hframe o st H s' sock. cbn. rewrite lookup_alter.
  destruct (decide (s = s')) as [<-|]; [|apply H].
  destruct (sockets (browser st) !! s) as [old|] eqn:Hold; [|discriminate].
  intros [= <-]. cbn. rewrite forallb_app, (H s old Hold). cbn.
  rewrite Hframe. reflexivity.
Qed.

Lemma socket_becomes_frames s r :
  preserves proper_frames (socket_becomes s r).
Proof.
  intros o st H s' sock. cbn. rewrite lookup_alter.
  destruct (decide (s = s')) as [<-|]; [|apply H].
  destruct (sockets (browser st) !! s) as [old|] eqn:Hold; [|discriminate].
  intros [= <-]. cbn. exact (H s old Hold).
Qed.

Lemma new_WebSocket_frames : preserves proper_frames new_WebSocket.
Proof.
  intros o st H. unfold new_WebSocket, bind, ask, read, ret, on_browser.
  destruct (constructorThrows o); [exact H|].
  intros s sock. cbn. intros Hs.
  destruct (decide (nextSocket (browser st) = s)) as [<-|Hne].
  - rewrite lookup_insert_eq in Hs. injection Hs as <-. reflexivity.
  - rewrite lookup_insert_ne in Hs by exact Hne. exact (H s sock Hs).
Qed.

Lemma sendWebSocketMessage_frames m :
  proper_frame (JSON_stringify m) = true ->
  preserves proper_frames (sendWebSocketMessage m).
Proof.
  intros Hm. unfold sendWebSocketMessage, socket_readyState, console_write.
  repeat first
    [ preserve_step
    | apply socket_send_frames; exact Hm
    | apply browser_frames; intros ?; reflexivity ].
Qed.

Hint Resolve cells_frames refs_frames monitor_frames socket_becomes_frames
  new_WebSocket_frames : frames.

Ltac frames_leaf :=
  lazymatch goal with
  | |- preserves _ (on_browser _) => apply browser_frames; intros ?; reflexivity
  | |- preserves _ (sendWebSocketMessage _) =>
      apply sendWebSocketMessage_frames; reflexivity
  | |- preserves _ (socket_send _ (JSON_stringify (if _ then _ else _))) =>
      apply socket_send_frames;
      match goal with |- context [if ?b then _ else _] => destruct b end;
      reflexivity
  | |- _ => solve [auto with frames]
  end.

Ltac frames := repeat first [preserve_step | frames_leaf].

Lemma handleJarvisMessage_frames d :
  preserves proper_frames (handleJarvisMessage d).
Proof.
  destruct d; unfold handleJarvisMessage, addToConversation, startListening,
    stopListening, monitor_called, console_write, setIsWaitingForResponse,
    setCurrentResponse, setAssistantText, setMode, setIntensity,
    setConversationHistory, set_responseRef, set_lastTextInputRef; frames.
Qed.

Lemma connectToJarvis_frames : preserves proper_frames connectToJarvis.
Proof.
  unfold connectToJarvis, scheduleReconnect, setTimeout, clearTimeout,
    socket_readyState, console_write, setIsConnected, set_wsRef,
    set_reconnectTimeoutRef, set_isConnectingRef.
  frames.
Qed.

(** The only text the component sends is the trimmed input, and only
    when it is not empty. *)
Lemma sendTextMessage_frames : preserves proper_frames sendTextMessage.
Proof.
  intros o st H.
  change (snd (sendTextMessage o st))
    with (snd ((if truthy (trim (userText (cells st))) && isConnected (cells st)
                then addToConversation user (trim (userText (cells st))) ;;
                     setIsWaitingForResponse true ;;
                     _ <- sendWebSocketMessage
                            (text_input (trim (userText (cells st)))) ;;
                     setUserText []
                else ret tt) o st)).
  destruct (truthy (trim (userText (cells st)))) eqn:Htext; [|exact H].
  destruct (isConnected (cells st)); [|exact H].
  revert o st H Htext. intros o st H Htext.
  assert (Hproper : proper_frame
            (JSON_stringify (text_input (trim (userText (cells st))))) = true).
  { cbn. rewrite Htext, trim_idempotent.
    rewrite bool_decide_eq_true_2 by reflexivity. reflexivity. }
  generalize dependent (trim (userText (cells st))). intros T _ Hproper.
  revert o st H. change (preserves proper_frames
    (addToConversation user T ;; setIsWaitingForResponse true ;;
     _ <- sendWebSocketMessage (text_input T) ;; setUserText [])).
  unfold addToConversation, setIsWaitingForResponse, setUserText,
    setConversationHistory, set_lastTextInputRef.
  repeat first
    [ apply sendWebSocketMessage_frames; exact Hproper
    | preserve_step | frames_leaf ].
Qed.

Lemma step_frames o e st st' :
  step o e st = Some st' -> proper_frames st -> proper_frames st'.
Proof.
  destruct e; cbn [step]; intros Hstep;
    repeat match type of Hstep with
           | (if ?b then _ else _) = _ => destruct b
           | match ?x with _ => _ end = _ => destruct x
           end;
    try discriminate; injection Hstep as <-; apply preserves_exec.
  all: try apply connectToJarvis_frames.
  all: try apply sendTextMessage_frames.
  all: unfold run_callback, announceMic, onopen, onmessage, onerror, onclose,
    toggleMicrophone, clearConversation, startListening, stopListening,
    scheduleReconnect, setTimeout, clearTimeout, socket_readyState,
    monitor_called, console_write, setIsConnected, setUserText, setMicEnabled,
    setConversationHistory, setCurrentResponse, set_responseRef,
    set_reconnectTimeoutRef, set_isConnectingRef.
  all: repeat first
    [ apply connectToJarvis_frames | apply handleJarvisMessage_frames
    | preserve_step | frames_leaf ].
Qed.

End ProperFrames.

(** X10.  In every execution, every frame handed to any socket is an
    [enable_mic], a [disable_mic], or a [text_input] whose text is not
    empty and has no white space at either end: the component never puts
    a blank or padded text on the wire. *)
Theorem only_proper_frames_sent st s sock :
  reachable st ->
  sockets (browser st) !! s = Some sock ->
  forallb proper_frame (sent sock) = true.
Proof.
  intros [trace Hrun].
  assert (H : proper_frames st).
  { refine (run_invariant proper_frames step_frames trace mounted st Hrun _).
    intros s' sock' Hs. discriminate Hs. }
  apply H.
Qed.

Lemma only_proper_frames_sent_witness :
  let st := after (typed_hi ++ [(at_time 1, Sends)]) in
  reachable st /\
  sockets (browser st) !! 0%nat
    = Some {| readyState := OPEN;
              sent := [JSON_stringify (text_input (js "hi"))] |} /\
  forallb proper_frame [JSON_stringify (text_input (js "hi"))] = true.
Proof.
  assert (Hreach : reachable (after (typed_hi ++ [(at_time 1, Sends)])))
    by (exists (typed_hi ++ [(at_time 1, Sends)]); vm_compute; reflexivity).
  assert (Hs : sockets (browser (after (typed_hi ++ [(at_time 1, Sends)])))
                 !! 0%nat
               = Some {| readyState := OPEN;
                         sent := [JSON_stringify (text_input (js "hi"))] |})
    by (vm_compute; reflexivity).
  split; [exact Hreach|]. split; [exact Hs|].
  exact (only_proper_frames_sent _ 0%nat _ Hreach Hs).
Defined.

(** ** Staying disconnected *)

Create HintDb rest.

Section AtRest.
Variable n : nat.

Lemma cells_rest f : preserves (at_rest n) (on_cells f).
Proof. intros o st H. exact H. Qed.

Lemma refs_rest f : preserves (at_rest n) (on_refs f).
Proof. intros o st H. exact H. Qed.

Lemma monitor_rest f : preserves (at_rest n) (on_monitor f).
Proof. intros o st H. exact H. Qed.

Lemma browser_rest f :
  (forall b, timers (f b) = timers b) ->
  (forall b, nextSocket (f b) = nextSocket b) ->
  preserves (at_rest n) (on_browser f).
Proof.
  intros Ht Hn o st [Hnext Hnone]. unfold at_rest, pending_reconnect in *.
  cbn. rewrite Ht, Hn. split; assumption.
Qed.

Lemma announce_timer_rest d :
  preserves (at_rest n) (setTimeout run_announceMic d).
Proof.
  intros o st [Hnext Hnone]. split; [exact Hnext|].
  intros t. specialize (Hnone t). unfold pending_reconnect in *. cbn.
  destruct (decide (nextTimer (browser st) = t)) as [<-|Hne].
  - rewrite lookup_insert_eq. reflexivity.
  - rewrite lookup_insert_ne by exact Hne. exact Hnone.
Qed.

Lemma clearTimeout_rest h : preserves (at_rest n) (clearTimeout h).
Proof.
  intros o st [Hnext Hnone]. destruct h as [t0|]; [|split; assumption].
  split; [exact Hnext|].
  intros t. specialize (Hnone t). unfold pending_reconnect in *. cbn.
  destruct (decide (t0 = t)) as [<-|Hne].
  - rewrite lookup_delete_eq. reflexivity.
  - rewrite lookup_delete_ne by exact Hne. exact Hnone.
Qed.

Hint Resolve cells_rest refs_rest monitor_rest announce_timer_rest
  clearTimeout_rest : rest.

Ltac rest_leaf :=
  lazymatch goal with
  | |- preserves _ (on_browser _) =>
      apply browser_rest; intros ?; reflexivity
  | |- _ => solve [auto with rest]
  end.

Ltac rest := repeat first [preserve_step | rest_leaf].

Lemma handleJarvisMessage_rest d : preserves (at_rest n) (handleJarvisMessage d).
Proof.
  destruct d; unfold handleJarvisMessage, addToConversation, startListening,
    stopListening, monitor_called, console_write, setIsWaitingForResponse,
    setCurrentResponse, setAssistantText, setMode, setIntensity,
    setConversationHistory, set_responseRef, set_lastTextInputRef; rest.
Qed.

Lemma step_rest o e st st' :
  quiet e = true ->
  step o e st = Some st' -> at_rest n st -> at_rest n st'.
Proof.
  destruct e; cbn [step quiet]; intros Hquiet Hstep Hrest; try discriminate.
  - (* a timer fires: it cannot be a reconnection timer *)
    destruct (timers (browser st) !! t) as [[d cb]|] eqn:Ht; [|discriminate].
    injection Hstep as <-.
    destruct cb.
    + destruct Hrest as [_ Hnone]. specialize (Hnone t).
      unfold pending_reconnect in Hnone. rewrite Ht in Hnone. discriminate.
    + apply preserves_exec; [|exact Hrest].
      cbn [callback run_callback].
      unfold announceMic, socket_readyState, socket_send. rest.
      apply (clearTimeout_rest (Some t)).
  - destruct (is_state CONNECTING (ready st s)); [|discriminate].
    injection Hstep as <-. apply preserves_exec; [|exact Hrest].
    unfold onopen, socket_becomes, console_write, setIsConnected,
      set_reconnectTimeoutRef, set_isConnectingRef. rest.
  - destruct (is_state OPEN (ready st s)); [|discriminate].
    injection Hstep as <-. apply preserves_exec; [|exact Hrest].
    destruct data; unfold onmessage, console_write;
      [apply handleJarvisMessage_rest|rest].
  - destruct (is_state OPEN (ready st s)); [|discriminate].
    injection Hstep as <-. apply preserves_exec; [|exact Hrest].
    unfold socket_becomes. rest.
  - subst wasClean.
    destruct (ready st s) as [[]|]; try discriminate;
      injection Hstep as <-; (apply preserves_exec; [|exact Hrest]);
      unfold onclose, onerror, socket_becomes, socket_readyState,
        console_write, setIsConnected, set_isConnectingRef;
      cbn [negb]; rest.
  - injection Hstep as <-. apply preserves_exec; [|exact Hrest].
    unfold setUserText. rest.
  - injection Hstep as <-. apply preserves_exec; [|exact Hrest].
    unfold sendTextMessage, addToConversation, sendWebSocketMessage,
      socket_readyState, socket_send, console_write, setIsWaitingForResponse,
      setUserText, setConversationHistory, set_lastTextInputRef. rest.
  - injection Hstep as <-. apply preserves_exec; [|exact Hrest].
    unfold toggleMicrophone, startListening, stopListening,
      sendWebSocketMessage, socket_readyState, socket_send, monitor_called,
      console_write, setMicEnabled. rest.
  - injection Hstep as <-. apply preserves_exec; [|exact Hrest].
    unfold clearConversation, setConversationHistory, setCurrentResponse,
      set_responseRef. rest.
Qed.

Lemma run_rest trace : forall st st',
  forallb (fun oe => quiet (snd oe)) trace = true ->
  run trace st = Some st' -> at_rest n st -> at_rest n st'.
Proof.
  induction trace as [|[o e] trace IH]; intros st st' Hquiet Hrun Hrest.
  - injection Hrun as <-. exact Hrest.
  - cbn in Hquiet. apply andb_prop in Hquiet as [He Htrace].
    cbn [run] in Hrun. destruct (step o e st) as [st1|] eqn:Hstep; [|discriminate].
    exact (IH st1 st' Htrace Hrun (step_rest o e st st1 He Hstep Hrest)).
Qed.

End AtRest.

(** X11.  The component never reconnects by itself once no reconnection is
    pending: from a state without a pending reconnection timer, whatever
    happens next, as long as [connectToJarvis] is not called and no
    connection ends uncleanly, no socket is constructed and no
    reconnection timer is armed.  In particular a clean close is final. *)
Theorem no_spontaneous_reconnection trace st st' :
  (forall t, pending_reconnect st t = false) ->
  forallb (fun oe => quiet (snd oe)) trace = true ->
  run trace st = Some st' ->
  nextSocket (browser st') = nextSocket (browser st) /\
  (forall t, pending_reconnect st' t = false).
Proof.
  intros Hnone Hquiet Hrun.
  exact (run_rest (nextSocket (browser st)) trace st st' Hquiet Hrun
           (conj eq_refl Hnone)).
Qed.

Lemma no_spontaneous_reconnection_witness :
  let st := after closed_cleanly in
  let st' := after (closed_cleanly ++ busy_while_closed) in
  (forall t, pending_reconnect st t = false) /\
  forallb (fun oe => quiet (snd oe)) busy_while_closed = true /\
  run busy_while_closed st = Some st' /\
  nextSocket (browser st') = nextSocket (browser st) /\
  (forall t, pending_reconnect st' t = false).
Proof.
  assert (Htimers : timers (browser (after closed_cleanly))
            = <[0%nat := {| delay := 100; callback := run_announceMic |}]> ∅)
    by (vm_compute; reflexivity).
  assert (H1 : forall t, pending_reconnect (after closed_cleanly) t = false).
  { intros t. unfold pending_reconnect. rewrite Htimers.
    destruct (decide (0%nat = t)) as [<-|Hne].
    - rewrite lookup_insert_eq. reflexivity.
    - rewrite lookup_insert_ne, lookup_empty by exact Hne. reflexivity. }
  assert (H2 : forallb (fun oe => quiet (snd oe)) busy_while_closed = true)
    by reflexivity.
  assert (H3 : run busy_while_closed (after closed_cleanly)
               = Some (after (closed_cleanly ++ busy_while_closed)))
    by (vm_compute; reflexivity).
  split; [exact H1|]. split; [exact H2|]. split; [exact H3|].
  exact (no_spontaneous_reconnection busy_while_closed (after closed_cleanly)
           (after (closed_cleanly ++ busy_while_closed)) H1 H2 H3).
Defined.

(** ** Executions in which only the component calls [connectToJarvis] *)

Ltac six := split; [|split; [|split; [|split; [|split]]]].

Section OrderlyObservations.
Variables (rd : nat -> option ReadyState) (ws : option nat)
  (pend : nat -> bool) (rec : option Reconnect) (conn cing : bool).
Hypothesis Hord : orderly_obs rd ws pend rec conn cing.

Lemma orderly_current s : unfinished (rd s) = true ->
  ws = Some s /\ attempt_or_0 rec = 0%nat /\ forall t, pend t = false.
Proof.
  destruct Hord as (Ha & _ & Hb & _). intros Hs.
  pose proof (Ha s Hs) as Hws. split; [exact Hws|].
  apply Hb. rewrite Hws. exact Hs.
Qed.

Lemma orderly_pending t : pend t = true ->
  rec = Some {| attempt := 1; timeout := Some t |} /\
  forall s, unfinished (rd s) = false.
Proof.
  destruct Hord as (Ha & Hd & Hb & _). intros Ht. split; [exact (Hd t Ht)|].
  intros s. destruct (unfinished (rd s)) eqn:Hs; [|reflexivity].
  destruct (orderly_current s Hs) as (_ & _ & Hnone).
  rewrite Hnone in Ht. discriminate.
Qed.

(** A connecting socket opens. *)
Lemma orderly_opens s rd' pend' :
  rd s = Some CONNECTING ->
  (forall s', rd' s' = if decide (s = s') then Some OPEN else rd s') ->
  (forall t, pend' t = true -> pend t = true) ->
  orderly_obs rd' ws pend' (Some {| attempt := 0; timeout := None |}) true false.
Proof.
  intros Hs Hrd Hpend.
  destruct (orderly_current s) as (Hws & _ & Hnone); [rewrite Hs; reflexivity|].
  assert (Hnone' : forall t, pend' t = false).
  { intros t. destruct (pend' t) eqn:Ht; [|reflexivity].
    rewrite <- (Hnone t). symmetry. exact (Hpend t Ht). }
  destruct Hord as (Ha & _). subst ws.
  unfold orderly_obs. rewrite (Hrd s), decide_True by reflexivity. six.
  - intros s'. rewrite Hrd. destruct (decide (s = s')) as [->|]; [reflexivity|].
    apply Ha.
  - intros t Ht. rewrite Hnone' in Ht. discriminate.
  - intros _. split; [reflexivity|exact Hnone'].
  - cbn. lia.
  - reflexivity.
  - discriminate.
Qed.

(** The open socket starts closing. *)
Lemma orderly_starts_closing s rd' :
  rd s = Some OPEN ->
  (forall s', rd' s' = if decide (s = s') then Some CLOSING else rd s') ->
  orderly_obs rd' ws pend rec conn cing.
Proof.
  intros Hs Hrd.
  destruct (orderly_current s) as (Hws & Hzero & Hnone); [rewrite Hs; reflexivity|].
  destruct Hord as (Ha & Hd & _ & Hc & _ & Hg). subst ws.
  rewrite Hs in Hg.
  unfold orderly_obs. rewrite (Hrd s), decide_True by reflexivity. six.
  - intros s'. rewrite Hrd. destruct (decide (s = s')) as [->|]; [reflexivity|].
    apply Ha.
  - exact Hd.
  - intros _. split; [exact Hzero|exact Hnone].
  - exact Hc.
  - reflexivity.
  - exact Hg.
Qed.

(** A socket that was not closed closes; [armed] is the timer an unclean
    close arms. *)
Lemma orderly_closes s rd' pend' rec' (armed : option nat) :
  unfinished (rd s) = true ->
  (forall s', rd' s' = if decide (s = s') then Some CLOSED else rd s') ->
  (forall t, pend' t = true -> armed = Some t \/ pend t = true) ->
  rec' = match armed with
         | Some k => Some {| attempt := attempt_or_0 rec + 1; timeout := Some k |}
         | None => rec
         end ->
  orderly_obs rd' ws pend' rec' false false.
Proof.
  intros Hs Hrd Hpend Hrec.
  destruct (orderly_current s Hs) as (Hws & Hzero & Hnone).
  destruct Hord as (Ha & _). subst ws.
  assert (Hpend' : forall t, pend' t = true -> armed = Some t).
  { intros t Ht. destruct (Hpend t Ht) as [Hk|Hold]; [exact Hk|].
    rewrite Hnone in Hold. discriminate. }
  unfold orderly_obs. rewrite (Hrd s), decide_True by reflexivity. six.
  - intros s'. rewrite Hrd. destruct (decide (s = s')) as [->|]; [reflexivity|].
    apply Ha.
  - intros t Ht. rewrite (Hpend' t Ht) in Hrec. rewrite Hrec, Hzero. reflexivity.
  - discriminate.
  - rewrite Hrec. destruct armed; cbn; lia.
  - discriminate.
  - discriminate.
Qed.

(** Some pending timers go, nothing else changes. *)
Lemma orderly_timers_cleared pend' :
  (forall t, pend' t = true -> pend t = true) ->
  orderly_obs rd ws pend' rec conn cing.
Proof.
  intros Hpend. destruct Hord as (Ha & Hd & Hb & Hc & He & Hg). six.
  - exact Ha.
  - intros t Ht. exact (Hd t (Hpend t Ht)).
  - intros Hcur. destruct (Hb Hcur) as [Hzero Hnone]. split; [exact Hzero|].
    intros t. destruct (pend' t) eqn:Ht; [|reflexivity].
    rewrite <- (Hnone t). symmetry. exact (Hpend t Ht).
  - exact Hc.
  - exact He.
  - exact Hg.
Qed.

(** The recorded reconnection timer fires and [connectToJarvis]
    constructs socket [k]. *)
Lemma orderly_reconnects t k rd' pend' :
  pend t = true ->
  (forall s', rd' s' = if decide (k = s') then Some CONNECTING else rd s') ->
  (forall t', pend' t' = true -> pend t' = true /\ t' <> t) ->
  orderly_obs rd' (Some k) pend' None conn true.
Proof.
  intros Ht Hrd Hpend.
  destruct (orderly_pending t Ht) as (Hrec & Hclosed).
  assert (Hnone' : forall t', pend' t' = false).
  { intros t'. destruct (pend' t') eqn:Ht'; [|reflexivity].
    destruct (Hpend t' Ht') as [Hold Hne].
    destruct (orderly_pending t' Hold) as (Hrec' & _).
    congruence. }
  destruct Hord as (Ha & Hd & Hb & Hc & He & Hg).
  unfold orderly_obs. rewrite (Hrd k), decide_True by reflexivity. six.
  - intros s'. rewrite Hrd. destruct (decide (k = s')) as [->|]; [reflexivity|].
    rewrite Hclosed. discriminate.
  - intros t' Ht'. rewrite Hnone' in Ht'. discriminate.
  - intros _. split; [reflexivity|exact Hnone'].
  - cbn. lia.
  - intros Hconn. specialize (He Hconn).
    destruct ws as [s|]; [|discriminate He].
    specialize (Hclosed s). destruct (rd s) as [[]|]; discriminate.
  - reflexivity.
Qed.

(** The recorded reconnection timer fires and the constructor throws:
    the [catch] arms timer [k]. *)
Lemma orderly_throws t k pend' :
  pend t = true ->
  (forall t', pend' t' = true -> k = t' \/ (pend t' = true /\ t' <> t)) ->
  orderly_obs rd ws pend' (Some {| attempt := 1; timeout := Some k |})
    false false.
Proof.
  intros Ht Hpend.
  destruct (orderly_pending t Ht) as (Hrec & Hclosed).
  destruct Hord as (Ha & Hd & Hb & Hc & He & Hg). six.
  - exact Ha.
  - intros t' Ht'. destruct (Hpend t' Ht') as [<-|[Hold Hne]]; [reflexivity|].
    destruct (orderly_pending t' Hold) as (Hrec' & _). congruence.
  - intros Hcur. exfalso. destruct ws as [s|]; [|discriminate Hcur].
    rewrite Hclosed in Hcur. discriminate.
  - cbn. lia.
  - discriminate.
  - discriminate.
Qed.

End OrderlyObservations.

Lemma orderly_obs_ext rd rd' ws pend pend' rec conn cing :
  (forall s, rd' s = rd s) -> (forall t, pend' t = pend t) ->
  orderly_obs rd ws pend rec conn cing ->
  orderly_obs rd' ws pend' rec conn cing.
Proof.
  intros Hrd Hpend (Ha & Hd & Hb & Hc & He & Hg). unfold orderly_obs.
  assert (Hcur : match ws with Some s => rd' s | None => None end
                 = match ws with Some s => rd s | None => None end)
    by (destruct ws; [apply Hrd|reflexivity]).
  rewrite Hcur. six.
  - intros s. rewrite Hrd. apply Ha.
  - intros t. rewrite Hpend. apply Hd.
  - intros Hu. destruct (Hb Hu) as [Hzero Hnone]. split; [exact Hzero|].
    intros t. rewrite Hpend. apply Hnone.
  - exact Hc.
  - exact He.
  - exact Hg.
Qed.

Lemma orderly_same st0 st :
  same_connection st0 st -> orderly st0 -> orderly st.
Proof.
  intros (Hrd & Hws & Ht & Hrec & Hconn & Hcing) H. unfold orderly.
  rewrite Hws, Hrec, Hconn, Hcing.
  apply (orderly_obs_ext (ready st0) _ _ (pending_reconnect st0)); [exact Hrd| |exact H].
  intros t. unfold pending_reconnect. rewrite Ht. reflexivity.
Qed.

Create HintDb same.

Section SameConnection.
Variable st0 : State.

Lemma cells_same f :
  (forall c, isConnected (f c) = isConnected c) ->
  preserves (same_connection st0) (on_cells f).
Proof.
  intros Hf o st (Hrd & Hws & Ht & Hrec & Hconn & Hcing).
  repeat apply conj; try assumption. cbn. rewrite Hf. exact Hconn.
Qed.

Lemma refs_same f :
  (forall r, wsRef (f r) = wsRef r) ->
  (forall r, reconnectTimeoutRef (f r) = reconnectTimeoutRef r) ->
  (forall r, isConnectingRef (f r) = isConnectingRef r) ->
  preserves (same_connection st0) (on_refs f).
Proof.
  intros H1 H2 H3 o st (Hrd & Hws & Ht & Hrec & Hconn & Hcing).
  repeat apply conj; try assumption; cbn.
  - rewrite H1. exact Hws.
  - rewrite H2. exact Hrec.
  - rewrite H3. exact Hcing.
Qed.

Lemma monitor_same f : preserves (same_connection st0) (on_monitor f).
Proof. intros o st H. exact H. Qed.

Lemma browser_same f :
  (forall b, sockets (f b) = sockets b) ->
  (forall b, timers (f b) = timers b) ->
  preserves (same_connection st0) (on_browser f).
Proof.
  intros H1 H2 o st (Hrd & Hws & Ht & Hrec & Hconn & Hcing).
  repeat apply conj; try assumption.
  - intros s. unfold ready. cbn. rewrite H1. apply Hrd.
  - cbn. rewrite H2. exact Ht.
Qed.

Lemma socket_send_same s frame :
  preserves (same_connection st0) (socket_send s frame).
Proof.
  intros o st (Hrd & Hws & Ht & Hrec & Hconn & Hcing).
  repeat apply conj; try assumption.
  intros s'. rewrite <- Hrd. unfold ready. cbn. rewrite lookup_alter.
  destruct (decide (s = s')) as [<-|]; [|reflexivity].
  destruct (sockets (browser st) !! s); reflexivity.
Qed.

Hint Resolve monitor_same socket_send_same : same.

Ltac same_leaf :=
  lazymatch goal with
  | |- preserves _ (on_cells _) => apply cells_same; intros ?; reflexivity
  | |- preserves _ (on_refs _) => apply refs_same; intros ?; reflexivity
  | |- preserves _ (on_browser _) => apply browser_same; intros ?; reflexivity
  | |- _ => solve [auto with same]
  end.

Ltac same := repeat first [preserve_step | same_leaf].

Lemma handleJarvisMessage_same d :
  preserves (same_connection st0) (handleJarvisMessage d).
Proof.
  destruct d; unfold handleJarvisMessage, addToConversation, startListening,
    stopListening, monitor_called, console_write, setIsWaitingForResponse,
    setCurrentResponse, setAssistantText, setMode, setIntensity,
    setConversationHistory, set_responseRef, set_lastTextInputRef; same.
Qed.

Lemma announceMic_same : preserves (same_connection st0) announceMic.
Proof. unfold announceMic, socket_readyState. same. Qed.

Lemma sendTextMessage_same : preserves (same_connection st0) sendTextMessage.
Proof.
  unfold sendTextMessage, addToConversation, sendWebSocketMessage,
    socket_readyState, console_write, setIsWaitingForResponse,
    setUserText, setConversationHistory, set_lastTextInputRef. same.
Qed.

Lemma toggleMicrophone_same : preserves (same_connection st0) toggleMicrophone.
Proof.
  unfold toggleMicrophone, startListening, stopListening,
    sendWebSocketMessage, socket_readyState, monitor_called,
    console_write, setMicEnabled. same.
Qed.

Lemma clearConversation_same : preserves (same_connection st0) clearConversation.
Proof.
  unfold clearConversation, setConversationHistory, setCurrentResponse,
    set_responseRef. same.
Qed.

Lemma onmessage_same data : preserves (same_connection st0) (onmessage data).
Proof.
  destruct data as [d|]; cbn [onmessage];
    [apply handleJarvisMessage_same|unfold console_write; same].
Qed.

Lemma setUserText_same t : preserves (same_connection st0) (setUserText t).
Proof. unfold setUserText. same. Qed.

Lemma onerror_same_but_flags o st :
  let st' := exec onerror o st in
  (forall s, ready st' s = ready st s) /\
  wsRef (refs st') = wsRef (refs st) /\
  timers (browser st') = timers (browser st) /\
  reconnectTimeoutRef (refs st') = reconnectTimeoutRef (refs st) /\
  nextTimer (browser st') = nextTimer (browser st) /\
  nextSocket (browser st') = nextSocket (browser st).
Proof. repeat apply conj; reflexivity. Qed.

End SameConnection.

Lemma same_connection_refl st : same_connection st st.
Proof. repeat apply conj; reflexivity. Qed.

Ltac lookups :=
  repeat first
    [ rewrite lookup_alter | rewrite lookup_insert | rewrite lookup_delete ].

Lemma opens_orderly o st s st' :
  step o (SocketOpens s) st = Some st' -> orderly st -> orderly st'.
Proof.
  cbn [step]. destruct (ready st s) as [[]|] eqn:Hs; try discriminate.
  cbn [is_state]. intros [= <-] Hord.
  refine (orderly_opens _ _ _ _ _ _ Hord s _ _ Hs _ _).
  - intros s'. unfold ready in *. cbn. lookups.
    destruct (decide (s = s')) as [<-|]; [|reflexivity].
    destruct (sockets (browser st) !! s); [reflexivity|discriminate].
  - intros t. unfold pending_reconnect. cbn. lookups.
    destruct (decide (nextTimer (browser st) = t)); [discriminate|].
    intros H. exact H.
Qed.

Lemma starts_closing_orderly o st s st' :
  step o (SocketStartsClosing s) st = Some st' -> orderly st -> orderly st'.
Proof.
  cbn [step]. destruct (ready st s) as [[]|] eqn:Hs; try discriminate.
  cbn [is_state]. intros [= <-] Hord.
  refine (orderly_starts_closing _ _ _ _ _ _ Hord s _ Hs _).
  intros s'. unfold ready in *. cbn. lookups.
  destruct (decide (s = s')) as [<-|]; [|reflexivity].
  destruct (sockets (browser st) !! s); [reflexivity|discriminate].
Qed.

Lemma close_observed o st s (wasClean failed : bool) :
  let st' := exec (socket_becomes s CLOSED ;;
                   (if failed then onerror else ret tt) ;;
                   onclose wasClean) o st in
  (forall s', ready st' s' =
     if decide (s = s')
     then match ready st s with Some _ => Some CLOSED | None => None end
     else ready st s') /\
  wsRef (refs st') = wsRef (refs st) /\
  (forall t, pending_reconnect st' t =
     if wasClean then pending_reconnect st t
     else if decide (nextTimer (browser st) = t) then true
          else pending_reconnect st t) /\
  reconnectTimeoutRef (refs st') =
    (if wasClean then reconnectTimeoutRef (refs st)
     else Some {| attempt := attempt_or_0 (reconnectTimeoutRef (refs st)) + 1;
                  timeout := Some (nextTimer (browser st)) |}) /\
  isConnected (cells st') = false /\
  isConnectingRef (refs st') = false.
Proof.
  open_state st.
  destruct wasClean, failed; evaluate_more; repeat apply conj;
    try reflexivity; intros x; lookups;
    repeat match goal with
           | |- context [decide ?P] => destruct (decide P)
           end; try reflexivity;
    destruct (b_sockets !! s); reflexivity.
Qed.

Lemma closes_orderly o st s wasClean failed st' :
  step o (SocketCloses s wasClean failed) st = Some st' ->
  orderly st -> orderly st'.
Proof.
  cbn [step]. intros Hstep Hord.
  assert (Hs : unfinished (ready st s) = true)
    by (destruct (ready st s) as [[]|]; try discriminate; reflexivity).
  assert (Hst' : st' = exec (socket_becomes s CLOSED ;;
                             (if failed then onerror else ret tt) ;;
                             onclose wasClean) o st)
    by (destruct (ready st s) as [[]|]; try discriminate; congruence).
  clear Hstep.
  destruct (close_observed o st s wasClean failed)
    as (Hrd & Hws & Hpend & Hrec & Hconn & Hcing).
  rewrite <- Hst' in *. clear Hst'.
  unfold orderly. rewrite Hws, Hconn, Hcing.
  apply (orderly_closes _ _ _ _ _ _ Hord s _ _ _
           (if wasClean then None else Some (nextTimer (browser st))) Hs).
  - intros s'. rewrite Hrd. destruct (decide (s = s')); [|reflexivity].
    destruct (ready st s); [reflexivity|discriminate].
  - intros t. rewrite Hpend. destruct wasClean; [right; assumption|].
    destruct (decide (nextTimer (browser st) = t)) as [<-|];
      [left; reflexivity|right; assumption].
  - rewrite Hrec. destruct wasClean; reflexivity.
Qed.

Lemma timer_cleared_orderly o st t :
  orderly st -> orderly (exec (clearTimeout (Some t)) o st).
Proof.
  intros Hord. unfold orderly.
  apply (orderly_timers_cleared _ _ _ _ _ _ Hord).
  intros t'. unfold pending_reconnect. cbn. lookups.
  destruct (decide (t = t')); [discriminate|]. intros H. exact H.
Qed.

Lemma reconnect_observed o st t :
  reconnectTimeoutRef (refs st) = Some {| attempt := 1; timeout := Some t |} ->
  isConnectingRef (refs st) = false ->
  unfinished (current_ready st) = false ->
  let st' := exec (clearTimeout (Some t) ;; connectToJarvis) o st in
  if constructorThrows o
  then (forall s, ready st' s = ready st s) /\
       wsRef (refs st') = wsRef (refs st) /\
       (forall t', pending_reconnect st' t' =
          if decide (nextTimer (browser st) = t') then true
          else if decide (t = t') then false else pending_reconnect st t') /\
       reconnectTimeoutRef (refs st') =
         Some {| attempt := 1; timeout := Some (nextTimer (browser st)) |} /\
       isConnected (cells st') = false /\
       isConnectingRef (refs st') = false
  else (forall s, ready st' s =
          if decide (nextSocket (browser st) = s) then Some CONNECTING
          else ready st s) /\
       wsRef (refs st') = Some (nextSocket (browser st)) /\
       (forall t', pending_reconnect st' t' =
          if decide (t = t') then false else pending_reconnect st t') /\
       reconnectTimeoutRef (refs st') = None /\
       isConnected (cells st') = isConnected (cells st) /\
       isConnectingRef (refs st') = true.
Proof.
  intros Hrec Hcing Hcur. unfold current_ready, ready in Hcur.
  open_state st. subst r_reconnect r_connecting.
  destruct o as [o_now o_mic o_throws].
  destruct r_ws as [s|]; [destruct (b_sockets !! s) as [[[] ?]|] eqn:Hsock|];
    cbn in Hcur; try discriminate Hcur; clear Hcur;
    destruct o_throws; evaluate_more; rewrite ?Hsock;
    repeat apply conj; try reflexivity.
  all: try (intros x; lookups;
    repeat match goal with
           | |- context [decide ?P] => destruct (decide P)
           end; try reflexivity; try congruence).
Qed.

Lemma timer_fires_orderly o st t st' :
  step o (TimerFires t) st = Some st' -> orderly st -> orderly st'.
Proof.
  cbn [step].
  destruct (timers (browser st) !! t) as [[d cb]|] eqn:Ht; [|discriminate].
  intros [= <-] Hord. cbn [callback]. destruct cb; cbn [run_callback].
  - assert (Hp : pending_reconnect st t = true)
      by (unfold pending_reconnect; rewrite Ht; reflexivity).
    destruct (orderly_pending _ _ _ _ _ _ Hord t Hp) as (Hrec & Hclosed).
    assert (Hcur : unfinished (current_ready st) = false).
    { unfold current_ready. destruct (wsRef (refs st)); [apply Hclosed|reflexivity]. }
    assert (Hcing : isConnectingRef (refs st) = false).
    { destruct Hord as (_ & _ & _ & _ & _ & Hg).
      destruct (isConnectingRef (refs st)); [|reflexivity].
      specialize (Hg eq_refl). fold (current_ready st) in Hg.
      destruct (current_ready st) as [[]|]; discriminate. }
    pose proof (reconnect_observed o st t Hrec Hcing Hcur) as Hobs.
    cbv zeta in Hobs.
    set (st' := exec (clearTimeout (Some t) ;; connectToJarvis) o st) in *.
    change (orderly st'). clearbody st'. unfold orderly.
    destruct (constructorThrows o);
      destruct Hobs as (Hrd' & Hws' & Hpend' & Hrec' & Hconn' & Hcing');
      rewrite Hws', Hrec', Hconn', Hcing'.
    + apply (orderly_obs_ext (ready st) _ _ (pending_reconnect st'));
        [exact Hrd'|reflexivity|].
      apply (orderly_throws _ _ _ _ _ _ Hord t _ _ Hp).
      intros t'. rewrite Hpend'.
      destruct (decide (nextTimer (browser st) = t')); [left; assumption|].
      destruct (decide (t = t')); [discriminate|]. right. split; congruence.
    + apply (orderly_reconnects _ _ _ _ _ _ Hord t _ _ _ Hp Hrd').
      intros t'. rewrite Hpend'.
      destruct (decide (t = t')); [discriminate|]. split; congruence.
  - change (orderly (exec (clearTimeout (Some t) ;; announceMic) o st)).
    rewrite exec_then.
    set (st1 := exec (clearTimeout (Some t)) o st).
    apply (orderly_same st1).
    + exact (announceMic_same st1 o st1 (same_connection_refl st1)).
    + apply timer_cleared_orderly. exact Hord.
Qed.

(** The events of the user and the frames received leave the connection
    as it is. *)
Lemma user_events_same o e st st' :
  match e with
  | SocketReceives _ _ | Types _ | Sends | TogglesMic | Clears => True
  | _ => False
  end ->
  step o e st = Some st' -> same_connection st st'.
Proof.
  destruct e as [|t|s|s data|s|s wasClean failed|t| | |]; intros [];
    cbn [step]; try (destruct (is_state OPEN (ready st s)); [|discriminate]);
    intros [= <-].
  - exact (onmessage_same st data o st (same_connection_refl st)).
  - exact (setUserText_same st t o st (same_connection_refl st)).
  - exact (sendTextMessage_same st o st (same_connection_refl st)).
  - exact (toggleMicrophone_same st o st (same_connection_refl st)).
  - exact (clearConversation_same st o st (same_connection_refl st)).
Qed.

Lemma mount_orderly o : orderly (exec connectToJarvis o mounted).
Proof.
  destruct o as [o_now o_mic []]; unfold orderly, orderly_obs;
    evaluate_more; cbn; six.
  all: repeat match goal with
              | |- forall _, _ => intro
              | |- _ /\ _ => split
              end.
  all: rewrite ?lookup_insert, ?lookup_empty in *.
  all: repeat match goal with
              | |- context [decide ?P] => destruct (decide P)
              | H : context [decide ?P] |- _ => destruct (decide P)
              end.
  all: cbn in *; try discriminate; try congruence; try lia.
Qed.

Lemma step_orderly o e st st' :
  external_call e = false -> step o e st = Some st' ->
  orderly st -> orderly st'.
Proof.
  destruct e as [|t|s|s data|s|s wasClean failed|t| | |];
    intros He Hstep Hord; try discriminate He.
  - exact (timer_fires_orderly o st t st' Hstep Hord).
  - exact (opens_orderly o st s st' Hstep Hord).
  - exact (orderly_same st st'
             (user_events_same o (SocketReceives s data) st st' I Hstep) Hord).
  - exact (starts_closing_orderly o st s st' Hstep Hord).
  - exact (closes_orderly o st s wasClean failed st' Hstep Hord).
  - exact (orderly_same st st'
             (user_events_same o (Types t) st st' I Hstep) Hord).
  - exact (orderly_same st st' (user_events_same o Sends st st' I Hstep) Hord).
  - exact (orderly_same st st'
             (user_events_same o TogglesMic st st' I Hstep) Hord).
  - exact (orderly_same st st' (user_events_same o Clears st st' I Hstep) Hord).
Qed.

Lemma run_orderly trace : forall st st',
  own_reconnections trace = true -> run trace st = Some st' ->
  orderly st -> orderly st'.
Proof.
  induction trace as [|[o e] trace IH]; intros st st' Hown Hrun Hord.
  - injection Hrun as <-. exact Hord.
  - cbn [own_reconnections forallb snd] in Hown.
    apply andb_prop in Hown as [He Hown].
    apply negb_true_iff in He.
    cbn [run] in Hrun. destruct (step o e st) as [st1|] eqn:Hstep; [|discriminate].
    exact (IH st1 st' Hown Hrun (step_orderly o e st st1 He Hstep Hord)).
Qed.

Lemma mounted_run_orderly o trace st :
  own_reconnections trace = true ->
  run ((o, Connect) :: trace) mounted = Some st ->
  orderly st.
Proof.
  intros Hown Hrun. cbn [run step] in Hrun.
  exact (run_orderly trace _ st Hown Hrun (mount_orderly o)).
Qed.

(** X12.  As long as [connectToJarvis] is called only by the mount effect
    and by the component's own reconnection timers, there is one connection
    at a time: a socket that is not closed is the one [wsRef] holds, a
    pending reconnection timer is the one recorded in
    [reconnectTimeoutRef], as attempt 1, and no reconnection is pending
    while a socket is not closed. *)
Theorem one_connection_at_a_time o trace st :
  own_reconnections trace = true ->
  run ((o, Connect) :: trace) mounted = Some st ->
  (forall s, not_closed st s = true -> wsRef (refs st) = Some s) /\
  (forall t, pending_reconnect st t = true ->
     reconnectTimeoutRef (refs st)
       = Some {| attempt := 1; timeout := Some t |}) /\
  (forall s t, not_closed st s = true -> pending_reconnect st t = false).
Proof.
  intros Hown Hrun.
  pose proof (mounted_run_orderly o trace st Hown Hrun) as Hord.
  split; [|split].
  - intros s Hs. exact (proj1 (orderly_current _ _ _ _ _ _ Hord s Hs)).
  - intros t Ht. exact (proj1 (orderly_pending _ _ _ _ _ _ Hord t Ht)).
  - intros s t Hs.
    exact (proj2 (proj2 (orderly_current _ _ _ _ _ _ Hord s Hs)) t).
Qed.

Lemma one_connection_at_a_time_witness :
  let st := after ((at_time 0, Connect) :: lost_and_retried) in
  own_reconnections lost_and_retried = true /\
  run ((at_time 0, Connect) :: lost_and_retried) mounted = Some st /\
  (forall s, not_closed st s = true -> wsRef (refs st) = Some s) /\
  (forall t, pending_reconnect st t = true ->
     reconnectTimeoutRef (refs st)
       = Some {| attempt := 1; timeout := Some t |}) /\
  (forall s t, not_closed st s = true -> pending_reconnect st t = false).
Proof.
  assert (H1 : own_reconnections lost_and_retried = true) by reflexivity.
  assert (H2 : run ((at_time 0, Connect) :: lost_and_retried) mounted
               = Some (after ((at_time 0, Connect) :: lost_and_retried)))
    by (vm_compute; reflexivity).
  split; [exact H1|]. split; [exact H2|].
  exact (one_connection_at_a_time (at_time 0) lost_and_retried _ H1 H2).
Defined.

(** X13.  In the same executions the two connection flags follow the
    current socket: [isConnected] is true only while the socket of [wsRef]
    is open or closing, and [isConnectingRef] only while it is
    connecting. *)
Theorem flags_follow_the_socket o trace st :
  own_reconnections trace = true ->
  run ((o, Connect) :: trace) mounted = Some st ->
  (isConnected (cells st) = true ->
   is_state OPEN (current_ready st) || is_state CLOSING (current_ready st)
     = true) /\
  (isConnectingRef (refs st) = true ->
   is_state CONNECTING (current_ready st) = true).
Proof.
  intros Hown Hrun.
  destruct (mounted_run_orderly o trace st Hown Hrun)
    as (_ & _ & _ & _ & He & Hg).
  split; [exact He|exact Hg].
Qed.

Lemma flags_follow_the_socket_witness :
  let st := after ((at_time 0, Connect) :: then_opened) in
  own_reconnections then_opened = true /\
  run ((at_time 0, Connect) :: then_opened) mounted = Some st /\
  (isConnected (cells st) = true ->
   is_state OPEN (current_ready st) || is_state CLOSING (current_ready st)
     = true) /\
  (isConnectingRef (refs st) = true ->
   is_state CONNECTING (current_ready st) = true).
Proof.
  assert (H1 : own_reconnections then_opened = true) by reflexivity.
  assert (H2 : run ((at_time 0, Connect) :: then_opened) mounted
               = Some (after ((at_time 0, Connect) :: then_opened)))
    by (vm_compute; reflexivity).
  split; [exact H1|]. split; [exact H2|].
  exact (flags_follow_the_socket (at_time 0) then_opened _ H1 H2).
Defined.

(** X14.  In the same executions every unclean close, whenever it comes,
    arms its reconnection with the base delay of 10000 ms and records
    attempt 1: the recorded attempt is 0 whenever a socket is not closed,
    so the exponent of the backoff is always 0. *)
Theorem unclean_close_waits_base_delay o trace st o' s failed st' :
  own_reconnections trace = true ->
  run ((o, Connect) :: trace) mounted = Some st ->
  step o' (SocketCloses s false failed) st = Some st' ->
  timers (browser st') !! nextTimer (browser st)
    = Some {| delay := 10000; callback := run_connectToJarvis |} /\
  reconnectTimeoutRef (refs st')
    = Some {| attempt := 1; timeout := Some (nextTimer (browser st)) |}.
Proof.
  intros Hown Hrun Hstep.
  pose proof (mounted_run_orderly o trace st Hown Hrun) as Hord.
  cbn [step] in Hstep.
  assert (Hs : unfinished (ready st s) = true)
    by (destruct (ready st s) as [[]|]; try discriminate; reflexivity).
  assert (Hst' : st' = exec (socket_becomes s CLOSED ;;
                             (if failed then onerror else ret tt) ;;
                             onclose false) o' st)
    by (destruct (ready st s) as [[]|]; try discriminate; congruence).
  destruct (orderly_current _ _ _ _ _ _ Hord s Hs) as (_ & Hzero & _).
  clear Hstep Hord Hrun Hs. subst st'. revert Hzero. open_state st.
  intros Hzero.
  destruct failed; evaluate_more; rewrite lookup_insert_eq;
    destruct r_reconnect as [[a h]|]; cbn in Hzero |- *; subst;
    split; reflexivity.
Qed.

Lemma unclean_close_waits_base_delay_witness :
  let st := after ((at_time 0, Connect) :: then_opened) in
  let st' := after ((at_time 0, Connect) :: then_opened
                    ++ [(at_time 1, SocketCloses 0 false true)]) in
  own_reconnections then_opened = true /\
  run ((at_time 0, Connect) :: then_opened) mounted = Some st /\
  step (at_time 1) (SocketCloses 0 false true) st = Some st' /\
  timers (browser st') !! nextTimer (browser st)
    = Some {| delay := 10000; callback := run_connectToJarvis |} /\
  reconnectTimeoutRef (refs st')
    = Some {| attempt := 1; timeout := Some (nextTimer (browser st)) |}.
Proof.
  assert (H1 : own_reconnections then_opened = true) by reflexivity.
  assert (H2 : run ((at_time 0, Connect) :: then_opened) mounted
               = Some (after ((at_time 0, Connect) :: then_opened)))
    by (vm_compute; reflexivity).
  assert (H3 : step (at_time 1) (SocketCloses 0 false true)
                 (after ((at_time 0, Connect) :: then_opened))
               = Some (after ((at_time 0, Connect) :: then_opened
                              ++ [(at_time 1, SocketCloses 0 false true)])))
    by (vm_compute; reflexivity).
  split; [exact H1|]. split; [exact H2|]. split; [exact H3|].
  exact (unclean_close_waits_base_delay (at_time 0) then_opened _ (at_time 1)
           0%nat true _ H1 H2 H3).
Defined.

(** ** Unmounting *)

Lemma unmount_observed o st :
  let st' := exec unmount o st in
  nextSocket (browser st') = nextSocket (browser st) /\
  wsRef (refs st') = None /\
  (forall s, ready st' s =
     if decide (wsRef (refs st) = Some s)
     then match ready st s with
          | Some CONNECTING | Some OPEN => Some CLOSING
          | r => r
          end
     else ready st s) /\
  (forall t, pending_reconnect st' t = true ->
     pending_reconnect st t = true /\
     reconnectTimeoutRef (refs st)
       <> Some {| attempt := 1; timeout := Some t |}) /\
  (forall s, sent_on st' s = sent_on st s).
Proof.
  open_state st. unfold unmount, socket_close, sent_on.
  destruct r_reconnect as [[a [t0|]]|]; destruct r_ws as [s0|];
    evaluate_more; repeat apply conj; try reflexivity; intros x; lookups.
  all: repeat match goal with
              | |- context [decide ?P] => destruct (decide P)
              end; subst; try congruence.
  all: try (destruct (b_sockets !! x) as [[[] ?]|]; reflexivity).
  all: try (intros H; split; [exact H|congruence]).
Qed.

Lemma unmount_torn_down o st :
  orderly st -> torn_down (wsRef (refs st)) st (exec unmount o st).
Proof.
  intros Hord.
  destruct (unmount_observed o st) as (Hnext & Hws & Hrd & Hpend & Hsent).
  set (st' := exec unmount o st) in *. clearbody st'.
  assert (Hclosed : forall s, wsRef (refs st) <> Some s ->
                              unfinished (ready st s) = false).
  { intros s Hne. destruct (unfinished (ready st s)) eqn:Hs; [|reflexivity].
    destruct (orderly_current _ _ _ _ _ _ Hord s Hs) as (Hcur & _).
    contradiction. }
  unfold torn_down. six.
  - exact Hnext.
  - intros t. destruct (pending_reconnect st' t) eqn:Ht; [|reflexivity].
    destruct (Hpend t Ht) as [Hold Hne].
    destruct (orderly_pending _ _ _ _ _ _ Hord t Hold) as (Hrec & _).
    contradiction.
  - exact Hws.
  - intros s. unfold live. rewrite Hrd.
    destruct (decide (wsRef (refs st) = Some s)) as [_|Hne].
    + destruct (ready st s) as [[]|]; reflexivity.
    + specialize (Hclosed s Hne). destruct (ready st s) as [[]|];
        (reflexivity || discriminate).
  - intros s. rewrite Hrd.
    destruct (decide (wsRef (refs st) = Some s)) as [Heq|Hne];
      [intros _; exact Heq|].
    rewrite (Hclosed s Hne). discriminate.
  - exact Hsent.
Qed.

Lemma detached_close_observed o st s (failed : bool) :
  let st' := exec (socket_becomes s CLOSED ;;
                   (if failed then onerror else ret tt)) o st in
  nextSocket (browser st') = nextSocket (browser st) /\
  timers (browser st') = timers (browser st) /\
  wsRef (refs st') = wsRef (refs st) /\
  (forall s', ready st' s' =
     if decide (s = s')
     then match ready st s with Some _ => Some CLOSED | None => None end
     else ready st s') /\
  (forall s', sent_on st' s' = sent_on st s').
Proof.
  unfold sent_on. open_state st.
  destruct failed; evaluate_more; repeat apply conj; try reflexivity;
    intros x; lookups;
    (destruct (decide (s = x)) as [<-|]; [|reflexivity]);
    destruct (b_sockets !! s); reflexivity.
Qed.

Lemma late_announcement_observed o st t :
  wsRef (refs st) = None ->
  let st' := exec (clearTimeout (Some t) ;; announceMic) o st in
  nextSocket (browser st') = nextSocket (browser st) /\
  timers (browser st') = delete t (timers (browser st)) /\
  wsRef (refs st') = None /\
  sockets (browser st') = sockets (browser st).
Proof.
  open_state st. intros ->. evaluate_more. repeat apply conj; reflexivity.
Qed.

Lemma step_unmounted_torn_down d st0 o e st st' :
  step_unmounted d o e st = Some st' ->
  torn_down d st0 st -> torn_down d st0 st'.
Proof.
  intros Hstep (Hnext & Hnone & Hws & Hlive & Hdet & Hsent).
  assert (Hopen : forall s, is_state OPEN (ready st s) = false).
  { intros s. specialize (Hlive s). unfold live in Hlive.
    apply orb_false_elim in Hlive. apply Hlive. }
  assert (Hconn : forall s, is_state CONNECTING (ready st s) = false).
  { intros s. specialize (Hlive s). unfold live in Hlive.
    apply orb_false_elim in Hlive. apply Hlive. }
  assert (Hcloses : forall s (failed : bool),
    torn_down d st0 (exec (socket_becomes s CLOSED ;;
                           (if failed then onerror else ret tt)) o st)).
  { intros s failed.
    destruct (detached_close_observed o st s failed)
      as (Hnext' & Htimers' & Hws' & Hrd' & Hsent').
    set (st1 := exec _ o st) in *. clearbody st1. unfold torn_down. six.
    - congruence.
    - intros t. unfold pending_reconnect in *. rewrite Htimers'. apply Hnone.
    - congruence.
    - intros x. unfold live in *. rewrite Hrd'.
      destruct (decide (s = x)); [|apply Hlive].
      destruct (ready st s); reflexivity.
    - intros x. rewrite Hrd'. destruct (decide (s = x)); [|apply Hdet].
      destruct (ready st s); discriminate.
    - intros x. rewrite Hsent'. apply Hsent. }
  destruct e as [|t|s|s data|s|s wasClean failed|t| | |];
    cbn [step_unmounted step] in Hstep; try discriminate Hstep;
    try (rewrite Hopen in Hstep; discriminate Hstep);
    try (rewrite Hconn in Hstep; discriminate Hstep).
  - destruct (timers (browser st) !! t) as [[dl cb]|] eqn:Ht; [|discriminate].
    injection Hstep as <-. destruct cb.
    + specialize (Hnone t). unfold pending_reconnect in Hnone.
      rewrite Ht in Hnone. discriminate.
    + cbn [callback run_callback].
      destruct (late_announcement_observed o st t Hws)
        as (Hnext' & Htimers' & Hws' & Hsock').
      set (st1 := exec _ o st) in *. clearbody st1. unfold torn_down. six.
      * congruence.
      * intros x. unfold pending_reconnect in *. rewrite Htimers'.
        rewrite lookup_delete. destruct (decide (t = x)); [reflexivity|].
        apply Hnone.
      * exact Hws'.
      * intros x. unfold live, ready in *. rewrite Hsock'. apply Hlive.
      * intros x. unfold ready in *. rewrite Hsock'. apply Hdet.
      * intros x. unfold sent_on in *. rewrite Hsock'. apply Hsent.
  - destruct (bool_decide (d = Some s)) eqn:Hd.
    + destruct (ready st s) as [[]|]; try discriminate;
        injection Hstep as <-; apply Hcloses.
    + apply bool_decide_eq_false in Hd.
      destruct (unfinished (ready st s)) eqn:Hs.
      * elim Hd. apply Hdet. exact Hs.
      * destruct (ready st s) as [[]|]; discriminate.
Qed.

Lemma run_unmounted_torn_down d st0 trace : forall st st',
  run_unmounted d trace st = Some st' ->
  torn_down d st0 st -> torn_down d st0 st'.
Proof.
  induction trace as [|[o e] trace IH]; intros st st' Hrun Hdown.
  - injection Hrun as <-. exact Hdown.
  - cbn [run_unmounted] in Hrun.
    destruct (step_unmounted d o e st) as [st1|] eqn:Hstep; [|discriminate].
    exact (IH st1 st' Hrun (step_unmounted_torn_down d st0 o e st st1 Hstep Hdown)).
Qed.

(** X15.  Unmounting is final when [connectToJarvis] was called only by
    the mount effect and the component's own timers: the cleanup cancels
    the pending reconnection, if any, and leaves no socket connecting or
    open; and whatever the sockets and the remaining timers do afterwards
    (the detached socket closing, with or without an error, the
    announcement timer firing), no socket is constructed, no reconnection is
    armed and no frame is sent. *)
Theorem unmount_is_final o trace st o1 after_unmount st2 :
  own_reconnections trace = true ->
  run ((o, Connect) :: trace) mounted = Some st ->
  run_unmounted (wsRef (refs st)) after_unmount (exec unmount o1 st)
    = Some st2 ->
  nextSocket (browser st2) = nextSocket (browser st) /\
  (forall t, pending_reconnect st2 t = false) /\
  wsRef (refs st2) = None /\
  (forall s, live st2 s = false) /\
  (forall s, sent_on st2 s = sent_on st s).
Proof.
  intros Hown Hrun Hafter.
  pose proof (mounted_run_orderly o trace st Hown Hrun) as Hord.
  destruct (run_unmounted_torn_down (wsRef (refs st)) st after_unmount _ st2
              Hafter (unmount_torn_down o1 st Hord))
    as (Hnext & Hnone & Hws & Hlive & _ & Hsent).
  repeat apply conj; assumption.
Qed.

Lemma unmount_is_final_witness :
  let st := after ((at_time 0, Connect) :: opened_and_announced) in
  let st2 := default mounted
               (run_unmounted (Some 0%nat) closes_after_unmount
                  (exec unmount (at_time 200) st)) in
  own_reconnections opened_and_announced = true /\
  run ((at_time 0, Connect) :: opened_and_announced) mounted = Some st /\
  run_unmounted (wsRef (refs st)) closes_after_unmount
    (exec unmount (at_time 200) st) = Some st2 /\
  nextSocket (browser st2) = nextSocket (browser st) /\
  (forall t, pending_reconnect st2 t = false) /\
  wsRef (refs st2) = None /\
  (forall s, live st2 s = false) /\
  (forall s, sent_on st2 s = sent_on st s).
Proof.
  assert (H1 : own_reconnections opened_and_announced = true) by reflexivity.
  assert (H2 : run ((at_time 0, Connect) :: opened_and_announced) mounted
               = Some (after ((at_time 0, Connect) :: opened_and_announced)))
    by (vm_compute; reflexivity).
  assert (H3 : run_unmounted
                 (wsRef (refs (after ((at_time 0, Connect)
                                      :: opened_and_announced))))
                 closes_after_unmount
                 (exec unmount (at_time 200)
                    (after ((at_time 0, Connect) :: opened_and_announced)))
               = Some (default mounted
                         (run_unmounted (Some 0%nat) closes_after_unmount
                            (exec unmount (at_time 200)
                               (after ((at_time 0, Connect)
                                       :: opened_and_announced))))))
    by (vm_compute; reflexivity).
  split; [exact H1|]. split; [exact H2|]. split; [exact H3|].
  exact (unmount_is_final (at_time 0) opened_and_announced _ (at_time 200)
           closes_after_unmount _ H1 H2 H3).
Defined.

(** ** One animation frame of the audio analyser *)

Lemma sum_from data : forall acc,
  fold_left (fun sum value => sum + value) data acc
  = acc + fold_left (fun sum value => sum + value) data 0.
Proof.
  induction data as [|v data IH]; intros acc; cbn [fold_left].
  - lia.
  - rewrite (IH (acc + v)), (IH (0 + v)). lia.
Qed.

Lemma sum_of_bytes data :
  Forall (fun v => 0 <= v <= 255) data ->
  0 <= fold_left (fun sum value => sum + value) data 0
    <= 255 * Z.of_nat (length data).
Proof.
  induction 1 as [|v data Hv _ IH]; cbn [fold_left length]; [lia|].
  rewrite sum_from. lia.
Qed.

Lemma average_bounds data :
  data <> [] -> Forall (fun v => 0 <= v <= 255) data ->
  (0 <= average data)%Q /\ (average data <= 255)%Q /\
  ((128 <= average data)%Q <->
   128 * Z.of_nat (length data)
     <= fold_left (fun sum value => sum + value) data 0).
Proof.
  intros Hne Hbytes. pose proof (sum_of_bytes data Hbytes) as Hsum.
  unfold average.
  set (total := fold_left (fun sum value => sum + value) data 0) in *.
  assert (Hlen : 0 < Z.of_nat (length data))
    by (destruct data; [contradiction|cbn [length]; lia]).
  destruct (Z.of_nat (length data)) as [|n|n]; try lia.
  unfold Qle, Qdiv, Qmult, Qinv, inject_Z. cbn.
  repeat split; try lia.
Qed.

(** X16.  One animation frame of the analyser, on a non-empty array of
    bytes: the level stored is min(average / 128, 1), which lies between 0
    and 1 and is exactly 1 as soon as the bytes average 128 or more, half
    of their range; the frame leaves the listening flag, the conversation,
    the references and the browser as they are. *)
Theorem analyzeAudio_level m data o st :
  data <> [] -> Forall (fun v => 0 <= v <= 255) data ->
  let st' := exec (analyzeAudio m data) o st in
  audioLevel (monitor st') = normalizedLevel data /\
  (0 <= normalizedLevel data)%Q /\
  (normalizedLevel data <= 1)%Q /\
  ((normalizedLevel data == 1)%Q <->
   128 * Z.of_nat (length data)
     <= fold_left (fun sum value => sum + value) data 0) /\
  isListening (monitor st') = isListening (monitor st) /\
  conversationHistory (cells st') = conversationHistory (cells st) /\
  refs st' = refs st /\ browser st' = browser st.
Proof.
  intros Hne Hbytes st'.
  destruct (average_bounds data Hne Hbytes) as (Hlow & _ & Hfull).
  assert (Hstate : audioLevel (monitor st') = normalizedLevel data /\
                   isListening (monitor st') = isListening (monitor st) /\
                   conversationHistory (cells st')
                     = conversationHistory (cells st) /\
                   refs st' = refs st /\ browser st' = browser st).
  { subst st'. unfold analyzeAudio, onAudioLevel.
    generalize (normalizedLevel data). intros level. open_state st.
    destruct (bool_decide (m = js "listening") || bool_decide (m = js "idle"));
      evaluate_more; [|repeat apply conj; reflexivity].
    destruct (Qle_bool (Qabs (Qmax 0.1 (level * 1.5) - c_intensity)) 0.01);
      repeat apply conj; reflexivity. }
  destruct Hstate as (H1 & H2 & H3 & H4 & H5).
  unfold normalizedLevel.
  assert (Hdiv : (1 <= average data / 128 <-> 128 <= average data)%Q).
  { split; intros H.
    - apply (Qmult_le_compat_r _ _ 128) in H; [|discriminate].
      rewrite Qmult_1_l in H.
      assert (E : (average data / 128 * 128 == average data)%Q) by field.
      rewrite E in H. exact H.
    - apply Qle_shift_div_l; [reflexivity|]. rewrite Qmult_1_l. exact H. }
  split; [exact H1|]. split; [|split; [|split]].
  - apply Q.min_glb; [|discriminate].
    apply Qle_shift_div_l; [reflexivity|]. rewrite Qmult_0_l. exact Hlow.
  - apply Q.le_min_r.
  - rewrite Q.min_r_iff, Hdiv. exact Hfull.
  - repeat apply conj; assumption.
Qed.

Lemma analyzeAudio_level_witness :
  let data := [128; 255; 1] in
  let st' := exec (analyzeAudio (js "listening") data) (at_time 0) mounted in
  data <> [] /\ Forall (fun v => 0 <= v <= 255) data /\
  audioLevel (monitor st') = normalizedLevel data /\
  (0 <= normalizedLevel data)%Q /\
  (normalizedLevel data <= 1)%Q /\
  ((normalizedLevel data == 1)%Q <->
   128 * Z.of_nat (length data)
     <= fold_left (fun sum value => sum + value) data 0) /\
  isListening (monitor st') = isListening (monitor mounted) /\
  conversationHistory (cells st') = conversationHistory (cells mounted) /\
  refs st' = refs mounted /\ browser st' = browser mounted.
Proof.
  assert (H1 : [128; 255; 1] <> []) by discriminate.
  assert (H2 : Forall (fun v => 0 <= v <= 255) [128; 255; 1])
    by (repeat constructor; lia).
  split; [exact H1|]. split; [exact H2|].
  exact (analyzeAudio_level (js "listening") [128; 255; 1] (at_time 0)
           mounted H1 H2).
Defined.

(** ** The blob *)

Lemma radius_between b v noise i lo hi :
  (0 <= v)%Q -> (-1 <= noise)%Q -> (noise <= 1)%Q -> (0 <= i)%Q ->
  (lo <= b - v)%Q -> (b + v <= hi)%Q ->
  (1.2 * (1 + lo * i) <= radius b v noise i)%Q /\
  (radius b v noise i <= 1.2 * (1 + hi * i))%Q.
Proof.
  intros Hv Hn1 Hn2 Hi Hlo Hhi. unfold radius.
  assert (H1 : (0 <= v * (noise + 1))%Q)
    by (apply Qmult_le_0_compat; [exact Hv|lra]).
  assert (H2 : (0 <= v * (1 - noise))%Q)
    by (apply Qmult_le_0_compat; [exact Hv|lra]).
  assert (H3 : (0 <= (b + v * noise - lo) * i)%Q)
    by (apply Qmult_le_0_compat; [lra|exact Hi]).
  assert (H4 : (0 <= (hi - (b + v * noise)) * i)%Q)
    by (apply Qmult_le_0_compat; [lra|exact Hi]).
  split; lra.
Qed.

(** X17.  Without overrides, whatever the mode, a vertex of the blob is
    drawn at a distance between 1.2 * (1 - 0.1 * intensity) and
    1.2 * (1 + 0.54 * intensity) from the centre, for a noise value between
    -1 and 1 and an intensity that is not negative; so the distance stays
    positive for every intensity below 10, in particular for those the
    component sets from the microphone (at most 1.5). *)
Theorem blob_radius_bounds mode noise intensity :
  (-1 <= noise)%Q -> (noise <= 1)%Q -> (0 <= intensity)%Q ->
  (1.2 * (1 - 0.1 * intensity) <= blob_radius mode noise intensity)%Q /\
  (blob_radius mode noise intensity <= 1.2 * (1 + 0.54 * intensity))%Q /\
  ((intensity < 10)%Q -> (0 < blob_radius mode noise intensity)%Q).
Proof.
  intros Hn1 Hn2 Hi.
  assert (H : (1.2 * (1 + -0.1 * intensity)
               <= blob_radius mode noise intensity)%Q /\
              (blob_radius mode noise intensity
               <= 1.2 * (1 + 0.54 * intensity))%Q).
  { unfold blob_radius, dynamicAmpBase, dynamicAmpVar.
    destruct (bool_decide (mode = js "listening"));
      [|destruct (bool_decide (mode = js "speaking"))];
      apply radius_between; try assumption; lra. }
  destruct H as [Hlo Hhi].
  split; [lra|]. split; [exact Hhi|]. intros Hten. lra.
Qed.

Lemma blob_radius_bounds_witness :
  (-1 <= -1)%Q /\ (-1 <= 1)%Q /\ (0 <= 1.5)%Q /\
  (1.2 * (1 - 0.1 * 1.5) <= blob_radius (js "listening") (-1) 1.5)%Q /\
  (blob_radius (js "listening") (-1) 1.5 <= 1.2 * (1 + 0.54 * 1.5))%Q /\
  ((1.5 < 10)%Q -> (0 < blob_radius (js "listening") (-1) 1.5)%Q).
Proof.
  assert (H1 : (-1 <= -1)%Q) by discriminate.
  assert (H2 : (-1 <= 1)%Q) by discriminate.
  assert (H3 : (0 <= 1.5)%Q) by discriminate.
  split; [exact H1|]. split; [exact H2|]. split; [exact H3|].
  exact (blob_radius_bounds (js "listening") (-1) 1.5 H1 H2 H3).
Defined.

(** ** The chat panel *)

(** X18.  The send button and the Enter key agree: while the button is
    disabled (blank input or connected flag down) no key press changes
    anything, although the key handler does not look at the button; while
    it is enabled, Enter without Shift does what a click does, and any
    other key, or Enter with Shift, does nothing. *)
Theorem enter_key_follows_send_button key shiftKey o st :
  (if send_disabled st
   then exec (onKeyPress key shiftKey) o st = st /\
        exec onClick_send o st = st
   else exec (onKeyPress (js "Enter") false) o st = exec onClick_send o st /\
        exec onClick_send o st = exec sendTextMessage o st /\
        length (conversationHistory (cells (exec onClick_send o st)))
          = S (length (conversationHistory (cells st)))) /\
  (bool_decide (key = js "Enter") && negb shiftKey = false ->
   exec (onKeyPress key shiftKey) o st = st).
Proof.
  assert (Hclick : exec onClick_send o st
                   = if send_disabled st then st else exec sendTextMessage o st).
  { unfold exec, onClick_send, bind, read. cbv beta iota.
    destruct (send_disabled st); reflexivity. }
  assert (Hguard : send_disabled st
                   = negb (truthy (trim (userText (cells st)))
                           && isConnected (cells st))).
  { unfold send_disabled.
    destruct (truthy (trim (userText (cells st)))), (isConnected (cells st));
      reflexivity. }
  split.
  - rewrite Hclick. destruct (send_disabled st) eqn:Hd.
    + split; [|reflexivity]. symmetry in Hguard.
      apply negb_true_iff in Hguard. unfold onKeyPress.
      destruct (bool_decide (key = js "Enter") && negb shiftKey);
        [|reflexivity].
      unfold exec, sendTextMessage, bind, read. cbn.
      rewrite Hguard. reflexivity.
    + split; [|split; [reflexivity|]].
      * unfold onKeyPress. rewrite bool_decide_eq_true_2 by reflexivity.
        reflexivity.
      * symmetry in Hguard. apply negb_false_iff in Hguard.
        revert Hguard. clear. open_state st. intros Hguard. evaluate_more.
        rewrite Hguard.
        destruct r_ws as [s0|]; [destruct (b_sockets !! s0) as [[[] ?]|]|];
          cbn; rewrite length_app; cbn; lia.
  - intros Hkey. unfold onKeyPress. rewrite Hkey. reflexivity.
Qed.

(** X19.  After a send that the button allows, the messages area is never
    the placeholder: it lists the history, then the new user entry, then
    one more bubble, the loading dots or, when a streamed answer is in
    progress, the streamed text instead of the dots. *)
Theorem panel_after_send o st :
  send_disabled st = false ->
  messages_area (exec sendTextMessage o st)
    = Some (map message_item (conversationHistory (cells st)) ++
            [message_item (entry user (trim (userText (cells st))) (now o))] ++
            (if truthy (currentResponse (cells st))
             then [streaming_bubble (currentResponse (cells st))]
             else [loading_dots])).
Proof.
  intros Hd.
  assert (Hguard : truthy (trim (userText (cells st)))
                   && isConnected (cells st) = true).
  { unfold send_disabled in Hd.
    destruct (truthy (trim (userText (cells st)))), (isConnected (cells st));
      (reflexivity || discriminate). }
  clear Hd.
  assert (Hcells :
    conversationHistory (cells (exec sendTextMessage o st))
      = conversationHistory (cells st)
        ++ [entry user (trim (userText (cells st))) (now o)] /\
    isWaitingForResponse (cells (exec sendTextMessage o st)) = true /\
    currentResponse (cells (exec sendTextMessage o st))
      = currentResponse (cells st)).
  { revert Hguard. open_state st. intros Hguard. evaluate_more.
    rewrite Hguard.
    destruct r_ws as [s0|]; [destruct (b_sockets !! s0) as [[[] ?]|]|];
      repeat apply conj; reflexivity. }
  destruct Hcells as (Hconv & Hwait & Hresp).
  unfold messages_area. rewrite Hconv, Hwait, Hresp.
  destruct (conversationHistory (cells st)
            ++ [entry user (trim (userText (cells st))) (now o)]) eqn:Hnil;
    [destruct (conversationHistory (cells st)); discriminate Hnil|].
  rewrite <- Hnil, map_app.
  destruct (truthy (currentResponse (cells st)));
    cbn [andb negb map app]; rewrite <- ?app_assoc; reflexivity.
Qed.

Lemma panel_after_send_witness :
  let st := after typed_during_stream in
  send_disabled st = false /\
  messages_area (exec sendTextMessage (at_time 3) st)
    = Some (map message_item (conversationHistory (cells st)) ++
            [message_item (entry user (trim (userText (cells st)))
                             (now (at_time 3)))] ++
            (if truthy (currentResponse (cells st))
             then [streaming_bubble (currentResponse (cells st))]
             else [loading_dots])).
Proof.
  assert (H : send_disabled (after typed_during_stream) = false)
    by (vm_compute; reflexivity).
  split; [exact H|].
  exact (panel_after_send (at_time 3) (after typed_during_stream) H).
Defined.

(** X20.  While an answer is streamed the messages area never shows the
    loading dots, and it shows the streamed text only below a history that
    is not empty: with an empty history the placeholder stays, whatever
    has been streamed. *)
Theorem streamed_text_needs_history st o t chunks :
  let streamed := receive (streams ((o, t) :: chunks)) st in
  let buffer := responseRef (refs st) ++ concat (map snd ((o, t) :: chunks)) in
  messages_area streamed
    = match conversationHistory (cells st) with
      | [] => None
      | history =>
          Some (map message_item history ++
                (if truthy buffer then [streaming_bubble buffer] else []))
      end.
Proof.
  intros streamed buffer.
  destruct (stream_buffer ((o, t) :: chunks) st) as [Hbuf Hconv].
  destruct (stream_shown chunks st o t) as [Hshown Hwait].
  fold streamed in Hbuf, Hconv, Hshown, Hwait. fold buffer in Hbuf.
  unfold messages_area. rewrite Hconv, Hwait, Hshown, Hbuf.
  destruct (conversationHistory (cells st)); reflexivity.
Qed.

(** * The duplicate test over executions *)

Lemma appended_snoc st st' m :
  conversationHistory (cells st') = conversationHistory (cells st) ++ [m] ->
  appended st st' = Some m.
Proof.
  intros H. unfold appended. rewrite H, length_app, last_snoc. cbn [length].
  rewrite Nat.add_1_r, Nat.eqb_refl. reflexivity.
Qed.

Lemma appended_same st st' :
  conversationHistory (cells st') = conversationHistory (cells st) ->
  appended st st' = None.
Proof.
  intros H. unfold appended. rewrite H.
  destruct (Nat.eqb_spec (length (conversationHistory (cells st)))
              (S (length (conversationHistory (cells st))))); [lia|reflexivity].
Qed.

Lemma appended_cleared st st' :
  conversationHistory (cells st') = [] -> appended st st' = None.
Proof. intros H. unfold appended. rewrite H. reflexivity. Qed.

Create HintDb log.

Section SameLog.
Variable st0 : State.

Lemma cells_log f :
  (forall c, conversationHistory (f c) = conversationHistory c) ->
  preserves (same_log st0) (on_cells f).
Proof. intros Hf o st [H1 H2]. split; [cbn; rewrite Hf; exact H1|exact H2]. Qed.

Lemma refs_log f :
  (forall r, lastTextInputRef (f r) = lastTextInputRef r) ->
  preserves (same_log st0) (on_refs f).
Proof. intros Hf o st [H1 H2]. split; [exact H1|cbn; rewrite Hf; exact H2]. Qed.

Lemma monitor_log f : preserves (same_log st0) (on_monitor f).
Proof. intros o st H. exact H. Qed.

Lemma browser_log f : preserves (same_log st0) (on_browser f).
Proof. intros o st H. exact H. Qed.

Hint Resolve monitor_log browser_log : log.

Ltac log_leaf :=
  lazymatch goal with
  | |- preserves _ (on_cells _) => apply cells_log; intros ?; reflexivity
  | |- preserves _ (on_refs _) => apply refs_log; intros ?; reflexivity
  | |- _ => solve [auto with log]
  end.

Ltac log := repeat first [preserve_step | log_leaf].

Lemma connectToJarvis_log : preserves (same_log st0) connectToJarvis.
Proof.
  unfold connectToJarvis, scheduleReconnect, new_WebSocket, setTimeout,
    clearTimeout, socket_readyState, console_write, setIsConnected,
    set_wsRef, set_reconnectTimeoutRef, set_isConnectingRef.
  log.
Qed.

Lemma quiet_message_log d :
  match d with user_text _ | assistant_final _ => False | _ => True end ->
  preserves (same_log st0) (handleJarvisMessage d).
Proof.
  destruct d; intros []; unfold handleJarvisMessage, startListening,
    stopListening, monitor_called, console_write, setIsWaitingForResponse,
    setCurrentResponse, setMode, setIntensity, set_responseRef; log.
Qed.

Lemma quiet_event_log o e st st' :
  match e with
  | Sends | Clears | SocketReceives _ (Some (user_text _))
  | SocketReceives _ (Some (assistant_final _)) => False
  | _ => True
  end ->
  step o e st = Some st' -> same_log st0 st -> same_log st0 st'.
Proof.
  intros Hquiet.
  destruct e as [|t|s|s [d|]|s|s wasClean failed|t| | |]; cbn [step];
    intros Hstep;
    repeat match type of Hstep with
           | (if ?b then _ else _) = _ => destruct b
           | match ?x with _ => _ end = _ => destruct x
           end;
    try discriminate; try contradiction;
    injection Hstep as <-; apply preserves_exec.
  all: try apply connectToJarvis_log.
  all: try (apply quiet_message_log; exact Hquiet).
  all: unfold run_callback, announceMic, onopen, onmessage, onerror, onclose,
    toggleMicrophone, startListening, stopListening, sendWebSocketMessage,
    scheduleReconnect, setTimeout, monitor_called,
    clearTimeout, socket_becomes, socket_send, socket_readyState,
    console_write, setIsConnected, setUserText, setMicEnabled,
    setIsWaitingForResponse, set_reconnectTimeoutRef, set_isConnectingRef.
  all: repeat first [ apply connectToJarvis_log | preserve_step | log_leaf ].
Qed.

End SameLog.

Lemma same_log_refl st : same_log st st.
Proof. split; reflexivity. Qed.

Lemma user_text_log o st t :
  let st' := exec (handleJarvisMessage (user_text t)) o st in
  if isDuplicate (lastTextInputRef (refs st)) t (now o)
  then same_log st st'
  else conversationHistory (cells st')
         = conversationHistory (cells st) ++ [entry user t (now o)] /\
       lastTextInputRef (refs st') = Some (stamp_of (entry user t (now o))).
Proof.
  open_state st. cbv [exec handleJarvisMessage bind read ask].
  cbn [refs lastTextInputRef].
  destruct (isDuplicate r_last t (now o)); split; reflexivity.
Qed.

Lemma assistant_final_log o st t :
  let st' := exec (handleJarvisMessage (assistant_final t)) o st in
  conversationHistory (cells st')
    = conversationHistory (cells st) ++ [entry assistant t (now o)] /\
  lastTextInputRef (refs st') = Some (stamp_of (entry assistant t (now o))).
Proof. split; reflexivity. Qed.

Lemma send_log o st :
  let T := trim (userText (cells st)) in
  let st' := exec sendTextMessage o st in
  if truthy T && isConnected (cells st)
  then conversationHistory (cells st')
         = conversationHistory (cells st) ++ [entry user T (now o)] /\
       lastTextInputRef (refs st') = Some (stamp_of (entry user T (now o)))
  else st' = st.
Proof.
  open_state st. cbv zeta. cbv [exec sendTextMessage bind read].
  cbn [cells userText isConnected].
  destruct (truthy (trim c_userText) && c_isConnected); [|reflexivity].
  evaluate_more.
  destruct r_ws as [s0|]; [destruct (b_sockets !! s0) as [[[] ?]|]|];
    split; reflexivity.
Qed.

Lemma clear_log o st :
  let st' := exec clearConversation o st in
  conversationHistory (cells st') = [] /\
  lastTextInputRef (refs st') = lastTextInputRef (refs st).
Proof. split; reflexivity. Qed.

Lemma logged_same acc st st' : same_log st st' -> logged acc st -> logged acc st'.
Proof.
  intros [Hconv Hlast] [Href Hacc]. split; [congruence|].
  rewrite Hconv. exact Hacc.
Qed.

Lemma logged_append st st' m :
  conversationHistory (cells st') = conversationHistory (cells st) ++ [m] ->
  lastTextInputRef (refs st') = Some (stamp_of m) ->
  logged (Some m) st'.
Proof.
  intros Hconv Hlast. split; [exact Hlast|].
  intros m'. rewrite Hconv, last_snoc. intros [= <-]. reflexivity.
Qed.

Lemma logged_cleared acc st st' :
  conversationHistory (cells st') = [] ->
  lastTextInputRef (refs st') = lastTextInputRef (refs st) ->
  logged acc st -> logged acc st'.
Proof.
  intros Hconv Hlast [Href _]. split; [congruence|].
  rewrite Hconv. discriminate.
Qed.

Lemma receive_step o s d st st' :
  step o (SocketReceives s (Some d)) st = Some st' ->
  st' = exec (handleJarvisMessage d) o st.
Proof.
  cbn [step onmessage].
  destruct (is_state OPEN (ready st s)); [intros [= <-]; reflexivity|discriminate].
Qed.

(** One event appends one entry and records it, or leaves the conversation
    and the record as they are, or empties the conversation and leaves the
    record. *)
Lemma step_log o e st st' :
  step o e st = Some st' ->
  (exists m,
     conversationHistory (cells st')
       = conversationHistory (cells st) ++ [m] /\
     lastTextInputRef (refs st') = Some (stamp_of m)) \/
  same_log st st' \/
  (conversationHistory (cells st') = [] /\
   lastTextInputRef (refs st') = lastTextInputRef (refs st)).
Proof.
  intros Hstep.
  destruct e as [|t|s|s [[t|t|t|m i|m l|t]|]|s|s wasClean failed|t| | |].
  all: try (right; left;
            refine (quiet_event_log st o _ st st' _ Hstep (same_log_refl st));
            exact I).
  - (* user_text *)
    pose proof (receive_step o s _ st st' Hstep) as Hst'.
    clear Hstep. pose proof (user_text_log o st t) as H. cbv zeta in H.
    rewrite <- Hst' in H. clear Hst'.
    destruct (isDuplicate (lastTextInputRef (refs st)) t (now o));
      [right; left; exact H|left; eexists; exact H].
  - (* assistant_final *)
    pose proof (receive_step o s _ st st' Hstep) as Hst'.
    clear Hstep. destruct (assistant_final_log o st t) as [H1 H2].
    rewrite <- Hst' in H1, H2. clear Hst'. left. eexists.
    split; [exact H1|exact H2].
  - (* Sends *)
    assert (Hst' : st' = exec sendTextMessage o st)
      by (cbn [step] in Hstep; congruence).
    clear Hstep. pose proof (send_log o st) as H. cbv zeta in H.
    rewrite <- Hst' in H. clear Hst'.
    destruct (truthy (trim (userText (cells st))) && isConnected (cells st)).
    + left. eexists. exact H.
    + right. left. rewrite H. apply same_log_refl.
  - (* Clears *)
    assert (Hst' : st' = exec clearConversation o st)
      by (cbn [step] in Hstep; congruence).
    clear Hstep. pose proof (clear_log o st) as H. cbv zeta in H.
    rewrite <- Hst' in H. clear Hst'. right. right. exact H.
Qed.

(** One event: the entry it appended, if any, becomes the entry appended
    most recently. *)
Lemma step_logged o e st st' acc :
  step o e st = Some st' -> logged acc st ->
  logged (match appended st st' with Some m => Some m | None => acc end) st'.
Proof.
  intros Hstep Hlog.
  destruct (step_log o e st st' Hstep)
    as [(m & Hconv & Hlast)|[Hsame|[Hconv Hlast]]].
  - rewrite (appended_snoc st st' m Hconv).
    exact (logged_append st st' m Hconv Hlast).
  - rewrite (appended_same st st' (proj1 Hsame)).
    exact (logged_same acc st st' Hsame Hlog).
  - rewrite (appended_cleared st st' Hconv).
    exact (logged_cleared acc st st' Hconv Hlast Hlog).
Qed.

Lemma run_logged trace : forall st st' acc,
  run trace st = Some st' -> logged acc st ->
  logged (latest_append_from st trace acc) st'.
Proof.
  induction trace as [|[o e] trace IH]; intros st st' acc Hrun Hlog.
  - injection Hrun as <-. exact Hlog.
  - cbn [run latest_append_from] in *.
    destruct (step o e st) as [st1|] eqn:Hstep; [|discriminate].
    exact (IH st1 st' _ Hrun (step_logged o e st st1 acc Hstep Hlog)).
Qed.

Lemma mounted_logged trace st :
  run trace mounted = Some st -> logged (latest_append trace) st.
Proof.
  intros Hrun. apply (run_logged trace mounted st None Hrun).
  split; [reflexivity|discriminate].
Qed.

Lemma latest_append_from_acc trace : forall st acc,
  latest_append_from st trace acc
  = match latest_append_from st trace None with
    | Some m => Some m
    | None => acc
    end.
Proof.
  induction trace as [|[o e] trace IH]; intros st acc; cbn [latest_append_from].
  - reflexivity.
  - destruct (step o e st) as [st1|]; [|reflexivity].
    rewrite (IH st1 (match appended st st1 with Some m => Some m | None => acc end)).
    rewrite (IH st1 (match appended st st1 with Some m => Some m | None => None end)).
    destruct (latest_append_from st1 trace None); [reflexivity|].
    destruct (appended st st1); reflexivity.
Qed.

Lemma latest_append_from_app l1 : forall l2 st st1 acc,
  run l1 st = Some st1 ->
  latest_append_from st (l1 ++ l2) acc
  = latest_append_from st1 l2 (latest_append_from st l1 acc).
Proof.
  induction l1 as [|[o e] l1 IH]; intros l2 st st1 acc Hrun.
  - injection Hrun as <-. reflexivity.
  - cbn [app run latest_append_from] in *.
    destruct (step o e st) as [st2|]; [|discriminate].
    exact (IH l2 st2 st1 _ Hrun).
Qed.

Lemma duplicate_test_worded acc t clock :
  isDuplicate (stamp_of <$> acc) t clock = duplicates_latest_append acc t clock.
Proof. destruct acc; reflexivity. Qed.

(** C5, as amended.  In any execution, an inbound [user_text] is compared
    with the entry appended to the conversation most recently, whatever the
    role of that entry and whether or not the conversation has been cleared
    since: when its text equals that entry's text and it arrives less than
    2000 ms after that append, no entry is appended; with a different text,
    or 2000 ms or more after it, or when nothing has been appended yet, one
    user entry is appended.  The awaiting-response flag is set in all
    cases.  Unless the conversation is empty, the entry appended most
    recently is its latest entry. *)
Theorem user_text_compared_with_latest_append trace st o t :
  run trace mounted = Some st ->
  let st' := exec (handleJarvisMessage (user_text t)) o st in
  isWaitingForResponse (cells st') = true /\
  conversationHistory (cells st') =
    (if duplicates_latest_append (latest_append trace) t (now o)
     then conversationHistory (cells st)
     else conversationHistory (cells st) ++ [entry user t (now o)]) /\
  (forall m, last (conversationHistory (cells st)) = Some m ->
             latest_append trace = Some m).
Proof.
  intros Hrun st'.
  destruct (mounted_logged trace st Hrun) as [Href Hlast].
  destruct (user_text_result o st t) as [Hwait Hhist].
  split; [exact Hwait|]. split; [|exact Hlast].
  subst st'. rewrite Hhist, Href, duplicate_test_worded. reflexivity.
Qed.

Lemma user_text_compared_with_latest_append_witness :
  let st := after cleared_after_hi in
  let o := at_time 1500 in
  let st' := exec (handleJarvisMessage (user_text (js "hi"))) o st in
  run cleared_after_hi mounted = Some st /\
  (conversationHistory (cells st) = [] /\
   latest_append cleared_after_hi = Some (entry user (js "hi") 0) /\
   conversationHistory (cells st') = []) /\
  isWaitingForResponse (cells st') = true /\
  conversationHistory (cells st') =
    (if duplicates_latest_append (latest_append cleared_after_hi) (js "hi")
          (now o)
     then conversationHistory (cells st)
     else conversationHistory (cells st) ++ [entry user (js "hi") (now o)]) /\
  (forall m, last (conversationHistory (cells st)) = Some m ->
             latest_append cleared_after_hi = Some m).
Proof.
  assert (Hrun : run cleared_after_hi mounted = Some (after cleared_after_hi))
    by (vm_compute; reflexivity).
  split; [exact Hrun|]. split.
  - repeat apply conj; vm_compute; reflexivity.
  - exact (user_text_compared_with_latest_append cleared_after_hi
             (after cleared_after_hi) (at_time 1500) (js "hi") Hrun).
Defined.

(** An inbound [user_text] leaves the conversation as it is exactly when
    it repeats the text appended most recently less than 2000 ms after that
    append. *)
Lemma suppressed_iff trace st o t :
  run trace mounted = Some st ->
  conversationHistory (cells (exec (handleJarvisMessage (user_text t)) o st))
    = conversationHistory (cells st) <->
  exists m, latest_append trace = Some m /\ text m = t /\
            now o - timestamp m < 2000.
Proof.
  intros Hrun.
  destruct (mounted_logged trace st Hrun) as [Href _].
  destruct (user_text_result o st t) as [_ Hhist]. cbv zeta in Hhist.
  rewrite Hhist, Href, duplicate_test_worded.
  unfold duplicates_latest_append.
  destruct (latest_append trace) as [m|].
  - destruct (bool_decide (text m = t) && (now o - timestamp m <? 2000))
      eqn:Hdup.
    + apply andb_prop in Hdup as [Htext Hclock].
      apply bool_decide_eq_true in Htext. apply Z.ltb_lt in Hclock.
      split; [intros _; exists m; repeat split; assumption|reflexivity].
    + split.
      * intros H. apply (f_equal (@length _)) in H.
        rewrite length_app in H. cbn in H. lia.
      * intros (m' & [= <-] & Htext & Hclock).
        rewrite bool_decide_eq_true_2 in Hdup by exact Htext.
        apply Z.ltb_lt in Hclock. rewrite Hclock in Hdup. discriminate.
  - split.
    + intros H. apply (f_equal (@length _)) in H.
      rewrite length_app in H. cbn in H. lia.
    + intros (m & Hm & _). discriminate.
Qed.

(** After an event that appended [m], followed by events that append
    nothing, [m] is the entry appended most recently. *)
Lemma latest_append_then trace st o e st1 between st2 m :
  run trace mounted = Some st ->
  step o e st = Some st1 ->
  conversationHistory (cells st1) = conversationHistory (cells st) ++ [m] ->
  run between st1 = Some st2 ->
  nothing_appended st1 between ->
  run (trace ++ (o, e) :: between) mounted = Some st2 /\
  latest_append (trace ++ (o, e) :: between) = Some m.
Proof.
  intros Hrun Hstep Hconv Hbetween Hnothing. split.
  - rewrite run_app, Hrun. cbn [run]. rewrite Hstep. exact Hbetween.
  - unfold latest_append.
    rewrite (latest_append_from_app trace _ mounted st None Hrun).
    cbn [latest_append_from]. rewrite Hstep, (appended_snoc st st1 m Hconv).
    rewrite latest_append_from_acc, Hnothing. reflexivity.
Qed.

(** C10.  In any execution the duplicate test of [user_text] compares
    with the entry appended to the conversation most recently, of either
    role: the inbound text is suppressed exactly when it equals that
    entry's text and arrives less than 2000 ms after that append (and never
    when nothing was appended yet).  In particular, when a local send
    appended the trimmed input [T] and nothing was appended since, an
    inbound [user_text] carrying [T] appends nothing if it arrives less
    than 2000 ms after the send, and appends an entry otherwise; and when
    an [assistant_final] appended the assistant entry [t] and nothing was
    appended since, an inbound [user_text] carrying [t] appends nothing if
    it arrives less than 2000 ms after that entry, and appends an entry
    otherwise. *)
Theorem user_text_suppressed_after_any_append trace st :
  run trace mounted = Some st ->
  (forall o t,
     conversationHistory (cells (exec (handleJarvisMessage (user_text t)) o st))
       = conversationHistory (cells st) <->
     exists m, latest_append trace = Some m /\ text m = t /\
               now o - timestamp m < 2000) /\
  (forall o between st2 o',
     let T := trim (userText (cells st)) in
     truthy T = true ->
     isConnected (cells st) = true ->
     run ((o, Sends) :: between) st = Some st2 ->
     nothing_appended (exec sendTextMessage o st) between ->
     latest_append (trace ++ (o, Sends) :: between)
       = Some (entry user T (now o)) /\
     (conversationHistory
        (cells (exec (handleJarvisMessage (user_text T)) o' st2))
        = conversationHistory (cells st2) <->
      now o' - now o < 2000)) /\
  (forall o s t between st2 o',
     run ((o, SocketReceives s (Some (assistant_final t))) :: between) st
       = Some st2 ->
     nothing_appended (exec (handleJarvisMessage (assistant_final t)) o st)
       between ->
     latest_append
       (trace ++ (o, SocketReceives s (Some (assistant_final t))) :: between)
       = Some (entry assistant t (now o)) /\
     (conversationHistory
        (cells (exec (handleJarvisMessage (user_text t)) o' st2))
        = conversationHistory (cells st2) <->
      now o' - now o < 2000)).
Proof.
  intros Hrun. split; [|split].
  - intros o t. exact (suppressed_iff trace st o t Hrun).
  - intros o between st2 o' T Htext Hconn Hsend Hnothing.
    cbn [run] in Hsend.
    destruct (step o Sends st) as [st1|] eqn:Hstep; [|discriminate].
    assert (Hst1 : st1 = exec sendTextMessage o st)
      by (cbn [step] in Hstep; congruence).
    pose proof (send_log o st) as Hlog. cbv zeta in Hlog. fold T in Hlog.
    rewrite Htext, Hconn in Hlog. cbn [andb] in Hlog.
    destruct Hlog as [Hconv _]. rewrite <- Hst1 in Hconv, Hnothing.
    destruct (latest_append_then trace st o Sends st1 between st2 _
                Hrun Hstep Hconv Hsend Hnothing) as [Hrun2 Hlatest].
    split; [exact Hlatest|].
    rewrite (suppressed_iff _ st2 o' T Hrun2), Hlatest. split.
    + intros (m & [= <-] & _ & Hclock). exact Hclock.
    + intros Hclock. exists (entry user T (now o)).
      split; [reflexivity|split; [reflexivity|exact Hclock]].
  - intros o s t between st2 o' Hfinal Hnothing.
    cbn [run] in Hfinal.
    destruct (step o (SocketReceives s (Some (assistant_final t))) st)
      as [st1|] eqn:Hstep; [|discriminate].
    pose proof (receive_step o s _ st st1 Hstep) as Hst1.
    destruct (assistant_final_log o st t) as [Hconv _].
    rewrite <- Hst1 in Hconv, Hnothing.
    destruct (latest_append_then trace st o _ st1 between st2 _
                Hrun Hstep Hconv Hfinal Hnothing) as [Hrun2 Hlatest].
    split; [exact Hlatest|].
    rewrite (suppressed_iff _ st2 o' t Hrun2), Hlatest. split.
    + intros (m & [= <-] & _ & Hclock). exact Hclock.
    + intros Hclock. exists (entry assistant t (now o)).
      split; [reflexivity|split; [reflexivity|exact Hclock]].
Qed.

Lemma user_text_suppressed_after_any_append_witness :
  let st := after typed_hi in
  let T := trim (userText (cells st)) in
  let sent := typed_hi ++ (at_time 10, Sends) :: idle_chatter in
  let finalized :=
    typed_hi ++
    (at_time 10, SocketReceives 0 (Some (assistant_final (js "hello"))))
    :: idle_chatter in
  run typed_hi mounted = Some st /\
  (latest_append sent = Some (entry user T (now (at_time 10))) /\
   (conversationHistory
      (cells (exec (handleJarvisMessage (user_text T)) (at_time 2009)
                (after sent)))
      = conversationHistory (cells (after sent)) <->
    now (at_time 2009) - now (at_time 10) < 2000)) /\
  (latest_append finalized
     = Some (entry assistant (js "hello") (now (at_time 10))) /\
   (conversationHistory
      (cells (exec (handleJarvisMessage (user_text (js "hello")))
                (at_time 2009) (after finalized)))
      = conversationHistory (cells (after finalized)) <->
    now (at_time 2009) - now (at_time 10) < 2000)).
Proof.
  assert (Hrun : run typed_hi mounted = Some (after typed_hi))
    by (vm_compute; reflexivity).
  destruct (user_text_suppressed_after_any_append typed_hi (after typed_hi)
              Hrun) as (_ & Hsend & Hfinal).
  split; [exact Hrun|]. split.
  - refine (Hsend (at_time 10) idle_chatter _ (at_time 2009) _ _ _ _);
      vm_compute; reflexivity.
  - refine (Hfinal (at_time 10) 0%nat (js "hello") idle_chatter _
              (at_time 2009) _ _);
      vm_compute; reflexivity.
Defined.

(** * A call of [connectToJarvis] that is refused *)

Lemma open_observed o st s :
  let st' := exec (socket_becomes s OPEN ;; onopen) o st in
  (forall s', ready st' s' =
     if decide (s = s')
     then match ready st s with Some _ => Some OPEN | None => None end
     else ready st s') /\
  wsRef (refs st') = wsRef (refs st) /\
  reconnectTimeoutRef (refs st') = Some {| attempt := 0; timeout := None |} /\
  isConnected (cells st') = true.
Proof.
  open_state st. evaluate_more. repeat apply conj; try reflexivity.
  intros x. lookups. destruct (decide (s = x)) as [<-|]; [|reflexivity].
  destruct (b_sockets !! s); reflexivity.
Qed.

Lemma closing_observed o st s :
  let st' := exec (socket_becomes s CLOSING) o st in
  (forall s', ready st' s' =
     if decide (s = s')
     then match ready st s with Some _ => Some CLOSING | None => None end
     else ready st s') /\
  wsRef (refs st') = wsRef (refs st).
Proof.
  open_state st. evaluate_more. repeat apply conj; try reflexivity.
  intros x. lookups. destruct (decide (s = x)) as [<-|]; [|reflexivity].
  destruct (b_sockets !! s); reflexivity.
Qed.

Lemma current_after s st st' r :
  wsRef (refs st) = Some s ->
  wsRef (refs st') = wsRef (refs st) ->
  (forall s', ready st' s' = if decide (s = s') then r else ready st s') ->
  current_ready st' = r.
Proof.
  intros Hws Hws' Hrd. unfold current_ready. rewrite Hws', Hws, Hrd.
  rewrite decide_True by reflexivity. reflexivity.
Qed.

Lemma settled_kept st st' :
  current_ready st' = current_ready st ->
  reconnectTimeoutRef (refs st') = reconnectTimeoutRef (refs st) ->
  isConnected (cells st') = isConnected (cells st) ->
  settled st -> settled st'.
Proof. intros H1 H2 H3. unfold settled. rewrite H1, H2, H3. tauto. Qed.

Lemma settled_same st st' : same_connection st st' -> settled st -> settled st'.
Proof.
  intros (Hrd & Hws & _ & Hrec & Hconn & _). apply settled_kept.
  - unfold current_ready. rewrite Hws. destruct (wsRef (refs st)); [apply Hrd|reflexivity].
  - exact Hrec.
  - exact Hconn.
Qed.

Lemma settled_idle st :
  is_state CONNECTING (current_ready st) || is_state OPEN (current_ready st)
    = false ->
  settled st.
Proof.
  intros H. split; intros Hcur; rewrite Hcur in H; discriminate.
Qed.

Lemma step_settled o e st st' :
  external_call e = false -> step o e st = Some st' ->
  orderly st -> settled st -> settled st'.
Proof.
  destruct e as [|t|s|s data|s|s wasClean failed|t| | |];
    intros He Hstep Hord Hset; try discriminate He.
  - (* a timer fires *)
    cbn [step] in Hstep.
    destruct (timers (browser st) !! t) as [[d cb]|] eqn:Ht; [|discriminate].
    cbn [callback] in Hstep. destruct cb; cbn [run_callback] in Hstep.
    + assert (Hp : pending_reconnect st t = true)
        by (unfold pending_reconnect; rewrite Ht; reflexivity).
      destruct (orderly_pending _ _ _ _ _ _ Hord t Hp) as (Hrec & Hclosed).
      assert (Hcur : unfinished (current_ready st) = false).
      { unfold current_ready.
        destruct (wsRef (refs st)); [apply Hclosed|reflexivity]. }
      assert (Hcing : isConnectingRef (refs st) = false).
      { destruct Hord as (_ & _ & _ & _ & _ & Hg).
        destruct (isConnectingRef (refs st)); [|reflexivity].
        specialize (Hg eq_refl). fold (current_ready st) in Hg.
        destruct (current_ready st) as [[]|]; discriminate. }
      pose proof (reconnect_observed o st t Hrec Hcing Hcur) as Hobs.
      cbv zeta in Hobs.
      assert (Hst' : st' = exec (clearTimeout (Some t) ;; connectToJarvis) o st)
        by congruence.
      rewrite <- Hst' in Hobs. clear Hst' Hstep.
      destruct (constructorThrows o);
        destruct Hobs as (Hrd' & Hws' & _ & Hrec' & _ & _).
      * apply settled_idle. unfold current_ready in *. rewrite Hws'.
        destruct (wsRef (refs st)) as [s|]; [rewrite Hrd'|reflexivity].
        destruct (ready st s) as [[]|]; (reflexivity || discriminate).
      * assert (Hnew : current_ready st' = Some CONNECTING).
        { unfold current_ready. rewrite Hws', Hrd'.
          rewrite decide_True by reflexivity. reflexivity. }
        split; rewrite Hnew; [intros _; exact Hrec'|discriminate].
    + assert (Hst' : st' = exec announceMic o (exec (clearTimeout (Some t)) o st)).
      { rewrite <- exec_then. congruence. }
      clear Hstep.
      set (st1 := exec (clearTimeout (Some t)) o st) in *.
      assert (H1 : settled st1)
        by (apply (settled_kept st st1); [reflexivity..|exact Hset]).
      clearbody st1. rewrite Hst'.
      exact (settled_same st1 _
               (announceMic_same st1 o st1 (same_connection_refl st1)) H1).
  - (* the socket opens *)
    cbn [step] in Hstep.
    destruct (ready st s) as [[]|] eqn:Hs; try discriminate.
    cbn [is_state] in Hstep.
    destruct (orderly_current _ _ _ _ _ _ Hord s) as (Hws & _);
      [rewrite Hs; reflexivity|].
    destruct (open_observed o st s) as (Hrd' & Hws' & Hrec' & Hconn').
    assert (Hst' : st' = exec (socket_becomes s OPEN ;; onopen) o st)
      by congruence.
    rewrite <- Hst' in Hrd', Hws', Hrec', Hconn'. clear Hst' Hstep.
    rewrite Hs in Hrd'.
    pose proof (current_after s st st' _ Hws Hws' Hrd') as Hnew.
    split; rewrite Hnew; [discriminate|intros _; split; assumption].
  - exact (settled_same st st'
             (user_events_same o (SocketReceives s data) st st' I Hstep) Hset).
  - (* the socket starts closing *)
    cbn [step] in Hstep.
    destruct (ready st s) as [[]|] eqn:Hs; try discriminate.
    cbn [is_state] in Hstep.
    destruct (orderly_current _ _ _ _ _ _ Hord s) as (Hws & _);
      [rewrite Hs; reflexivity|].
    destruct (closing_observed o st s) as (Hrd' & Hws').
    assert (Hst' : st' = exec (socket_becomes s CLOSING) o st) by congruence.
    rewrite <- Hst' in Hrd', Hws'. clear Hst' Hstep. rewrite Hs in Hrd'.
    apply settled_idle.
    rewrite (current_after s st st' _ Hws Hws' Hrd'). reflexivity.
  - (* the socket closes *)
    cbn [step] in Hstep.
    assert (Hs : unfinished (ready st s) = true)
      by (destruct (ready st s) as [[]|]; try discriminate; reflexivity).
    assert (Hst' : st' = exec (socket_becomes s CLOSED ;;
                               (if failed then onerror else ret tt) ;;
                               onclose wasClean) o st)
      by (destruct (ready st s) as [[]|]; try discriminate; congruence).
    clear Hstep.
    destruct (orderly_current _ _ _ _ _ _ Hord s Hs) as (Hws & _).
    destruct (close_observed o st s wasClean failed)
      as (Hrd' & Hws' & _).
    rewrite <- Hst' in Hrd', Hws'. clear Hst'.
    apply settled_idle.
    rewrite (current_after s st st' _ Hws Hws' Hrd').
    destruct (ready st s); [reflexivity|discriminate].
  - exact (settled_same st st'
             (user_events_same o (Types t) st st' I Hstep) Hset).
  - exact (settled_same st st' (user_events_same o Sends st st' I Hstep) Hset).
  - exact (settled_same st st'
             (user_events_same o TogglesMic st st' I Hstep) Hset).
  - exact (settled_same st st' (user_events_same o Clears st st' I Hstep) Hset).
Qed.

Lemma mount_settled o : settled (exec connectToJarvis o mounted).
Proof.
  destruct o as [o_now o_mic []]; split; vm_compute; 
    (discriminate || (intros _; reflexivity)).
Qed.

Lemma run_settled trace : forall st st',
  own_reconnections trace = true -> run trace st = Some st' ->
  orderly st -> settled st -> orderly st' /\ settled st'.
Proof.
  induction trace as [|[o e] trace IH]; intros st st' Hown Hrun Hord Hset.
  - injection Hrun as <-. split; assumption.
  - cbn [own_reconnections forallb snd] in Hown.
    apply andb_prop in Hown as [He Hown].
    apply negb_true_iff in He.
    cbn [run] in Hrun. destruct (step o e st) as [st1|] eqn:Hstep; [|discriminate].
    exact (IH st1 st' Hown Hrun (step_orderly o e st st1 He Hstep Hord)
             (step_settled o e st st1 He Hstep Hord Hset)).
Qed.

Lemma mounted_run_settled o trace st :
  own_reconnections trace = true ->
  run ((o, Connect) :: trace) mounted = Some st ->
  orderly st /\ settled st.
Proof.
  intros Hown Hrun. cbn [run step] in Hrun.
  exact (run_settled trace _ st Hown Hrun (mount_orderly o) (mount_settled o)).
Qed.

Lemma setIsConnected_kept o st :
  isConnected (cells st) = true ->
  cells (exec (setIsConnected true) o st) = cells st.
Proof. open_state st. intros ->. reflexivity. Qed.

Lemma in_flight_current st :
  orderly st -> in_flight st = true -> current_ready st = Some CONNECTING.
Proof.
  intros (_ & _ & _ & _ & _ & Hg) Hin. unfold in_flight in Hin.
  fold (current_ready st) in Hg.
  assert (H : is_state CONNECTING (current_ready st) = true).
  { destruct (isConnectingRef (refs st)); [exact (Hg eq_refl)|].
    unfold current_ready. destruct (wsRef (refs st)); [exact Hin|discriminate]. }
  destruct (current_ready st) as [[]|]; (reflexivity || discriminate).
Qed.

Lemma connection_open_current st :
  connection_open st = true -> current_ready st = Some OPEN.
Proof.
  unfold connection_open, current_ready.
  destruct (wsRef (refs st)) as [s|]; [|discriminate].
  destruct (ready st s) as [[]|]; (reflexivity || discriminate).
Qed.


